(** * Battleship client: board model, commitments, shot claims, game phases

    A shallow embedding of the TypeScript sources

    - [libs/zk/boardProver.ts]  (boards, commitment, validation),
    - [libs/zk/shotProver.ts]   (shot maps, hit check, claim builders),
    - [libs/utils/board-utils.ts] (placement rules, board views),
    - [components/game/ShipPlacement.tsx] (the placement component),
    - [components/game/Board.tsx] (clicks on the game board),
    - [app/game/[id]/page.tsx]  (the handlers of the game page),

    followed by the properties of these functions.

    Conventions.  A JavaScript [number] that holds a coordinate, a size, a
    cell or a count is an integer of [Z].  A JavaScript string is the
    sequence of its UTF-8 bytes, a [string].  A function that can throw
    returns a [result]; the constructors of [error] are the [throw] sites.
    Reading an index that an array does not have yields [None]
    ([undefined]); reading a property of [undefined] throws [TypeError]. *)

From Stdlib Require Import ZArith Lia Ascii String Permutation.
From stdpp Require Import base option list list_numbers strings pretty.

Local Open Scope Z_scope.

(** ** Exceptions *)

Inductive error : Type :=
  | PlacementOutOfBounds (x y : Z)      (* createBoard: "Ship placement out of bounds" *)
  | ShipOverlap (x y : Z)               (* createBoard: "Ship overlap at" *)
  | InvalidShipNumber (n : nat)         (* validateBoard: "Invalid number of ships: n" *)
  | InvalidShipsOfSize (size : Z)       (* validateBoard: "Invalid number of ships of size" *)
  | GridMismatch                        (* validateBoard: grid does not match ships *)
  | ShotOutOfBounds (x y : Z)           (* checkShotResult *)
  | ClaimMismatch (claimed actual : bool) (* generateShotProof *)
  | NotAllSunk                          (* generateGameEndProof *)
  | InvalidPlacement                    (* addShipToBoard *)
  | Bytes32TooLong                      (* ethers formatBytes32String *)
  | TypeError                           (* property read of undefined *)
  | ExternalFailure (what : string).    (* prover, ledger or relay call rejected *)

Inductive result (A : Type) : Type :=
  | Ok (a : A)
  | Throw (e : error).
Arguments Ok {A} a.
Arguments Throw {A} e.

Definition bind {A B} (r : result A) (k : A → result B) : result B :=
  match r with
  | Ok a => k a
  | Throw e => Throw e
  end.

Notation "x ←! r ; k" := (bind r (λ x, k))
  (at level 20, r at level 100, k at level 200, only parsing, right associativity).

(** A [for ... of] loop whose body may throw. *)
Fixpoint foldM {A B} (f : B → A → result B) (l : list A) (b : B) : result B :=
  match l with
  | [] => Ok b
  | a :: l => b' ←! f b a; foldM f l b'
  end.

(** ** Arrays *)

(** [a[i]] for an integer [i]: [undefined] below zero and past the end. *)
Definition js_index {A} (a : list A) (i : Z) : option A :=
  if i <? 0 then None else a !! Z.to_nat i.

(** A [number[][]]. *)
Abbreviation Grid := (list (list Z)) (only parsing).

(** [grid[y][x]]: throws when the row is missing, is [undefined] when only
    the cell is. *)
Definition grid_get (g : Grid) (x y : Z) : result (option Z) :=
  match js_index g y with
  | None => Throw TypeError
  | Some row => Ok (js_index row x)
  end.

(** [grid[y][x] = v].  Every write of the sources is to a cell that the
    10x10 grid has; the model leaves the grid as it is elsewhere. *)
Definition grid_set (g : Grid) (x y : Z) (v : Z) : Grid :=
  match js_index g y with
  | Some row => if x <? 0 then g else <[Z.to_nat y := <[Z.to_nat x := v]> row]> g
  | None => g
  end.

(** [grid.flat().filter(cell => cell === 1).length] *)
Definition occupiedCount (g : Grid) : nat :=
  length (filter (λ cell, cell = 1) (concat g)).

(** ** boardProver.ts *)

Definition SHIP_SIZES : list Z := [5; 4; 3; 3; 2].
Definition BOARD_SIZE : Z := 10.

Record Ship : Type := mkShip {
  ship_size : Z;
  ship_x : Z;
  ship_y : Z;
  ship_horizontal : bool
}.

Record Board : Type := mkBoard {
  ships : list Ship;
  grid : Grid       (* 0 = empty, 1 = ship *)
}.

(** [Array(BOARD_SIZE).fill(0).map(() => Array(BOARD_SIZE).fill(0))] *)
Definition emptyGrid : Grid :=
  replicate (Z.to_nat BOARD_SIZE) (replicate (Z.to_nat BOARD_SIZE) 0).

(** The [i]-th cell of a ship, as every loop over a ship computes it. *)
Definition shipCell (s : Ship) (i : Z) : Z * Z :=
  if ship_horizontal s then (ship_x s + i, ship_y s) else (ship_x s, ship_y s + i).

(** [for (let i = 0; i < ship.size; i++)] visits these cells. *)
Definition footprint (s : Ship) : list (Z * Z) :=
  shipCell s <$> seqZ 0 (ship_size s).

(** Body of the inner loop of [createBoard]. *)
Definition placeCell (g : Grid) (c : Z * Z) : result Grid :=
  let '(x, y) := c in
  if (BOARD_SIZE <=? x) || (BOARD_SIZE <=? y) then Throw (PlacementOutOfBounds x y)
  else
    v ←! grid_get g x y;
    if decide (v = Some 0) then Ok (grid_set g x y 1) else Throw (ShipOverlap x y).

Definition placeShip (g : Grid) (s : Ship) : result Grid :=
  foldM placeCell (footprint s) g.

Definition createBoard (ss : list Ship) : result Board :=
  g ←! foldM placeShip ss emptyGrid;
  Ok (mkBoard ss g).

(** A [Map<number, number>]: keys in insertion order. *)
Abbreviation NumMap := (list (Z * nat)) (only parsing).

Fixpoint map_get (m : NumMap) (k : Z) : option nat :=
  match m with
  | [] => None
  | (k', v) :: m => if decide (k' = k) then Some v else map_get m k
  end.

Fixpoint map_set (m : NumMap) (k : Z) (v : nat) : NumMap :=
  match m with
  | [] => [(k, v)]
  | (k', v') :: m => if decide (k' = k) then (k, v) :: m else (k', v') :: map_set m k v
  end.

(** [for (const s of sizes) m.set(s, (m.get(s) || 0) + 1)] *)
Definition countSizes (sizes : list Z) : NumMap :=
  foldl (λ m s, map_set m s (default 0%nat (map_get m s) + 1)%nat) [] sizes.

Definition validateBoard (b : Board) : result bool :=
  if decide (length (ships b) ≠ length SHIP_SIZES)
  then Throw (InvalidShipNumber (length (ships b)))
  else
    let shipSizeCount := countSizes (ship_size <$> ships b) in
    let expectedCounts := countSizes SHIP_SIZES in
    _ ←! foldM (λ (_ : unit) '(size, count),
                 if decide (default 0%nat (map_get shipSizeCount size) ≠ count)
                 then Throw (InvalidShipsOfSize size) else Ok ())
              expectedCounts ();
    reconstructedBoard ←! createBoard (ships b);
    let originalCount := occupiedCount (grid b) in
    let reconstructedCount := occupiedCount (grid reconstructedBoard) in
    if decide (originalCount ≠ reconstructedCount) then Throw GridMismatch
    else Ok true.

(** *** Commitment *)

(** [grid.flat().join('')]: every cell in decimal (as JavaScript prints
    an integer), rows one after the other, nothing in between. *)
Definition joinDigits (cells : list Z) : string :=
  foldr (λ cell s, pretty cell +:+ s) "" cells.

Definition serializeBoard (b : Board) : string :=
  joinDigits (concat (grid b)).

(** [ethers.utils.formatBytes32String] (ethers v5): the UTF-8 bytes of the
    text, which must leave room for a terminating zero, padded with zero
    bytes to 32. *)
Definition zeroBytes (n : nat) : string :=
  foldr String "" (replicate n "000"%char).

Definition formatBytes32String (text : string) : result string :=
  if decide (31 < String.length text)%nat then Throw Bytes32TooLong
  else Ok (text +:+ zeroBytes (32 - String.length text)).

(** [ethers.utils.solidityPack(['string', 'bytes32'], [s, b])]: the bytes
    of [s] followed by the 32 bytes of [b], no length prefix. *)
Definition solidityPack (s b32 : string) : string := s +:+ b32.

(** Circuit inputs, as the objects handed to [generateProof]. *)
Record ShotInput : Type := mkShotInput {
  si_board_cells : list Z;
  si_shot_x : Z;
  si_shot_y : Z;
  si_is_hit : Z;
  si_salt : string;
  si_board_commitment : string
}.

Record GameEndInput : Type := mkGameEndInput {
  ge_board_cells : list Z;
  ge_shot_history : list (option Z);
  ge_salt : string;
  ge_board_commitment : string;
  ge_shot_history_hash : string
}.

Inductive CircuitInput : Type :=
  | ShotResultInput (i : ShotInput)
  | GameEndInputOf (i : GameEndInput).

Inductive CircuitPath : Type := BOARD_PLACEMENT | SHOT_RESULT | GAME_END.

(** What the client calls and does not implement: the hash, the prover
    behind [generateProof], and the two ledger calls of the shot handler. *)
Class Externals : Type := {
  keccak256 : string → string;
  generateProof : CircuitPath → CircuitInput → result string;
  contractSubmitShotResult : string → Z → Z → bool → string → result unit;
  contractVerifyGameEnd : string → string → result unit
}.

Section WithExternals.
Context `{ext : !Externals}.

Definition generateBoardCommitment (b : Board) (salt : string) : result string :=
  let boardString := serializeBoard b in
  salt32 ←! formatBytes32String salt;
  Ok (keccak256 (solidityPack boardString salt32)).

(** ** shotProver.ts *)

Definition checkShotResult (b : Board) (x y : Z) : result bool :=
  if (x <? 0) || (10 <=? x) || (y <? 0) || (10 <=? y)
  then Throw (ShotOutOfBounds x y)
  else
    v ←! grid_get (grid b) x y;
    Ok (bool_decide (v = Some 1)).

(** The "Noir-compatible format" loop, written out three times in the
    sources: a hundred zeros, then [cells[y * 10 + x] = 1] for every grid
    cell that is 1, rows outside, columns inside. *)
Definition boardCellsOf (g : Grid) : result (list Z) :=
  foldM (λ cells y,
          foldM (λ cells x,
                  v ←! grid_get g x y;
                  Ok (if decide (v = Some 1)
                      then <[Z.to_nat (y * 10 + x) := 1]> cells else cells))
                (seqZ 0 10) cells)
        (seqZ 0 10) (replicate 100 0).

Definition generateShotProof (b : Board) (x y : Z) (isHit : bool) (salt : string)
  : result string :=
  actualResult ←! checkShotResult b x y;
  if decide (actualResult ≠ isHit) then Throw (ClaimMismatch isHit actualResult)
  else
    boardCells ←! boardCellsOf (grid b);
    boardCommitment ←! generateBoardCommitment b salt;
    let input := {|
      si_board_cells := boardCells;
      si_shot_x := x;
      si_shot_y := y;
      si_is_hit := if isHit then 1 else 0;
      si_salt := salt;
      si_board_commitment := boardCommitment
    |} in
    generateProof SHOT_RESULT (ShotResultInput input).

Record ShotMap : Type := mkShotMap {
  hits : list (Z * Z);
  misses : list (Z * Z)
}.

Definition createEmptyShotMap : ShotMap := mkShotMap [] [].

Definition addShot (shotMap : ShotMap) (x y : Z) (isHit : bool) : ShotMap :=
  if isHit
  then mkShotMap (hits shotMap ++ [(x, y)]) (misses shotMap)
  else mkShotMap (hits shotMap) (misses shotMap ++ [(x, y)]).

Definition checkAllShipsSunk (b : Board) (shotMap : ShotMap) : bool :=
  let totalShipCells := occupiedCount (grid b) in
  let totalHits := length (hits shotMap) in
  bool_decide (totalHits = totalShipCells).

(** [a[i] = v] on an array that may have holes.  The array indices are the
    integers from 0 to 2^32 - 2: any other integer names a property and
    leaves the elements and the length alone; an index past the end grows
    the array and leaves holes in between. *)
Definition js_array_set (a : list (option Z)) (i : Z) (v : Z) : list (option Z) :=
  if (i <? 0) || (4294967295 <=? i) then a
  else if decide (Z.to_nat i < length a)%nat then <[Z.to_nat i := Some v]> a
  else a ++ replicate (Z.to_nat i - length a) None ++ [Some v].

(** The shot-history loop of [generateGameEndProof]. *)
Definition shotHistoryOf (shotMap : ShotMap) : list (option Z) :=
  foldl (λ shotHistory hit, js_array_set shotHistory (hit.2 * 10 + hit.1) 1)
        (replicate 100 (Some 0)) (hits shotMap).

(** [shotHistory.join('')]: a hole prints as nothing. *)
Definition joinArray (a : list (option Z)) : string :=
  foldr (λ e s, from_option pretty "" e +:+ s) "" a.

Definition generateGameEndProof (b : Board) (shotMap : ShotMap) (salt : string)
  : result string :=
  let allSunk := checkAllShipsSunk b shotMap in
  if negb allSunk then Throw NotAllSunk
  else
    boardCells ←! boardCellsOf (grid b);
    boardCommitment ←! generateBoardCommitment b salt;
    let shotHistory := shotHistoryOf shotMap in
    let shotHistoryHash := keccak256 (joinArray shotHistory) in
    let input := {|
      ge_board_cells := boardCells;
      ge_shot_history := shotHistory;
      ge_salt := salt;
      ge_board_commitment := boardCommitment;
      ge_shot_history_hash := shotHistoryHash
    |} in
    generateProof GAME_END (GameEndInputOf input).

End WithExternals.

(** *** Salt and random placement *)

(** [generateSalt]: [hexlify(randomBytes(16)).slice(2)], two lower-case hex
    digits for each of the random bytes, which are an argument here. *)
Definition hexDigit (n : N) : ascii :=
  match n with
  | 0%N => "0" | 1%N => "1" | 2%N => "2" | 3%N => "3" | 4%N => "4" | 5%N => "5"
  | 6%N => "6" | 7%N => "7" | 8%N => "8" | 9%N => "9" | 10%N => "a" | 11%N => "b"
  | 12%N => "c" | 13%N => "d" | 14%N => "e" | _ => "f"
  end%char.

Definition hexByte (b : ascii) (rest : string) : string :=
  let n := N_of_ascii b in
  String (hexDigit (n / 16)) (String (hexDigit (n mod 16)) rest).

Definition generateSalt (randomBytes16 : list ascii) : string :=
  foldr hexByte "" randomBytes16.

(** One attempt of the placement loop of [generateRandomBoard]: the cells
    it inspects, the ship's own and the ring around it, in loop order. *)
Definition attemptCells (size x y : Z) (horizontal : bool) : list (Z * Z) :=
  i ← seqZ (-1) (size + 2);
  j ← seqZ (-1) 3;
  [if horizontal then (x + i, y + j) else (x + j, y + i)].

(** The attempt is valid unless an inspected in-grid cell is not 0; both
    branches of the source's inner test read the same cell. *)
Fixpoint allFree (tempGrid : Grid) (cs : list (Z * Z)) : result bool :=
  match cs with
  | [] => Ok true
  | (checkX, checkY) :: cs =>
      if (checkX <? 0) || (BOARD_SIZE <=? checkX) || (checkY <? 0) || (BOARD_SIZE <=? checkY)
      then allFree tempGrid cs
      else
        v ←! grid_get tempGrid checkX checkY;
        if decide (v ≠ Some 0) then Ok false else allFree tempGrid cs
  end.

Definition attemptValid (tempGrid : Grid) (size x y : Z) (horizontal : bool)
  : result bool :=
  allFree tempGrid (attemptCells size x y horizontal).

(** ** board-utils.ts *)

Inductive ShipType : Type :=
  CARRIER | BATTLESHIP | CRUISER | SUBMARINE | DESTROYER.

(** The numeric values of the enum. *)
Definition shipTypeValue (t : ShipType) : Z :=
  match t with
  | CARRIER => 5
  | BATTLESHIP => 4
  | CRUISER => 3
  | SUBMARINE => 2
  | DESTROYER => 1
  end.

(** The cells [isValidPlacement] inspects: around every ship cell, [dx]
    outside and [dy] inside. *)
Definition neighbourhood (s : Ship) : list (Z * Z) :=
  i ← seqZ 0 (ship_size s);
  dx ← seqZ (-1) 3;
  dy ← seqZ (-1) 3;
  [((shipCell s i).1 + dx, (shipCell s i).2 + dy)].

(** [true] as soon as an inspected in-grid cell holds a ship. *)
Fixpoint anyShip (g : Grid) (cs : list (Z * Z)) : result bool :=
  match cs with
  | [] => Ok false
  | (checkX, checkY) :: cs =>
      if (checkX <? 0) || (BOARD_SIZE <=? checkX) || (checkY <? 0) || (BOARD_SIZE <=? checkY)
      then anyShip g cs
      else
        v ←! grid_get g checkX checkY;
        if decide (v = Some 1) then Ok true else anyShip g cs
  end.

Definition isValidPlacement (b : Board) (s : Ship) : result bool :=
  if (if ship_horizontal s
      then (ship_x s <? 0) || (BOARD_SIZE <? ship_x s + ship_size s)
           || (ship_y s <? 0) || (BOARD_SIZE <=? ship_y s)
      else (ship_x s <? 0) || (BOARD_SIZE <=? ship_x s)
           || (ship_y s <? 0) || (BOARD_SIZE <? ship_y s + ship_size s))
  then Ok false
  else
    found ←! anyShip (grid b) (neighbourhood s);
    Ok (negb found).

Definition addShipToBoard (b : Board) (s : Ship) : result Board :=
  valid ←! isValidPlacement b s;
  if negb valid then Throw InvalidPlacement
  else
    let newGrid := foldl (λ g c, grid_set g c.1 c.2 1) (grid b) (footprint s) in
    Ok (mkBoard (ships b ++ [s]) newGrid).

Definition createEmptyBoard : Board := mkBoard [] emptyGrid.

(** ** ShipPlacement.tsx *)

Record PlacementState : Type := mkPlacement {
  pl_board : Board;
  placingShip : option Ship;
  shipsToPlace : list ShipType;
  hoverPosition : option (Z * Z);
  isHorizontal : bool
}.

(** The first value of the [shipsToPlace] state: the fleet handed out. *)
Definition initialShipsToPlace : list ShipType :=
  [CARRIER; BATTLESHIP; CRUISER; SUBMARINE; DESTROYER].

Definition initialPlacement : PlacementState :=
  mkPlacement createEmptyBoard None initialShipsToPlace None true.

(** The effect that starts placing the next ship once none is in hand. *)
Definition startNextShip (st : PlacementState) : PlacementState :=
  match shipsToPlace st, placingShip st with
  | t :: _, None =>
      mkPlacement (pl_board st)
        (Some (mkShip (shipTypeValue t) 0 0 (isHorizontal st)))
        (shipsToPlace st) (hoverPosition st) (isHorizontal st)
  | _, _ => st
  end.

(** Space bar. *)
Definition handleRotate (st : PlacementState) : PlacementState :=
  match placingShip st with
  | Some s =>
      mkPlacement (pl_board st)
        (Some (mkShip (ship_size s) (ship_x s) (ship_y s) (negb (isHorizontal st))))
        (shipsToPlace st) (hoverPosition st) (negb (isHorizontal st))
  | None => st
  end.

(** [coords] is what [getBoardCoordinates] returned for the pointer. *)
Definition handleMouseMove (st : PlacementState) (coords : option (Z * Z))
  : PlacementState :=
  match placingShip st with
  | None => st
  | Some s =>
      match coords with
      | Some (cx, cy) =>
          mkPlacement (pl_board st)
            (Some (mkShip (ship_size s) cx cy (isHorizontal st)))
            (shipsToPlace st) (Some (cx, cy)) (isHorizontal st)
      | None =>
          mkPlacement (pl_board st) (placingShip st) (shipsToPlace st) None
            (isHorizontal st)
      end
  end.

Definition handleBoardClick (st : PlacementState) : PlacementState :=
  match placingShip st, hoverPosition st with
  | Some s, Some _ =>
      match isValidPlacement (pl_board st) s with
      | Ok true =>
          match addShipToBoard (pl_board st) s with
          | Ok newBoard =>
              mkPlacement newBoard None (tail (shipsToPlace st))
                (hoverPosition st) (isHorizontal st)
          | Throw _ => st
          end
      | _ => st
      end
  | _, _ => st
  end.

Definition handleReset (st : PlacementState) : PlacementState :=
  mkPlacement createEmptyBoard None initialShipsToPlace (hoverPosition st) (isHorizontal st).

(** The board handed to [onComplete], if the button does anything. *)
Definition handleComplete (st : PlacementState) : option Board :=
  match shipsToPlace st with
  | [] => Some (pl_board st)
  | _ => None
  end.

Inductive PlacementAction : Type :=
  | MouseMove (coords : option (Z * Z))
  | Click
  | Rotate
  | Reset.

(** A user action, then the effect. *)
Definition placementStep (st : PlacementState) (a : PlacementAction) : PlacementState :=
  startNextShip
    match a with
    | MouseMove coords => handleMouseMove st coords
    | Click => handleBoardClick st
    | Rotate => handleRotate st
    | Reset => handleReset st
    end.

Definition placementRun (actions : list PlacementAction) : PlacementState :=
  foldl placementStep (startNextShip initialPlacement) actions.

(** ** The game page *)

Inductive GamePhase : Type :=
  | CONNECTING
  | WAITING_FOR_OPPONENT
  | PLACING_SHIPS
  | WAITING_FOR_OPPONENT_BOARD
  | PLAYING
  | GAME_OVER.

(** The numeric value of the enum member, which is also its place in the
    order of play. *)
Definition phaseIndex (p : GamePhase) : nat :=
  match p with
  | CONNECTING => 0
  | WAITING_FOR_OPPONENT => 1
  | PLACING_SHIPS => 2
  | WAITING_FOR_OPPONENT_BOARD => 3
  | PLAYING => 4
  | GAME_OVER => 5
  end.

(** The events of [useGameSession]; the fields the page reads. *)
Inductive GameEvent : Type :=
  | player_joined
  | contract_registered
  | board_submitted (player : string) (allBoardsSubmitted : bool)
  | game_started
  | shot_fired (player : string) (x y : Z)
  | shot_result (player : string) (x y : Z) (isHit : bool)
  | game_over (winner : string)
  | session_state
  | chat
  | pong
  | error_event.

(** A session snapshot, as the page reads it. *)
Record SessionSnapshot : Type := mkSnapshot {
  ss_status : string;
  ss_players : list string;
  ss_currentTurn : option string;
  ss_gameContractAddress : option string;
  ss_winner : option string
}.

(** [toLowerCase] on the letters A to Z; other bytes are kept. *)
Definition lowerChar (c : ascii) : ascii :=
  let n := nat_of_ascii c in
  if (65 <=? n)%nat && (n <=? 90)%nat then ascii_of_nat (n + 32) else c.

Fixpoint toLowerCase (s : string) : string :=
  match s with
  | EmptyString => EmptyString
  | String c s => String (lowerChar c) (toLowerCase s)
  end.

(** [player.toLowerCase() === account?.toLowerCase()] *)
Definition sameAddress (player : string) (account : option string) : bool :=
  match account with
  | Some a => bool_decide (toLowerCase player = toLowerCase a)
  | None => false
  end.

(** The state of the page that the handlers read or write (the status
    line and the progress flag of the board submission are left out). *)
Record GameState : Type := mkGameState {
  account : option string;
  gameAddress : option string;
  gamePhase : GamePhase;
  isPlayerTurn : bool;
  winner : option string;
  playerBoard : option Board;
  playerBoardCommitment : option string;
  playerBoardSalt : option string;
  shotsAtPlayer : ShotMap;
  shotsAtOpponent : ShotMap;
  isMakingShot : bool;
  isProcessingShot : bool
}.

Definition initialGameState (acct : option string) : GameState :=
  mkGameState acct None CONNECTING false None None None None
    createEmptyShotMap createEmptyShotMap false false.

Definition setGamePhase (p : GamePhase) (st : GameState) : GameState :=
  mkGameState (account st) (gameAddress st) p (isPlayerTurn st) (winner st)
    (playerBoard st) (playerBoardCommitment st) (playerBoardSalt st)
    (shotsAtPlayer st) (shotsAtOpponent st) (isMakingShot st) (isProcessingShot st).

Definition setGameAddress (a : option string) (st : GameState) : GameState :=
  mkGameState (account st) a (gamePhase st) (isPlayerTurn st) (winner st)
    (playerBoard st) (playerBoardCommitment st) (playerBoardSalt st)
    (shotsAtPlayer st) (shotsAtOpponent st) (isMakingShot st) (isProcessingShot st).

Definition setIsPlayerTurn (t : bool) (st : GameState) : GameState :=
  mkGameState (account st) (gameAddress st) (gamePhase st) t (winner st)
    (playerBoard st) (playerBoardCommitment st) (playerBoardSalt st)
    (shotsAtPlayer st) (shotsAtOpponent st) (isMakingShot st) (isProcessingShot st).

Definition setWinner (w : string) (st : GameState) : GameState :=
  mkGameState (account st) (gameAddress st) (gamePhase st) (isPlayerTurn st) (Some w)
    (playerBoard st) (playerBoardCommitment st) (playerBoardSalt st)
    (shotsAtPlayer st) (shotsAtOpponent st) (isMakingShot st) (isProcessingShot st).

Definition setShotsAtPlayer (m : ShotMap) (st : GameState) : GameState :=
  mkGameState (account st) (gameAddress st) (gamePhase st) (isPlayerTurn st) (winner st)
    (playerBoard st) (playerBoardCommitment st) (playerBoardSalt st)
    m (shotsAtOpponent st) (isMakingShot st) (isProcessingShot st).

Definition setShotsAtOpponent (m : ShotMap) (st : GameState) : GameState :=
  mkGameState (account st) (gameAddress st) (gamePhase st) (isPlayerTurn st) (winner st)
    (playerBoard st) (playerBoardCommitment st) (playerBoardSalt st)
    (shotsAtPlayer st) m (isMakingShot st) (isProcessingShot st).

Definition setIsMakingShot (f : bool) (st : GameState) : GameState :=
  mkGameState (account st) (gameAddress st) (gamePhase st) (isPlayerTurn st) (winner st)
    (playerBoard st) (playerBoardCommitment st) (playerBoardSalt st)
    (shotsAtPlayer st) (shotsAtOpponent st) f (isProcessingShot st).

Definition setIsProcessingShot (f : bool) (st : GameState) : GameState :=
  mkGameState (account st) (gameAddress st) (gamePhase st) (isPlayerTurn st) (winner st)
    (playerBoard st) (playerBoardCommitment st) (playerBoardSalt st)
    (shotsAtPlayer st) (shotsAtOpponent st) (isMakingShot st) f.

Section GamePage.
Context `{ext : !Externals}.

(** [handleOpponentShot], run to completion.  An early return skips the
    [finally]; a throw keeps the state written before it. *)
Definition handleOpponentShot (st : GameState) (x y : Z) : GameState :=
  match account st, gameAddress st, playerBoard st, playerBoardSalt st with
  | Some _, Some addr, Some board, Some salt =>
      match (isHit ←! checkShotResult board x y;
             proof ←! generateShotProof board x y isHit salt;
             _ ←! contractSubmitShotResult addr x y isHit proof;
             Ok isHit) with
      | Throw _ => setIsProcessingShot false st
      | Ok isHit =>
          let newShotMap := addShot (shotsAtPlayer st) x y isHit in
          let st1 := setShotsAtPlayer newShotMap (setIsPlayerTurn true st) in
          if isHit && bool_decide (is_Some (playerBoardCommitment st))
             && checkAllShipsSunk board newShotMap
          then
            match (endProof ←! generateGameEndProof board newShotMap salt;
                   contractVerifyGameEnd addr endProof) with
            | Ok _ => setIsProcessingShot false (setGamePhase GAME_OVER st1)
            | Throw _ => setIsProcessingShot false st1
            end
          else setIsProcessingShot false st1
      end
  | _, _, _, _ => st
  end.

(** The game-events effect, applied to the latest event. *)
Definition processEvent (st : GameState) (latestEvent : GameEvent) : GameState :=
  match latestEvent with
  | board_submitted player allBoardsSubmitted =>
      if sameAddress player (account st)
      then setGamePhase WAITING_FOR_OPPONENT_BOARD st
      else if allBoardsSubmitted then setGamePhase PLAYING st
      else st
  | shot_fired player x y =>
      if negb (sameAddress player (account st))
      then handleOpponentShot (setIsProcessingShot true st) x y
      else st
  | shot_result player x y isHit =>
      if sameAddress player (account st)
      then setIsMakingShot false
             (setShotsAtOpponent (addShot (shotsAtOpponent st) x y isHit) st)
      else setIsProcessingShot false
             (setShotsAtPlayer (addShot (shotsAtPlayer st) x y isHit) st)
  | game_over w => setWinner w (setGamePhase GAME_OVER st)
  | _ => st
  end.

(** The session-state effect.  A string or an optional string is truthy
    when it is there and not empty. *)
Definition truthy (s : option string) : bool :=
  match s with
  | Some s => negb (bool_decide (s = ""))
  | None => false
  end.

Definition processSessionState (st : GameState) (s : SessionSnapshot) : GameState :=
  let st := if truthy (ss_gameContractAddress s)
            then setGameAddress (ss_gameContractAddress s) st else st in
  if bool_decide (ss_status s = "WAITING") then setGamePhase WAITING_FOR_OPPONENT st
  else if bool_decide (ss_status s = "SETUP") then
    match playerBoard st with
    | Some _ => setGamePhase WAITING_FOR_OPPONENT_BOARD st
    | None => setGamePhase PLACING_SHIPS st
    end
  else if bool_decide (ss_status s = "ACTIVE") then
    let st := setGamePhase PLAYING st in
    if truthy (ss_currentTurn s) && truthy (account st)
    then setIsPlayerTurn
           (bool_decide (toLowerCase <$> ss_currentTurn s = toLowerCase <$> account st)) st
    else st
  else if bool_decide (ss_status s = "COMPLETED") then
    let st := setGamePhase GAME_OVER st in
    match ss_winner s with
    | Some w => if truthy (Some w) && truthy (account st) then setWinner w st else st
    | None => st
    end
  else st.

(** The states the page reaches from its first render by snapshots and
    events. *)
Inductive reachable : GameState → Prop :=
  | reachable_initial acct : reachable (initialGameState acct)
  | reachable_snapshot st s : reachable st → reachable (processSessionState st s)
  | reachable_event st ev : reachable st → reachable (processEvent st ev).

End GamePage.

(** ** Vocabulary of the statements *)

(** A cell of the 10x10 grid. *)
Definition inGrid (c : Z * Z) : Prop :=
  (0 ≤ c.1 < BOARD_SIZE) ∧ (0 ≤ c.2 < BOARD_SIZE).

(** Ten rows of ten cells. *)
Definition wfGrid (g : Grid) : Prop :=
  length g = 10%nat ∧ Forall (λ row, length row = 10%nat) g.

(** The cell at column [c.1] of row [c.2], if the grid has it. *)
Definition cellAt (g : Grid) (c : Z * Z) : option Z :=
  js_index g c.2 ≫= λ row, js_index row c.1.

(** Direct inspection of a ship: the test [ShipPlacement.tsx] uses to find
    the ship drawn at a cell. *)
Definition covers (x y : Z) (s : Ship) : bool :=
  (ship_horizontal s && (y =? ship_y s) && (ship_x s <=? x)
     && (x <? ship_x s + ship_size s))
  || (negb (ship_horizontal s) && (x =? ship_x s) && (ship_y s <=? y)
     && (y <? ship_y s + ship_size s)).

(** Every cell of the ship is a cell of the grid. *)
Definition shipInBounds (s : Ship) : Prop := Forall inGrid (footprint s).

#[global] Instance inGrid_dec c : Decision (inGrid c).
Proof. unfold inGrid. apply _. Defined.

#[global] Instance shipInBounds_dec s : Decision (shipInBounds s).
Proof. unfold shipInBounds. apply _. Defined.

(** No cell belongs to two ships of the list. *)
Definition noSharedCell (ss : list Ship) : Prop :=
  ∀ i j s1 s2 c,
    ss !! i = Some s1 → ss !! j = Some s2 →
    c ∈ footprint s1 → c ∈ footprint s2 → i = j.

(** The standard composition, in any order. *)
Definition standardSizes (ss : list Ship) : Prop :=
  ship_size <$> ss ≡ₚ SHIP_SIZES.

(** How often a size occurs in a list of sizes. *)
Definition occurrences (k : Z) (l : list Z) : nat :=
  length (filter (λ s : Z, s = k) l).

(** The sum of the ship sizes. *)
Definition totalSize (ss : list Ship) : Z :=
  foldr Z.add 0 (ship_size <$> ss).

Definition validFleet (ss : list Ship) : Prop :=
  standardSizes ss ∧ Forall shipInBounds ss ∧ noSharedCell ss.

(** Cells that are equal or neighbours, diagonals included. *)
Definition adjacent (c1 c2 : Z * Z) : Prop :=
  Z.abs (c1.1 - c2.1) ≤ 1 ∧ Z.abs (c1.2 - c2.2) ≤ 1.

Definition touching (s1 s2 : Ship) : Prop :=
  ∃ c1 c2, c1 ∈ footprint s1 ∧ c2 ∈ footprint s2 ∧ adjacent c1 c2.

(** The furthest-phase order. *)
Definition phaseLe (p q : GamePhase) : Prop := (phaseIndex p ≤ phaseIndex q)%nat.

(** A shot map in which no coordinate is recorded twice, in one list or
    across the two. *)
Definition shotsDistinct (m : ShotMap) : Prop := NoDup (hits m ++ misses m).

(** Recording a list of shots, oldest first. *)
Definition addShots (m : ShotMap) (shots : list (Z * Z * bool)) : ShotMap :=
  foldl (λ m s, addShot m s.1.1 s.1.2 s.2) m shots.

(** The cell of the grid that index [n] of a flattened sequence stands
    for: row-major from the origin. *)
Definition cellOfIndex (n : nat) : Z * Z :=
  (Z.of_nat n mod 10, Z.of_nat n / 10).

(** The flag a grid cell becomes in a circuit input. *)
Definition cellBit (cell : Z) : Z := if decide (cell = 1) then 1 else 0.



(** When an event leaves the phase where it is or moves it on: always,
    but for [board_submitted], which sets the phase without looking. *)
Definition eventInOrder (st : GameState) (ev : GameEvent) : Prop :=
  match ev with
  | board_submitted player allBoardsSubmitted =>
      if sameAddress player (account st)
      then phaseLe (gamePhase st) WAITING_FOR_OPPONENT_BOARD
      else if allBoardsSubmitted then phaseLe (gamePhase st) PLAYING
      else True
  | _ => True
  end.

(** What holds of the placement component after any actions. *)
Definition placementInv (st : PlacementState) : Prop :=
  (ship_size <$> ships (pl_board st)) ++ (shipTypeValue <$> shipsToPlace st)
    = shipTypeValue <$> initialShipsToPlace
  ∧ wfGrid (grid (pl_board st))
  ∧ occupiedCount (grid (pl_board st))
    = sum_list_with Z.to_nat (ship_size <$> ships (pl_board st))
  ∧ ∀ s, placingShip st = Some s →
      ∃ t rest, shipsToPlace st = t :: rest ∧ ship_size s = shipTypeValue t.

(** ** Fleets and collaborators used in the examples *)

(** Five ships on every other row. *)
Definition spacedFleet : list Ship :=
  [mkShip 5 0 0 true; mkShip 4 0 2 true; mkShip 3 0 4 true;
   mkShip 3 0 6 true; mkShip 2 0 8 true].

(** Five ships on the first five rows, each against the next. *)
Definition stackedFleet : list Ship :=
  [mkShip 5 0 0 true; mkShip 4 0 1 true; mkShip 3 0 2 true;
   mkShip 3 0 3 true; mkShip 2 0 4 true].

(** The sizes the placement component hands out, on every other row. *)
Definition offeredSizesFleet : list Ship :=
  [mkShip 5 0 0 true; mkShip 4 0 2 true; mkShip 3 0 4 true;
   mkShip 2 0 6 true; mkShip 1 0 8 true].

(** Collaborators that always answer: the hash rendered as the tagged
    preimage, a prover and a ledger that accept everything. *)
Definition echoExternals : Externals := {|
  keccak256 := λ bytes, "0x" +:+ bytes;
  generateProof := λ _ _, Ok "0xproof";
  contractSubmitShotResult := λ _ _ _ _ _, Ok ();
  contractVerifyGameEnd := λ _ _, Ok ()
|}.

(** The board [createBoard] makes of [spacedFleet]. *)
Definition spacedBoard : Board :=
  mkBoard spacedFleet
    [[1; 1; 1; 1; 1; 0; 0; 0; 0; 0]; [0; 0; 0; 0; 0; 0; 0; 0; 0; 0];
     [1; 1; 1; 1; 0; 0; 0; 0; 0; 0]; [0; 0; 0; 0; 0; 0; 0; 0; 0; 0];
     [1; 1; 1; 0; 0; 0; 0; 0; 0; 0]; [0; 0; 0; 0; 0; 0; 0; 0; 0; 0];
     [1; 1; 1; 0; 0; 0; 0; 0; 0; 0]; [0; 0; 0; 0; 0; 0; 0; 0; 0; 0];
     [1; 1; 0; 0; 0; 0; 0; 0; 0; 0]; [0; 0; 0; 0; 0; 0; 0; 0; 0; 0]].

(** Every ship cell of [spacedBoard] hit once. *)
Definition allShipCellsHit : ShotMap :=
  mkShotMap (spacedFleet ≫= footprint) [].

(** All ship cells of [spacedBoard] hit, and one shot into the far corner
    that missed. *)
Definition sunkWithOneMiss : ShotMap :=
  mkShotMap (spacedFleet ≫= footprint) [(9, 9)].

(** A salt as [generateSalt] makes them, here from sixteen zero bytes. *)
Definition generatedSalt : string := generateSalt (replicate 16 "000"%char).

(** A placement by hand: point at a cell, click, for each ship handed out. *)
Definition manualPlacement : list PlacementAction :=
  [MouseMove (Some (0, 0)); Click; MouseMove (Some (0, 2)); Click;
   MouseMove (Some (0, 4)); Click; MouseMove (Some (0, 6)); Click;
   MouseMove (Some (0, 8)); Click].

(** The board [createBoard] makes of [offeredSizesFleet], and the board
    [manualPlacement] ends with. *)
Definition offeredSizesBoard : Board :=
  Eval vm_compute in
    match createBoard offeredSizesFleet with
    | Ok b => b
    | Throw _ => createEmptyBoard
    end.

Definition placedByHand : Board :=
  Eval vm_compute in
    match handleComplete (placementRun manualPlacement) with
    | Some b => b
    | None => createEmptyBoard
    end.

(** The board [createBoard] makes of [stackedFleet]. *)
Definition stackedBoard : Board :=
  Eval vm_compute in
    match createBoard stackedFleet with
    | Ok b => b
    | Throw _ => createEmptyBoard
    end.

(** ** Further vocabulary *)

(** The bounds test of [isValidPlacement]. *)
Definition placementBounds (s : Ship) : Prop :=
  if ship_horizontal s
  then 0 ≤ ship_x s ∧ ship_x s + ship_size s ≤ BOARD_SIZE
       ∧ 0 ≤ ship_y s < BOARD_SIZE
  else 0 ≤ ship_x s < BOARD_SIZE
       ∧ 0 ≤ ship_y s ∧ ship_y s + ship_size s ≤ BOARD_SIZE.

(** No ship cell of the grid on or next to a cell of the ship. *)
Definition clearOf (g : Grid) (s : Ship) : Prop :=
  ∀ c c', c ∈ footprint s → adjacent c c' → inGrid c' → cellAt g c' ≠ Some 1.

(** No two ships of the list touch. *)
Definition noTouching (ss : list Ship) : Prop :=
  ∀ i j s1 s2, ss !! i = Some s1 → ss !! j = Some s2 → i ≠ j → ¬ touching s1 s2.

(** A board as the placement rules keep it: a ten by ten grid that is 1 on
    the cells of the ships and 0 elsewhere, ships inside the grid, no two
    of them touching. *)
Definition boardOk (b : Board) : Prop :=
  wfGrid (grid b)
  ∧ (∀ c, inGrid c →
       cellAt (grid b) c
       = Some (if decide (c ∈ ships b ≫= footprint) then 1 else 0))
  ∧ Forall shipInBounds (ships b)
  ∧ noTouching (ships b).

(** ** boardProver.ts: the random board *)

(** The values of [Math.random()] and the two things [generateRandomBoard]
    computes from one: [r > 0.5] and [Math.floor(r * n)].  The arithmetic
    of doubles is not modelled; as the values lie in [0, 1), the floor lies
    in [0, n) for the factors the generator uses, which are at most
    [BOARD_SIZE]. *)
Class MathRandom : Type := {
  Random : Type;
  overHalf : Random → bool;
  floorTimes : Random → Z → Z;
  floorTimes_range r n : 0 < n ≤ BOARD_SIZE → 0 ≤ floorTimes r n < n
}.

Section RandomBoard.
Context `{rnd : !MathRandom}.

(** The three values drawn in one attempt, in the order of the calls. *)
Abbreviation Draw := (Random * Random * Random)%type (only parsing).

(** The ship an attempt proposes. *)
Definition attemptShip (size : Z) (d : Draw) : Ship :=
  let horizontal := overHalf d.1.1 in
  let maxX := if horizontal then BOARD_SIZE - size else BOARD_SIZE - 1 in
  let maxY := if horizontal then BOARD_SIZE - 1 else BOARD_SIZE - size in
  let x := floorTimes d.1.2 (maxX + 1) in
  let y := floorTimes d.2 (maxY + 1) in
  mkShip size x y horizontal.

(** The loops of [generateRandomBoard], one draw an attempt: [sizes] are
    the sizes still to place, [attempts] the attempts made for the first
    of them.  After the hundredth failed attempt the function calls itself,
    that is, starts again with nothing placed.  [None] when the draws run
    out before a board is returned. *)
Fixpoint randomBoardLoop (draws : list Draw) (sizes : list Z) (attempts : nat)
    (ships : list Ship) (tempGrid : Grid) : option (result Board) :=
  match sizes with
  | [] => Some (createBoard ships)
  | size :: rest =>
      match draws with
      | [] => None
      | d :: draws =>
          let s := attemptShip size d in
          match attemptValid tempGrid size (ship_x s) (ship_y s) (ship_horizontal s) with
          | Throw e => Some (Throw e)
          | Ok true =>
              randomBoardLoop draws rest 0 (ships ++ [s])
                (foldl (λ g c, grid_set g c.1 c.2 1) tempGrid (footprint s))
          | Ok false =>
              if decide (S attempts < 100)%nat
              then randomBoardLoop draws sizes (S attempts) ships tempGrid
              else randomBoardLoop draws SHIP_SIZES 0 [] emptyGrid
          end
      end
  end.

Definition generateRandomBoard (draws : list Draw) : option (result Board) :=
  randomBoardLoop draws SHIP_SIZES 0 [] emptyGrid.

End RandomBoard.

(** [Math.random()] as a fraction [a / (a + p)], for the examples. *)
#[refine] Definition fractionRandom : MathRandom := {|
  Random := N * positive;
  overHalf r := Z.pos r.2 <? Z.of_N r.1;
  floorTimes r n := Z.of_N r.1 * n / (Z.of_N r.1 + Z.pos r.2)
|}.
Proof.
  intros [a p] n [Hn _]. simpl. split.
  - apply Z.div_pos; lia.
  - apply Z.div_lt_upper_bound; nia.
Defined.

(** Five attempts that succeed: upright ships in the columns 0, 2, 4, 6
    and 8. *)
Definition columnDraws : list (N * positive * (N * positive) * (N * positive)) :=
  (λ k, ((0%N, 1%positive), (k, Pos.of_nat (10 - N.to_nat k)), (0%N, 1%positive)))
    <$> [0; 2; 4; 6; 8]%N.

Definition columnBoard : Board :=
  Eval vm_compute in
    match generateRandomBoard (rnd := fractionRandom) columnDraws with
    | Some (Ok b) => b
    | _ => createEmptyBoard
    end.

(** A hundred attempts at the origin. *)
Definition originDraws : list (N * positive * (N * positive) * (N * positive)) :=
  replicate 100 ((0%N, 1%positive), (0%N, 1%positive), (0%N, 1%positive)).

(** ** ShipPlacement.tsx: the other handlers *)

Definition handleMouseLeave (st : PlacementState) : PlacementState :=
  mkPlacement (pl_board st) (placingShip st) (shipsToPlace st) None (isHorizontal st).

(** [randomBoard] is what [generateRandomBoard] returned. *)
Definition handleRandomPlacement (randomBoard : Board) (st : PlacementState)
  : PlacementState :=
  mkPlacement randomBoard None [] (hoverPosition st) (isHorizontal st).

(** The states the component reaches: every handler, followed by the
    effect that starts the next ship. *)
Inductive placementReach `{rnd : !MathRandom} : PlacementState → Prop :=
  | reach_initial : placementReach (startNextShip initialPlacement)
  | reach_action st a :
      placementReach st → placementReach (placementStep st a)
  | reach_leave st :
      placementReach st → placementReach (startNextShip (handleMouseLeave st))
  | reach_random st draws randomBoard :
      placementReach st →
      generateRandomBoard draws = Some (Ok randomBoard) →
      placementReach (startNextShip (handleRandomPlacement randomBoard st)).

(** A board placed by hand so far, or a board of the random generator. *)
Definition reachInv (st : PlacementState) : Prop :=
  boardOk (pl_board st)
  ∧ (placementInv st
     ∨ (shipsToPlace st = [] ∧ placingShip st = None
        ∧ ship_size <$> ships (pl_board st) = SHIP_SIZES)).


(** ** boardProver.ts: the board-placement claim *)

(** A ship as the circuit takes it, the orientation as a 0/1 flag. *)
Record FormattedShip : Type := mkFormattedShip {
  fs_size : Z;
  fs_x : Z;
  fs_y : Z;
  fs_horizontal : Z
}.

Record BoardInput : Type := mkBoardInput {
  bi_board_cells : list Z;
  bi_ships : list FormattedShip;
  bi_salt : string;
  bi_board_commitment : string
}.

(** What the page calls to submit a board and to fire: [generateProof] at
    the board-placement circuit, the ledger and the session backend. *)
Class PageCalls : Type := {
  generateProofOfBoard : BoardInput → result string;
  contractSubmitBoard : string → string → string → result unit;
  sessionSubmitBoard : string → string → result unit;
  contractMakeShot : string → Z → Z → result unit
}.

Definition formatShip (s : Ship) : FormattedShip :=
  mkFormattedShip (ship_size s) (ship_x s) (ship_y s)
    (if ship_horizontal s then 1 else 0).

Section BoardClaim.
Context `{ext : !Externals} `{calls : !PageCalls}.

(** The [while] loop that pushes dummy ships runs [5 - length] times. *)
Definition generateBoardProof (b : Board) (salt : string) : result string :=
  _ ←! validateBoard b;
  boardCells ←! boardCellsOf (grid b);
  let formattedShips := formatShip <$> ships b in
  let formattedShips :=
    formattedShips ++ replicate (5 - length formattedShips) (mkFormattedShip 0 0 0 0) in
  commitment ←! generateBoardCommitment b salt;
  generateProofOfBoard {|
    bi_board_cells := boardCells;
    bi_ships := formattedShips;
    bi_salt := salt;
    bi_board_commitment := commitment
  |}.

(** ** The game page: submitting the board, firing *)

Definition setBoardState (b : Board) (commitment salt : string) (st : GameState)
  : GameState :=
  mkGameState (account st) (gameAddress st) (gamePhase st) (isPlayerTurn st) (winner st)
    (Some b) (Some commitment) (Some salt)
    (shotsAtPlayer st) (shotsAtOpponent st) (isMakingShot st) (isProcessingShot st).

(** [handleBoardComplete], run to completion; [randomBytes16] are the
    bytes [generateSalt] draws.  The board, its commitment and its salt are
    stored before the ledger is called; the phase is set after the ledger
    and the backend have answered. *)
Definition handleBoardComplete (st : GameState) (board : Board)
    (randomBytes16 : list ascii) : GameState :=
  if negb (truthy (account st)) || negb (truthy (gameAddress st)) then st
  else
    let salt := generateSalt randomBytes16 in
    match (commitment ←! generateBoardCommitment board salt;
           proof ←! generateBoardProof board salt;
           Ok (commitment, proof)) with
    | Throw _ => st
    | Ok (commitment, proof) =>
        let st1 := setBoardState board commitment salt st in
        match (_ ←! contractSubmitBoard (default "" (gameAddress st)) commitment proof;
               sessionSubmitBoard (default "" (account st)) commitment) with
        | Throw _ => st1
        | Ok _ => setGamePhase WAITING_FOR_OPPONENT_BOARD st1
        end
    end.

(** [handleMakeShot], run to completion. *)
Definition handleMakeShot (st : GameState) (x y : Z) : GameState :=
  if negb (truthy (account st)) || negb (truthy (gameAddress st))
     || negb (isPlayerTurn st) || isMakingShot st
  then st
  else
    match contractMakeShot (default "" (gameAddress st)) x y with
    | Ok _ => setIsPlayerTurn false (setIsMakingShot true st)
    | Throw _ => setIsMakingShot false (setIsMakingShot true st)
    end.


End BoardClaim.

(** ** The game page: the status line, the progress flag and the calls *)

(** The two handlers once more, with everything they write and every call
    they make to the ledger and the backend, in order.  [game] holds the
    fields of [GameState]; on them the handlers are [handleBoardComplete]
    and [handleMakeShot] above. *)
Module Page.

Record State : Type := mkState {
  game : GameState;
  statusMessage : string;
  isSubmittingBoard : bool
}.

Inductive Call : Type :=
  | SubmitBoard (gameAddress commitment proof : string)
  | SessionSubmitBoard (playerAddress commitment : string)
  | MakeShot (gameAddress : string) (x y : Z).

Section Handlers.
Context `{ext : !Externals} `{calls : !PageCalls}.

(** The guard writes the status line and returns; otherwise the [catch]
    writes it when anything throws, and the [finally] clears the progress
    flag. *)
Definition handleBoardComplete (p : State) (board : Board)
    (randomBytes16 : list ascii) : State * list Call :=
  let st := game p in
  if negb (truthy (account st)) || negb (truthy (gameAddress st))
  then (mkState st "Error: Wallet not connected or game not initialized"
          (isSubmittingBoard p), [])
  else
    let salt := generateSalt randomBytes16 in
    match (commitment ←! generateBoardCommitment board salt;
           proof ←! generateBoardProof board salt;
           Ok (commitment, proof)) with
    | Throw _ => (mkState st "Error submitting board. Please try again." false, [])
    | Ok (commitment, proof) =>
        let st1 := setBoardState board commitment salt st in
        let toLedger := SubmitBoard (default "" (gameAddress st)) commitment proof in
        let toBackend := SessionSubmitBoard (default "" (account st)) commitment in
        match contractSubmitBoard (default "" (gameAddress st)) commitment proof with
        | Throw _ =>
            (mkState st1 "Error submitting board. Please try again." false, [toLedger])
        | Ok _ =>
            match sessionSubmitBoard (default "" (account st)) commitment with
            | Throw _ =>
                (mkState st1 "Error submitting board. Please try again." false,
                 [toLedger; toBackend])
            | Ok _ =>
                (mkState (setGamePhase WAITING_FOR_OPPONENT_BOARD st1)
                   "Board submitted successfully! Waiting for opponent..." false,
                 [toLedger; toBackend])
            end
        end
    end.

(** The guard returns without writing anything.  The status line that
    announces the shot is overwritten when the ledger has answered. *)
Definition handleMakeShot (p : State) (x y : Z) : State * list Call :=
  let st := game p in
  if negb (truthy (account st)) || negb (truthy (gameAddress st))
     || negb (isPlayerTurn st) || isMakingShot st
  then (p, [])
  else
    let toLedger := MakeShot (default "" (gameAddress st)) x y in
    match contractMakeShot (default "" (gameAddress st)) x y with
    | Ok _ =>
        (mkState (setIsPlayerTurn false (setIsMakingShot true st))
           "Shot fired! Waiting for opponent's response..." (isSubmittingBoard p),
         [toLedger])
    | Throw _ =>
        (mkState (setIsMakingShot false (setIsMakingShot true st))
           "Error making shot. Please try again." (isSubmittingBoard p),
         [toLedger])
    end.

End Handlers.
End Page.

(** Page collaborators that accept everything. *)
Definition echoCalls : PageCalls := {|
  generateProofOfBoard := λ _, Ok "0xboard";
  contractSubmitBoard := λ _ _ _, Ok ();
  sessionSubmitBoard := λ _ _, Ok ();
  contractMakeShot := λ _ _ _, Ok ()
|}.

(** The page of a connected player with a game address, at the placement
    of the ships. *)
Definition placingState : GameState :=
  mkGameState (Some "0xA11ce") (Some "0xGame") PLACING_SHIPS false None None None None
    createEmptyShotMap createEmptyShotMap false false.

(** The number of entries in the two shot maps of the page. *)
Definition recordedShots (st : GameState) : nat :=
  length (hits (shotsAtPlayer st)) + length (misses (shotsAtPlayer st))
  + length (hits (shotsAtOpponent st)) + length (misses (shotsAtOpponent st)).

(** The page of a connected player whose turn it is. *)
Definition firingState : GameState :=
  mkGameState (Some "0xA11ce") (Some "0xGame") PLAYING true None None None None
    createEmptyShotMap createEmptyShotMap false false.

(** The same two pages with their status lines. *)
Definition placingPage : Page.State :=
  Page.mkState placingState "Place your ships on the board" false.

Definition firingPage : Page.State :=
  Page.mkState firingState "Your turn - Make a shot!" false.

(** Page collaborators whose ledger refuses every shot. *)
Definition refusingCalls : PageCalls := {|
  generateProofOfBoard := λ _, Ok "0xboard";
  contractSubmitBoard := λ _ _ _, Ok ();
  sessionSubmitBoard := λ _ _, Ok ();
  contractMakeShot := λ _ _ _, Throw TypeError
|}.

(** ** board-utils.ts: the board view *)

Inductive CellState : Type := EMPTY | SHIP | HIT | MISS | SUNK.

#[global] Instance CellState_eq_dec : EqDecision CellState.
Proof. solve_decision. Defined.

(** A [CellState[][]]; a row may get holes when it is written past its
    end. *)
Abbreviation View := (list (list (option CellState))) (only parsing).

(** [row[i] = v], as [js_array_set]. *)
Definition js_set {A} (a : list (option A)) (i : Z) (v : A) : list (option A) :=
  if (i <? 0) || (4294967295 <=? i) then a
  else if decide (Z.to_nat i < length a)%nat then <[Z.to_nat i := Some v]> a
  else a ++ replicate (Z.to_nat i - length a) None ++ [Some v].

(** [boardView[y][x] = state]: throws when the view has no row [y]. *)
Definition view_set (v : View) (x y : Z) (state : CellState) : result View :=
  match js_index v y with
  | None => Throw TypeError
  | Some row => Ok (<[Z.to_nat y := js_set row x state]> v)
  end.

Definition emptyView : View := replicate 10 (replicate 10 (Some EMPTY)).

(** The key [`${x},${y}`] of the position sets. *)
Definition posKey (x y : Z) : string := pretty x +:+ "," +:+ pretty y.

(** [for (const shot of shots) boardView[shot.y][shot.x] = state] *)
Definition markShots (state : CellState) (shots : list (Z * Z)) (v : View)
  : result View :=
  foldM (λ v shot, view_set v shot.1 shot.2 state) shots v.

(** The loops of the player's own view. *)
Definition ownView (b : Board) (hitPositions missPositions : list string) (v : View)
  : result View :=
  foldM (λ v y,
          foldM (λ v x,
                  cell ←! grid_get (grid b) x y;
                  let hasShip := bool_decide (cell = Some 1) in
                  let posKey := posKey x y in
                  if hasShip then
                    if bool_decide (posKey ∈ hitPositions)
                    then view_set v x y HIT else view_set v x y SHIP
                  else if bool_decide (posKey ∈ missPositions)
                  then view_set v x y MISS else Ok v)
                (seqZ 0 10) v)
        (seqZ 0 10) v.

(** The inner loop of [markSunkShips] leaves at the first cell that is
    not hit; all cells are hit when it does not leave. *)
Definition allCellsHit (shotMap : ShotMap) (s : Ship) : bool :=
  forallb (λ c, existsb (λ hit, (hit.1 =? c.1) && (hit.2 =? c.2)) (hits shotMap))
          (footprint s).

Definition markSunkShips (b : Board) (shotMap : ShotMap) (v : View) : result View :=
  foldM (λ v s,
          if allCellsHit shotMap s
          then foldM (λ v c, view_set v c.1 c.2 SUNK) (footprint s) v
          else Ok v)
        (ships b) v.

Definition createBoardView (board : option Board) (shotMap : ShotMap)
    (isOpponentView : bool) : result View :=
  match board with
  | None =>
      v ←! markShots HIT (hits shotMap) emptyView;
      markShots MISS (misses shotMap) v
  | Some b =>
      let hitPositions := (λ hit, posKey hit.1 hit.2) <$> hits shotMap in
      let missPositions := (λ miss, posKey miss.1 miss.2) <$> misses shotMap in
      v ←! (if negb isOpponentView
            then ownView b hitPositions missPositions emptyView
            else v ←! markShots HIT (hits shotMap) emptyView;
                 markShots MISS (misses shotMap) v);
      markSunkShips b shotMap v
  end.

(** ** Board.tsx: a click on the board *)

(** [handleCellClick] of the game board, with a click handler given and
    the board mounted; [coords] is what [getBoardCoordinates] returned.
    The result is the cell handed to [onCellClick], if any. *)
Definition handleCellClick (isOpponentBoard isPlayerTurn disabled : bool)
    (boardView : View) (coords : option (Z * Z)) : result (option (Z * Z)) :=
  if negb isOpponentBoard || negb isPlayerTurn || disabled then Ok None
  else
    match coords with
    | None => Ok None
    | Some (x, y) =>
        match js_index boardView y with
        | None => Throw TypeError
        | Some row =>
            let cellState := js_index row x ≫= id in
            if bool_decide (cellState = Some HIT) || bool_decide (cellState = Some MISS)
               || bool_decide (cellState = Some SUNK)
            then Ok None
            else Ok (Some (x, y))
        end
    end.

(** Ten rows of ten cells. *)
Definition wfView (v : View) : Prop :=
  length v = 10%nat ∧ Forall (λ row, length row = 10%nat) v.

(** The state shown at a cell. *)
Definition viewAt (v : View) (c : Z * Z) : option (option CellState) :=
  js_index v c.2 ≫= λ row, js_index row c.1.

(** The cells of the ships that [markSunkShips] finds sunk. *)
Definition sunkCells (board : option Board) (shotMap : ShotMap) : list (Z * Z) :=
  match board with
  | None => []
  | Some b => filter (λ s, allCellsHit shotMap s = true) (ships b) ≫= footprint
  end.

(** What a view without ships shows at a cell. *)
Definition shotState (board : option Board) (shotMap : ShotMap) (c : Z * Z)
  : CellState :=
  if decide (c ∈ sunkCells board shotMap) then SUNK
  else if decide (c ∈ misses shotMap) then MISS
  else if decide (c ∈ hits shotMap) then HIT
  else EMPTY.

(** What the player's own view shows at a cell. *)
Definition ownState (b : Board) (shotMap : ShotMap) (c : Z * Z) : CellState :=
  if decide (c ∈ sunkCells (Some b) shotMap) then SUNK
  else if decide (cellAt (grid b) c = Some 1)
       then (if decide (c ∈ hits shotMap) then HIT else SHIP)
       else if decide (c ∈ misses shotMap) then MISS else EMPTY.

(** A string without a comma. *)
Fixpoint commaFree (s : string) : Prop :=
  match s with
  | EmptyString => True
  | String a s => a ≠ ","%char ∧ commaFree s
  end.

(** A shot map with a hit recorded below the last row. *)
Definition shotBelowGrid : ShotMap := mkShotMap [(0, 10)] [].

(** The view of [sunkWithOneMiss] without a board. *)
Definition shotsView : list (list (option CellState)) :=
  Eval vm_compute in
    match createBoardView None sunkWithOneMiss true with
    | Ok v => v
    | Throw _ => []
    end.

(** * Properties *)

(** * Error monad and loops *)

Lemma bind_Ok_inv {A B} (r : result A) (k : A → result B) b :
  bind r k = Ok b → ∃ a, r = Ok a ∧ k a = Ok b.
Proof. destruct r as [a|e]; simpl; [eauto | discriminate]. Qed.

Lemma foldM_app {A B} (f : B → A → result B) l1 l2 b :
  foldM f (l1 ++ l2) b = bind (foldM f l1 b) (foldM f l2).
Proof.
  revert b. induction l1 as [|a l1 IH]; intros b; simpl; [done|].
  destruct (f b a) as [b'|e]; simpl; [apply IH | done].
Qed.

Lemma foldM_bind {A B C} (f : C → B → result C) (h : A → list B) l c :
  foldM (λ c a, foldM f (h a) c) l c = foldM f (l ≫= h) c.
Proof.
  revert c. induction l as [|a l IH]; intros c; [done|].
  rewrite bind_cons, foldM_app. simpl.
  destruct (foldM f (h a) c); simpl; [apply IH | done].
Qed.

(** * Grids *)

Lemma js_index_Some {A} (a : list A) i v :
  js_index a i = Some v ↔ 0 ≤ i ∧ a !! Z.to_nat i = Some v.
Proof.
  unfold js_index. destruct (Z.ltb_spec i 0); split; intros; try done.
  - lia.
  - tauto.
Qed.

Lemma js_index_lt {A} (a : list A) i v :
  js_index a i = Some v → 0 ≤ i < Z.of_nat (length a).
Proof.
  rewrite js_index_Some. intros [Hi Hl]. apply lookup_lt_Some in Hl. lia.
Qed.

Lemma js_index_is_Some {A} (a : list A) i :
  0 ≤ i < Z.of_nat (length a) → is_Some (js_index a i).
Proof.
  intros [? ?]. unfold js_index. destruct (Z.ltb_spec i 0); [lia|].
  apply lookup_lt_is_Some. lia.
Qed.

Lemma cellAt_Some g c v :
  cellAt g c = Some v ↔ ∃ row, js_index g c.2 = Some row ∧ js_index row c.1 = Some v.
Proof.
  unfold cellAt. destruct (js_index g c.2) as [row|]; simpl.
  - split; [eauto|]. by intros (? & [= <-] & ?).
  - split; [done|]. by intros (? & ? & ?).
Qed.

Lemma grid_get_cellAt g x y row :
  js_index g y = Some row → grid_get g x y = Ok (cellAt g (x, y)).
Proof. intros H. unfold grid_get, cellAt. simpl. by rewrite H. Qed.

Lemma wfGrid_row g y row :
  wfGrid g → js_index g y = Some row → length row = 10%nat.
Proof.
  intros [_ Hrows] [_ H]%js_index_Some.
  eapply Forall_lookup_1 in Hrows; eauto.
Qed.

Lemma wfGrid_cellAt g c : wfGrid g → inGrid c → is_Some (cellAt g c).
Proof.
  intros Hwf [Hx Hy]. unfold BOARD_SIZE in *.
  destruct (js_index_is_Some g c.2) as [row Hrow]; [destruct Hwf; lia|].
  destruct (js_index_is_Some row c.1) as [v Hv].
  { rewrite (wfGrid_row g c.2 row); auto; lia. }
  exists v. apply cellAt_Some. eauto.
Qed.

Lemma cellAt_inGrid g c v : wfGrid g → cellAt g c = Some v → inGrid c.
Proof.
  intros Hwf (row & Hrow & Hv)%cellAt_Some.
  pose proof (wfGrid_row _ _ _ Hwf Hrow) as Hlen.
  apply js_index_lt in Hrow, Hv. destruct Hwf as [Hg _].
  unfold inGrid, BOARD_SIZE. lia.
Qed.

Lemma wfGrid_grid_set g x y v : wfGrid g → wfGrid (grid_set g x y v).
Proof.
  intros [Hlen Hrows]. unfold grid_set.
  destruct (js_index g y) as [row|] eqn:Hrow; [|done].
  destruct (x <? 0); [done|].
  split; [by rewrite length_insert|].
  apply Forall_insert; [done|]. simpl. rewrite length_insert.
  apply js_index_Some in Hrow as [_ Hrow].
  eapply Forall_lookup_1 in Hrows; eauto.
Qed.

Lemma cellAt_grid_set_eq g c v :
  is_Some (cellAt g c) → cellAt (grid_set g c.1 c.2 v) c = Some v.
Proof.
  intros [old (row & Hrow & Hold)%cellAt_Some].
  unfold grid_set. rewrite Hrow.
  apply js_index_Some in Hrow as [Hy Hrow], Hold as [Hx Hold].
  destruct (Z.ltb_spec c.1 0); [lia|].
  apply cellAt_Some. exists (<[Z.to_nat c.1 := v]> row). split.
  - apply js_index_Some. split; [done|].
    apply list_lookup_insert_eq. by eapply lookup_lt_Some.
  - apply js_index_Some. split; [done|].
    apply list_lookup_insert_eq. by eapply lookup_lt_Some.
Qed.

Lemma cellAt_grid_set_ne g x y v c :
  c ≠ (x, y) → cellAt (grid_set g x y v) c = cellAt g c.
Proof.
  intros Hne. unfold grid_set.
  destruct (js_index g y) as [row|] eqn:Hrow; [|done].
  destruct (Z.ltb_spec x 0); [done|].
  apply js_index_Some in Hrow as [Hy Hrow].
  destruct c as [cx cy]. unfold cellAt, js_index; simpl.
  destruct (Z.ltb_spec cy 0); [done|].
  destruct (decide (cy = y)) as [->|Hy'].
  - rewrite list_lookup_insert_eq by (by eapply lookup_lt_Some).
    rewrite Hrow. simpl.
    destruct (Z.ltb_spec cx 0); [done|].
    apply list_lookup_insert_ne.
    intros Heq. apply Hne. f_equal. lia.
  - rewrite list_lookup_insert_ne by lia. done.
Qed.

(** Counting ship cells. *)

Lemma occupiedCount_middle (g1 g2 : list (list Z)) row :
  occupiedCount (g1 ++ row :: g2)
  = (occupiedCount g1 + length (filter (λ cell : Z, cell = 1%Z) row)
     + occupiedCount g2)%nat.
Proof.
  unfold occupiedCount.
  rewrite concat_app, concat_cons, !filter_app, !length_app. lia.
Qed.

Lemma occupiedCount_lookup (g : list (list Z)) j row :
  g !! j = Some row →
  occupiedCount g
  = (occupiedCount (take j g) + length (filter (λ cell : Z, cell = 1%Z) row)
     + occupiedCount (drop (S j) g))%nat.
Proof.
  intros Hj. rewrite <-occupiedCount_middle. by rewrite take_drop_middle.
Qed.

Lemma count_insert_cell (row : list Z) i old :
  row !! i = Some old → old ≠ 1 →
  length (filter (λ cell : Z, cell = 1%Z) (<[i := 1]> row))
  = S (length (filter (λ cell : Z, cell = 1%Z) row)).
Proof.
  intros Hi Hold.
  rewrite insert_take_drop by (by eapply lookup_lt_Some).
  rewrite <-(take_drop_middle row i old Hi) at 3.
  rewrite !filter_app, !length_app, filter_cons_True by done.
  rewrite (filter_cons_False _ old) by done. simpl. lia.
Qed.

Lemma occupiedCount_grid_set g c old :
  cellAt g c = Some old → old ≠ 1 →
  occupiedCount (grid_set g c.1 c.2 1) = S (occupiedCount g).
Proof.
  intros (row & Hrow & Hold)%cellAt_Some Hne.
  unfold grid_set. rewrite Hrow.
  apply js_index_Some in Hrow as [Hy Hrow], Hold as [Hx Hold].
  destruct (Z.ltb_spec c.1 0); [lia|].
  rewrite insert_take_drop by (by eapply lookup_lt_Some).
  rewrite occupiedCount_middle, (occupiedCount_lookup g _ row Hrow).
  rewrite (count_insert_cell row _ old) by done. lia.
Qed.

Lemma wfGrid_emptyGrid : wfGrid emptyGrid.
Proof. split; [done|]. by repeat constructor. Qed.

Lemma cellAt_emptyGrid c : inGrid c → cellAt emptyGrid c = Some 0.
Proof.
  intros Hc. destruct (wfGrid_cellAt emptyGrid c wfGrid_emptyGrid Hc) as [v Hv].
  rewrite Hv. f_equal.
  apply cellAt_Some in Hv as (row & [_ Hrow]%js_index_Some & [_ Hv]%js_index_Some).
  unfold emptyGrid in Hrow. apply lookup_replicate in Hrow as [-> _].
  by apply lookup_replicate in Hv as [-> _].
Qed.

Lemma occupiedCount_emptyGrid : occupiedCount emptyGrid = 0%nat.
Proof. reflexivity. Qed.

(** * createBoard *)

Lemma placeCell_Ok_inv g c g' :
  placeCell g c = Ok g' →
  cellAt g c = Some 0 ∧ c.1 < BOARD_SIZE ∧ c.2 < BOARD_SIZE
  ∧ g' = grid_set g c.1 c.2 1.
Proof.
  destruct c as [x y]. unfold placeCell.
  destruct (Z.leb_spec BOARD_SIZE x); [done|].
  destruct (Z.leb_spec BOARD_SIZE y); [done|]. simpl.
  unfold grid_get. destruct (js_index g y) as [row|] eqn:Hrow; [|done]. simpl.
  destruct (decide (js_index row x = Some 0)) as [Hv|]; [|done].
  intros [= <-]. repeat split; try done.
  apply cellAt_Some. eauto.
Qed.

Lemma placeCell_Ok g c :
  cellAt g c = Some 0 → c.1 < BOARD_SIZE → c.2 < BOARD_SIZE →
  placeCell g c = Ok (grid_set g c.1 c.2 1).
Proof.
  destruct c as [x y]. intros (row & Hrow & Hv)%cellAt_Some Hx Hy.
  simpl in *. unfold placeCell.
  destruct (Z.leb_spec BOARD_SIZE x); [lia|].
  destruct (Z.leb_spec BOARD_SIZE y); [lia|]. simpl.
  unfold grid_get. rewrite Hrow. simpl.
  by rewrite decide_True.
Qed.

(** What a successful run of the placement loop over a list of cells
    has checked and written. *)
Lemma placeCells_Ok_inv cs : ∀ g g',
  wfGrid g → foldM placeCell cs g = Ok g' →
  wfGrid g' ∧ NoDup cs ∧ Forall inGrid cs
  ∧ (∀ c, c ∈ cs → cellAt g c = Some 0)
  ∧ (∀ c, cellAt g' c = if decide (c ∈ cs) then Some 1 else cellAt g c)
  ∧ occupiedCount g' = (occupiedCount g + length cs)%nat.
Proof.
  induction cs as [|c cs IH]; intros g g' Hwf Hrun.
  - injection Hrun as <-.
    split; [done|]. split; [constructor|]. split; [constructor|].
    split; [|split].
    + intros c Hc. by apply elem_of_nil in Hc.
    + intros c. rewrite decide_False; [done|]. by intros ?%elem_of_nil.
    + simpl. lia.
  - simpl in Hrun. apply bind_Ok_inv in Hrun as (g1 & Hc & Hrun).
    apply placeCell_Ok_inv in Hc as (Hc0 & Hx & Hy & ->).
    assert (inGrid c) as Hin by (by eapply cellAt_inGrid).
    destruct (IH _ _ (wfGrid_grid_set g c.1 c.2 1 Hwf) Hrun)
      as (Hwf' & Hnd & Hall & Hzero & Hcells & Hcount).
    assert (c ∉ cs) as Hfresh.
    { intros Hmem. specialize (Hzero c Hmem).
      rewrite cellAt_grid_set_eq in Hzero by (by rewrite Hc0). done. }
    split; [done|]. split; [by constructor|]. split; [by constructor|].
    split; [|split].
    + intros c' [->|Hc']%elem_of_cons; [done|].
      rewrite <-(Hzero c' Hc'). symmetry. apply cellAt_grid_set_ne.
      destruct c; simpl. by intros ->.
    + intros c'. rewrite Hcells.
      destruct (decide (c' = c)) as [->|Hne].
      * rewrite (decide_False _ _ Hfresh), decide_True by left.
        apply cellAt_grid_set_eq. by rewrite Hc0.
      * destruct (decide (c' ∈ cs)) as [Hmem|Hmem].
        -- by rewrite decide_True by (by right).
        -- rewrite decide_False by (by intros [?|?]%elem_of_cons).
           apply cellAt_grid_set_ne. by destruct c.
    + rewrite Hcount, (occupiedCount_grid_set g c 0) by done. simpl. lia.
Qed.

(** The loop goes through when the cells are distinct free cells of the
    grid. *)
Lemma placeCells_Ok cs : ∀ g,
  wfGrid g → NoDup cs → Forall inGrid cs →
  (∀ c, c ∈ cs → cellAt g c = Some 0) →
  ∃ g', foldM placeCell cs g = Ok g'.
Proof.
  induction cs as [|c cs IH]; intros g Hwf Hnd Hin Hzero; [by eexists|].
  apply NoDup_cons in Hnd as [Hfresh Hnd].
  apply Forall_cons in Hin as [[Hx Hy] Hin].
  simpl. rewrite placeCell_Ok; [simpl| |lia..].
  - apply IH; auto using wfGrid_grid_set.
    intros c' Hc'. rewrite cellAt_grid_set_ne.
    + apply Hzero. by right.
    + destruct c. simpl. by intros ->.
  - apply Hzero. by left.
Qed.

Lemma createBoard_cells ss :
  createBoard ss = bind (foldM placeCell (ss ≫= footprint) emptyGrid) (λ g, Ok (mkBoard ss g)).
Proof. unfold createBoard, placeShip. by rewrite foldM_bind. Qed.

Lemma createBoard_ships ss b : createBoard ss = Ok b → ships b = ss.
Proof.
  unfold createBoard. intros (g & _ & [= <-])%bind_Ok_inv. done.
Qed.

(** The grid of a created board: ten by ten, a 1 exactly on the cells of
    the ships, as many of them as the ships have cells. *)
Lemma createBoard_Ok_inv ss b :
  createBoard ss = Ok b →
  ships b = ss ∧ wfGrid (grid b) ∧ NoDup (ss ≫= footprint)
  ∧ Forall inGrid (ss ≫= footprint)
  ∧ (∀ c, inGrid c →
       cellAt (grid b) c = Some (if decide (c ∈ ss ≫= footprint) then 1 else 0))
  ∧ occupiedCount (grid b) = length (ss ≫= footprint).
Proof.
  rewrite createBoard_cells. intros (g & Hrun & [= <-])%bind_Ok_inv. simpl.
  apply placeCells_Ok_inv in Hrun as (Hwf & Hnd & Hin & _ & Hcells & Hcount);
    [|apply wfGrid_emptyGrid].
  split; [done|]. split; [done|]. split; [done|]. split; [done|].
  split; [|by rewrite Hcount].
  intros c Hc. rewrite Hcells. case_decide; [done|]. by apply cellAt_emptyGrid.
Qed.

(** * Fleets *)

Lemma shipCell_inj s i j : shipCell s i = shipCell s j → i = j.
Proof. unfold shipCell. destruct (ship_horizontal s); intros [= ?]; lia. Qed.

Lemma NoDup_footprint s : NoDup (footprint s).
Proof.
  unfold footprint. apply NoDup_fmap_2_strong; [|apply NoDup_seqZ].
  intros i j _ _. apply shipCell_inj.
Qed.

Lemma noSharedCell_tail s ss : noSharedCell (s :: ss) → noSharedCell ss.
Proof.
  intros H i j s1 s2 c H1 H2 Hc1 Hc2.
  specialize (H (S i) (S j) s1 s2 c H1 H2 Hc1 Hc2). lia.
Qed.

Lemma noSharedCell_NoDup ss : noSharedCell ss ↔ NoDup (ss ≫= footprint).
Proof.
  induction ss as [|s ss IH].
  - split; [constructor|]. intros _ i j s1 s2 c H. by rewrite lookup_nil in H.
  - rewrite bind_cons, NoDup_app. split.
    + intros H. split; [apply NoDup_footprint|]. split.
      * intros c Hc (s' & Hc' & [j Hj]%list_elem_of_lookup)%list_elem_of_bind.
        specialize (H 0%nat (S j) s s' c eq_refl Hj Hc Hc'). lia.
      * apply IH. by eapply noSharedCell_tail.
    + intros (_ & Hdisj & Hnd) i j s1 s2 c H1 H2 Hc1 Hc2.
      apply IH in Hnd.
      destruct i as [|i], j as [|j]; simpl in *; simplify_eq; try done.
      * exfalso. eapply Hdisj; [done|]. apply list_elem_of_bind.
        exists s2. split; [done|]. by eapply list_elem_of_lookup_2.
      * exfalso. eapply Hdisj; [done|]. apply list_elem_of_bind.
        exists s1. split; [done|]. by eapply list_elem_of_lookup_2.
      * f_equal. eauto.
Qed.

Lemma Forall_inGrid_fleet ss :
  Forall shipInBounds ss → Forall inGrid (ss ≫= footprint).
Proof.
  induction 1 as [|s ss Hs _ IH]; [constructor|].
  rewrite bind_cons. by apply Forall_app.
Qed.

Lemma length_footprint s : length (footprint s) = Z.to_nat (ship_size s).
Proof. unfold footprint. by rewrite length_fmap, length_seqZ. Qed.

Lemma length_fleet_cells ss :
  length (ss ≫= footprint) = sum_list_with Z.to_nat (ship_size <$> ss).
Proof.
  induction ss as [|s ss IH]; [done|].
  rewrite bind_cons, length_app, length_footprint, IH. done.
Qed.

Lemma totalSize_cells ss :
  Forall (λ s, 0 ≤ ship_size s) ss →
  Z.of_nat (length (ss ≫= footprint)) = totalSize ss.
Proof.
  unfold totalSize. induction 1 as [|s ss Hs _ IH]; [done|].
  rewrite bind_cons, length_app, length_footprint, fmap_cons.
  cbn [foldr]. rewrite <-IH. lia.
Qed.

Lemma totalSize_perm ss sizes :
  ship_size <$> ss ≡ₚ sizes → totalSize ss = foldr Z.add 0 sizes.
Proof.
  intros H. unfold totalSize.
  induction H as [|a l l' _ IH|a b l|l l' l'' _ IH1 _ IH2]; simpl; lia.
Qed.

Lemma cells_perm ss sizes :
  ship_size <$> ss ≡ₚ sizes →
  length (ss ≫= footprint) = sum_list_with Z.to_nat sizes.
Proof. intros H. by rewrite length_fleet_cells, H. Qed.

(** The cells of a ship are the cells it covers. *)
Lemma elem_of_footprint s x y : (x, y) ∈ footprint s ↔ covers x y s = true.
Proof.
  unfold footprint, covers, shipCell. rewrite list_elem_of_fmap.
  setoid_rewrite elem_of_seqZ.
  destruct (ship_horizontal s); simpl; rewrite ?orb_false_r; split.
  - intros (i & [= -> ->] & Hi). rewrite Z.eqb_refl. simpl.
    apply andb_true_iff. split; [apply Z.leb_le | apply Z.ltb_lt]; lia.
  - intros [[->%Z.eqb_eq ?%Z.leb_le]%andb_true_iff ?%Z.ltb_lt]%andb_true_iff.
    exists (x - ship_x s). split; [f_equal|]; lia.
  - intros (i & [= -> ->] & Hi). rewrite Z.eqb_refl. simpl.
    apply andb_true_iff. split; [apply Z.leb_le | apply Z.ltb_lt]; lia.
  - intros [[->%Z.eqb_eq ?%Z.leb_le]%andb_true_iff ?%Z.ltb_lt]%andb_true_iff.
    exists (y - ship_y s). split; [f_equal|]; lia.
Qed.

Lemma elem_of_fleet_cells ss x y :
  (x, y) ∈ ss ≫= footprint ↔ existsb (covers x y) ss = true.
Proof.
  rewrite list_elem_of_bind, existsb_exists.
  setoid_rewrite elem_of_footprint. setoid_rewrite list_elem_of_In.
  split; intros (s & H1 & H2); exists s; tauto.
Qed.

(** * validateBoard *)

Lemma map_get_set (m : list (Z * nat)) k v k' :
  map_get (map_set m k v) k' = if decide (k = k') then Some v else map_get m k'.
Proof.
  induction m as [|[k0 v0] m IH]; simpl.
  - done.
  - destruct (decide (k0 = k)) as [->|Hk0]; simpl.
    + by destruct (decide (k = k')).
    + rewrite IH. destruct (decide (k0 = k')) as [->|]; [|done].
      by rewrite decide_False.
Qed.

Lemma countSizes_fold l : ∀ (m : list (Z * nat)) k,
  default 0%nat
    (map_get (foldl (λ m s, map_set m s (default 0%nat (map_get m s) + 1)%nat) m l) k)
  = (default 0%nat (map_get m k) + occurrences k l)%nat.
Proof.
  unfold occurrences. induction l as [|s l IH]; intros m k; simpl; [lia|].
  rewrite IH, map_get_set, filter_cons.
  destruct (decide (s = k)) as [->|]; simpl; lia.
Qed.

Lemma countSizes_get l k :
  default 0%nat (map_get (countSizes l) k) = occurrences k l.
Proof. unfold countSizes. by rewrite countSizes_fold. Qed.

Lemma occurrences_perm k l l' : l ≡ₚ l' → occurrences k l = occurrences k l'.
Proof. intros H. unfold occurrences. by rewrite H. Qed.

(** With the sizes of the standard fleet the composition checks pass and
    validation comes down to the comparison of the two cell counts. *)
Lemma validateBoard_standard b :
  standardSizes (ships b) →
  validateBoard b
  = bind (createBoard (ships b)) (λ r,
      if decide (occupiedCount (grid b) ≠ occupiedCount (grid r))
      then Throw GridMismatch else Ok true).
Proof.
  intros Hsizes. unfold validateBoard.
  assert (length (ships b) = length SHIP_SIZES) as Hlen.
  { rewrite <-(length_fmap ship_size). by apply Permutation_length. }
  rewrite decide_False by (by intros ?).
  change (countSizes SHIP_SIZES) with [(5, 1%nat); (4, 1%nat); (3, 2%nat); (2, 1%nat)].
  cbn [foldM bind].
  rewrite !countSizes_get, !(occurrences_perm _ _ _ Hsizes). done.
Qed.

(** A composition with a single ship of size 3 fails the third check. *)
Lemma validateBoard_one_cruiser b :
  length (ships b) = 5%nat →
  occurrences 5 (ship_size <$> ships b) = 1%nat →
  occurrences 4 (ship_size <$> ships b) = 1%nat →
  occurrences 3 (ship_size <$> ships b) = 1%nat →
  validateBoard b = Throw (InvalidShipsOfSize 3).
Proof.
  intros Hlen H5 H4 H3. unfold validateBoard.
  rewrite decide_False by (intros H; by apply H).
  change (countSizes SHIP_SIZES) with [(5, 1%nat); (4, 1%nat); (3, 2%nat); (2, 1%nat)].
  cbn [foldM bind].
  rewrite !countSizes_get, H5, H4, H3. done.
Qed.

Lemma createBoard_valid ss :
  Forall shipInBounds ss → noSharedCell ss → ∃ b, createBoard ss = Ok b.
Proof.
  intros Hin Hnd%noSharedCell_NoDup.
  destruct (placeCells_Ok (ss ≫= footprint) emptyGrid) as [g Hg].
  - apply wfGrid_emptyGrid.
  - done.
  - by apply Forall_inGrid_fleet.
  - intros c Hc. apply cellAt_emptyGrid.
    eapply Forall_forall; [by apply Forall_inGrid_fleet|done].
  - exists (mkBoard ss g). by rewrite createBoard_cells, Hg.
Qed.

Lemma validateBoard_created ss b :
  standardSizes ss → createBoard ss = Ok b → validateBoard b = Ok true.
Proof.
  intros Hsizes Hb. pose proof (createBoard_ships _ _ Hb) as Hss.
  rewrite validateBoard_standard by (by rewrite Hss).
  rewrite Hss, Hb. simpl. by rewrite decide_False by (intros H; by apply H).
Qed.

Lemma createBoard_count ss b :
  createBoard ss = Ok b → Forall (λ s, 0 ≤ ship_size s) ss →
  Z.of_nat (occupiedCount (grid b)) = totalSize ss.
Proof.
  intros (_ & _ & _ & _ & _ & ->)%createBoard_Ok_inv Hpos.
  by apply totalSize_cells.
Qed.

Lemma createBoard_count_standard ss b :
  createBoard ss = Ok b → standardSizes ss → occupiedCount (grid b) = 17%nat.
Proof.
  intros (_ & _ & _ & _ & _ & ->)%createBoard_Ok_inv Hsizes.
  rewrite (cells_perm _ _ Hsizes). reflexivity.
Qed.

(** Claim C7, amended.  For every valid ship set (the sizes 5, 4, 3, 3, 2 in
    any order, every ship inside the grid, no cell shared by two ships)
    [createBoard] succeeds, [validateBoard] accepts the board it returns,
    and the number of occupied cells of its grid is the sum of the ship
    sizes, which is 17 for this fleet (not 18). *)
Theorem createBoard_validateBoard_valid_fleet ss :
  validFleet ss →
  ∃ b, createBoard ss = Ok b
       ∧ validateBoard b = Ok true
       ∧ Z.of_nat (occupiedCount (grid b)) = totalSize ss
       ∧ occupiedCount (grid b) = 17%nat.
Proof.
  intros (Hsizes & Hin & Hdisj).
  destruct (createBoard_valid ss Hin Hdisj) as [b Hb]. exists b.
  split; [done|]. split; [by eapply validateBoard_created|].
  pose proof (createBoard_count_standard _ _ Hb Hsizes) as H17.
  split; [|done].
  rewrite H17, (totalSize_perm _ _ Hsizes). done.
Qed.

Lemma validFleet_spacedFleet : validFleet spacedFleet.
Proof.
  split; [exact (Permutation_refl _)|]. split.
  - apply (bool_decide_unpack _). vm_compute. exact I.
  - apply noSharedCell_NoDup. apply (bool_decide_unpack _). vm_compute. exact I.
Defined.

Lemma createBoard_validateBoard_valid_fleet_witness :
  validFleet spacedFleet ∧
  ∃ b, createBoard spacedFleet = Ok b
       ∧ validateBoard b = Ok true
       ∧ Z.of_nat (occupiedCount (grid b)) = totalSize spacedFleet
       ∧ occupiedCount (grid b) = 17%nat.
Proof.
  split; [apply validFleet_spacedFleet|].
  apply (createBoard_validateBoard_valid_fleet spacedFleet), validFleet_spacedFleet.
Defined.

(** Claim C5.  On a board made by [createBoard], for a coordinate of the
    grid [checkShotResult] returns true exactly when some ship of the
    board has the coordinate in its footprint; for a coordinate outside
    the grid it throws the out-of-bounds error.  It is a function of its
    arguments: there is no state for it to change. *)
Theorem checkShotResult_agrees_with_ships ss b x y :
  createBoard ss = Ok b →
  (inGrid (x, y) →
     ∃ hit, checkShotResult b x y = Ok hit
            ∧ (hit = true ↔ ∃ s, s ∈ ships b ∧ (x, y) ∈ footprint s)
            ∧ hit = existsb (covers x y) (ships b))
  ∧ (¬ inGrid (x, y) → checkShotResult b x y = Throw (ShotOutOfBounds x y)).
Proof.
  intros Hb. split.
  - intros Hin.
    destruct (createBoard_Ok_inv _ _ Hb) as (Hss & Hwf & _ & _ & Hcells & _).
    specialize (Hcells _ Hin).
    exists (bool_decide ((x, y) ∈ ss ≫= footprint)). split.
    + unfold checkShotResult. destruct Hin as [Hx Hy]. unfold BOARD_SIZE in *.
      simpl in Hx, Hy.
      destruct (Z.ltb_spec x 0); [lia|]. destruct (Z.leb_spec 10 x); [lia|].
      destruct (Z.ltb_spec y 0); [lia|]. destruct (Z.leb_spec 10 y); [lia|].
      simpl. pose proof Hcells as (row & Hrow & _)%cellAt_Some. simpl in Hrow.
      rewrite (grid_get_cellAt _ _ _ _ Hrow), Hcells. simpl. f_equal.
      apply bool_decide_ext. case_decide; split; try done.
    + split.
      * rewrite bool_decide_eq_true, Hss, list_elem_of_bind.
        split; intros (s & H1 & H2); by exists s.
      * rewrite Hss. destruct (existsb (covers x y) ss) eqn:Hex.
        -- by apply bool_decide_eq_true, elem_of_fleet_cells.
        -- apply bool_decide_eq_false. intros Hmem%elem_of_fleet_cells. congruence.
  - intros Hout. unfold checkShotResult, inGrid, BOARD_SIZE in *. simpl in Hout.
    destruct (Z.ltb_spec x 0); [done|]. destruct (Z.leb_spec 10 x); [done|].
    destruct (Z.ltb_spec y 0); [done|]. destruct (Z.leb_spec 10 y); [done|].
    lia.
Qed.

Lemma checkShotResult_agrees_with_ships_witness :
  createBoard spacedFleet = Ok spacedBoard
  ∧ ∃ hit, checkShotResult spacedBoard 3 2 = Ok hit
           ∧ (hit = true ↔ ∃ s, s ∈ ships spacedBoard ∧ (3, 2) ∈ footprint s)
           ∧ hit = existsb (covers 3 2) (ships spacedBoard).
Proof.
  split; [reflexivity|].
  apply (checkShotResult_agrees_with_ships spacedFleet spacedBoard 3 2 eq_refl).
  vm_compute. intuition discriminate.
Defined.

(** * Shot maps *)

Lemma addShots_snoc m shots s :
  addShots m (shots ++ [s]) = addShot (addShots m shots) s.1.1 s.1.2 s.2.
Proof. unfold addShots. by rewrite foldl_app. Qed.

Lemma addShots_perm shots : ∀ m,
  hits (addShots m shots) ++ misses (addShots m shots)
  ≡ₚ (hits m ++ misses m) ++ shots.*1.
Proof.
  induction shots as [|[[x y] h] shots IH]; intros m; simpl.
  - by rewrite app_nil_r.
  - rewrite IH. destruct h; simpl.
    + rewrite <-!(assoc_L (++)). apply Permutation_app_head. simpl.
      by rewrite <-Permutation_middle.
    + rewrite <-!(assoc_L (++)). do 2 apply Permutation_app_head. done.
Qed.

(** Claim C1, amended.  [addShot] appends and does not look for the
    coordinate: applying it a second time with the same arguments never
    gives the map of the first application back.  A shot map built from
    the empty one has no coordinate in both lists or twice in one list
    exactly when no coordinate was shot at twice. *)
Theorem addShot_appends_never_idempotent :
  (∀ m x y isHit, addShot (addShot m x y isHit) x y isHit ≠ addShot m x y isHit)
  ∧ (∀ shots, shotsDistinct (addShots createEmptyShotMap shots) ↔ NoDup shots.*1).
Proof.
  split.
  - intros m x y [] Heq; apply (f_equal (λ m, length (hits m ++ misses m))) in Heq;
      simpl in Heq; rewrite !length_app in Heq; simpl in Heq; lia.
  - intros shots. unfold shotsDistinct.
    by rewrite (addShots_perm shots createEmptyShotMap).
Qed.

Lemma addShot_twice_counterexample :
  addShot (addShot createEmptyShotMap 3 4 true) 3 4 true
    ≠ addShot createEmptyShotMap 3 4 true
  ∧ hits (addShot (addShot createEmptyShotMap 3 4 true) 3 4 true) = [(3, 4); (3, 4)]
  ∧ (3, 4) ∈ hits (addShot (addShot createEmptyShotMap 3 4 true) 3 4 false)
  ∧ (3, 4) ∈ misses (addShot (addShot createEmptyShotMap 3 4 true) 3 4 false).
Proof.
  split; [discriminate|]. split; [reflexivity|].
  split; apply list_elem_of_singleton; reflexivity.
Qed.

(** * All ships sunk *)

Lemma checkAllShipsSunk_true b m :
  checkAllShipsSunk b m = true ↔ length (hits m) = occupiedCount (grid b).
Proof. unfold checkAllShipsSunk. apply bool_decide_eq_true. Qed.

Lemma checkAllShipsSunk_false b m :
  checkAllShipsSunk b m = false ↔ length (hits m) ≠ occupiedCount (grid b).
Proof. unfold checkAllShipsSunk. apply bool_decide_eq_false. Qed.

Lemma createBoard_spacedFleet : createBoard spacedFleet = Ok spacedBoard.
Proof. reflexivity. Qed.

(** Claim C6, amended.  [checkAllShipsSunk] is true exactly when the
    number of recorded hits equals the number of occupied cells of the
    grid.  A board with ships of sizes 5, 4, 3, 3, 2 has 17 occupied cells
    (not 18): the answer is false after 16 recorded hits and true once
    the 17th is recorded. *)
Theorem checkAllShipsSunk_counts_hits :
  (∀ b m, checkAllShipsSunk b m = true ↔ length (hits m) = occupiedCount (grid b))
  ∧ (∀ ss b m x y,
       createBoard ss = Ok b → standardSizes ss → length (hits m) = 16%nat →
       occupiedCount (grid b) = 17%nat
       ∧ checkAllShipsSunk b m = false
       ∧ checkAllShipsSunk b (addShot m x y true) = true).
Proof.
  split; [apply checkAllShipsSunk_true|].
  intros ss b m x y Hb Hsizes Hm.
  pose proof (createBoard_count_standard _ _ Hb Hsizes) as H17.
  split; [done|]. split.
  - apply checkAllShipsSunk_false. lia.
  - apply checkAllShipsSunk_true. simpl. rewrite length_app. simpl. lia.
Qed.

Lemma checkAllShipsSunk_counts_hits_witness :
  checkAllShipsSunk spacedBoard (mkShotMap (replicate 16 (0, 0)) []) = false
  ∧ checkAllShipsSunk spacedBoard
      (addShot (mkShotMap (replicate 16 (0, 0)) []) 1 0 true) = true.
Proof.
  apply (proj2 checkAllShipsSunk_counts_hits spacedFleet spacedBoard
           (mkShotMap (replicate 16 (0, 0)) []) 1 0).
  - reflexivity.
  - exact (Permutation_refl _).
  - reflexivity.
Defined.

Lemma checkAllShipsSunk_scenario_counterexample :
  createBoard spacedFleet = Ok spacedBoard
  ∧ ship_size <$> spacedFleet = [5; 4; 3; 3; 2]
  ∧ occupiedCount (grid spacedBoard) = 17%nat
  ∧ length (hits allShipCellsHit) = 17%nat
  ∧ checkAllShipsSunk spacedBoard allShipCellsHit = true
  ∧ checkAllShipsSunk spacedBoard (addShot allShipCellsHit 9 9 true) = false.
Proof. repeat split. Qed.

Lemma standard_fleet_count_counterexample :
  validFleet spacedFleet
  ∧ createBoard spacedFleet = Ok spacedBoard
  ∧ validateBoard spacedBoard = Ok true
  ∧ occupiedCount (grid spacedBoard) = 17%nat
  ∧ occupiedCount (grid spacedBoard) ≠ 18%nat
  ∧ totalSize spacedFleet = 17.
Proof.
  split; [apply validFleet_spacedFleet|].
  split; [reflexivity|]. split; [reflexivity|]. split; [reflexivity|].
  split; [discriminate|reflexivity].
Qed.

(** * Shot history *)

Lemma index_of_cell x y :
  inGrid (x, y) →
  (Z.to_nat (y * 10 + x) < 100)%nat ∧ cellOfIndex (Z.to_nat (y * 10 + x)) = (x, y).
Proof.
  intros [Hx Hy]. unfold BOARD_SIZE, cellOfIndex in *. simpl in *.
  split; [lia|]. rewrite Z2Nat.id by lia. f_equal.
  - rewrite Z.add_comm, Z.mod_add by lia. apply Z.mod_small. lia.
  - rewrite Z.add_comm, Z.div_add by lia. rewrite Z.div_small by lia. lia.
Qed.

Lemma cell_of_index n :
  (n < 100)%nat →
  inGrid (cellOfIndex n)
  ∧ Z.to_nat ((cellOfIndex n).2 * 10 + (cellOfIndex n).1) = n.
Proof.
  intros Hn. unfold inGrid, BOARD_SIZE, cellOfIndex. simpl.
  pose proof (Z.mod_pos_bound (Z.of_nat n) 10 ltac:(lia)).
  pose proof (Z.div_mod (Z.of_nat n) 10 ltac:(lia)).
  assert (0 ≤ Z.of_nat n / 10 < 10).
  { split; [apply Z.div_pos; lia | apply Z.div_lt_upper_bound; lia]. }
  split; [lia|]. lia.
Qed.

(** With the hits on the grid the loop stays inside the hundred slots. *)
Lemma shotHistory_fold hs : ∀ h,
  length h = 100%nat → Forall inGrid hs →
  length (foldl (λ sh hit, js_array_set sh (hit.2 * 10 + hit.1) 1) h hs) = 100%nat
  ∧ ∀ n, (n < 100)%nat →
      foldl (λ sh hit, js_array_set sh (hit.2 * 10 + hit.1) 1) h hs !! n
      = if decide (cellOfIndex n ∈ hs) then Some (Some 1) else h !! n.
Proof.
  induction hs as [|[x y] hs IH]; intros h Hlen Hin; cbn [foldl].
  - split; [done|]. intros n _. rewrite decide_False; [done|]. by intros ?%elem_of_nil.
  - apply Forall_cons in Hin as [Hc Hin].
    destruct (index_of_cell x y Hc) as [Hidx Hcell].
    assert (js_array_set h ((x, y).2 * 10 + (x, y).1) 1
            = <[Z.to_nat (y * 10 + x) := Some 1]> h) as ->.
    { unfold js_array_set. cbn [fst snd].
      destruct Hc as [Hx Hy]. unfold BOARD_SIZE in Hx, Hy. simpl in Hx, Hy.
      destruct (Z.ltb_spec (y * 10 + x) 0); [lia|].
      destruct (Z.leb_spec 4294967295 (y * 10 + x)); [lia|]. cbn [orb].
      rewrite decide_True; [done|lia]. }
    destruct (IH (<[Z.to_nat (y * 10 + x) := Some 1]> h)) as [Hlen' Hget];
      [by rewrite length_insert|done|].
    split; [done|]. intros n Hn. rewrite (Hget n Hn).
    destruct (decide (cellOfIndex n ∈ hs)) as [Hmem|Hmem].
    + by rewrite decide_True by (by right).
    + destruct (decide (n = Z.to_nat (y * 10 + x))) as [->|Hne].
      * rewrite Hcell, decide_True by left.
        apply list_lookup_insert_eq. lia.
      * rewrite list_lookup_insert_ne by done.
        rewrite decide_False; [done|].
        intros [Heq|?]%elem_of_cons; [|done].
        apply Hne. destruct (cell_of_index n Hn) as [_ <-]. by rewrite Heq.
Qed.

(** The bitmap marks the hit cells, row-major, and nothing else. *)
Lemma shotHistoryOf_spec m :
  Forall inGrid (hits m) →
  length (shotHistoryOf m) = 100%nat
  ∧ ∀ n, (n < 100)%nat →
      shotHistoryOf m !! n
      = Some (Some (if decide (cellOfIndex n ∈ hits m) then 1 else 0)).
Proof.
  intros Hin. destruct (shotHistory_fold (hits m) (replicate 100 (Some 0))) as [Hlen Hget];
    [by rewrite length_replicate|done|].
  split; [done|]. intros n Hn. unfold shotHistoryOf. rewrite (Hget n Hn).
  case_decide; [done|]. by rewrite lookup_replicate_2.
Qed.

(** The bitmap depends on which cells were hit, not on the order or the
    number of times they were recorded. *)
Lemma shotHistoryOf_order_independent m1 m2 :
  Forall inGrid (hits m1) → Forall inGrid (hits m2) →
  (∀ c, c ∈ hits m1 ↔ c ∈ hits m2) →
  shotHistoryOf m1 = shotHistoryOf m2.
Proof.
  intros [Hl1 Hg1]%shotHistoryOf_spec [Hl2 Hg2]%shotHistoryOf_spec Hsame.
  apply list_eq. intros n. destruct (decide (n < 100)%nat) as [Hn|Hn].
  - rewrite Hg1, Hg2 by done. do 2 f_equal.
    destruct (decide (cellOfIndex n ∈ hits m1)) as [H1|H1].
    + by rewrite decide_True by (by apply Hsame).
    + by rewrite decide_False by (by rewrite <-Hsame).
  - rewrite !lookup_ge_None_2; [done|lia..].
Qed.

(** * Strings *)

Lemma append_cons c s t : String c s +:+ t = String c (s +:+ t).
Proof. reflexivity. Qed.

Lemma append_nil_l s : "" +:+ s = s.
Proof. reflexivity. Qed.







(** * Commitment *)





Lemma formatBytes32String_Ok salt :
  (String.length salt ≤ 31)%nat →
  formatBytes32String salt = Ok (salt +:+ zeroBytes (32 - String.length salt)).
Proof. intros H. unfold formatBytes32String. rewrite decide_False; [done|lia]. Qed.


Lemma formatBytes32String_too_long salt :
  (31 < String.length salt)%nat → formatBytes32String salt = Throw Bytes32TooLong.
Proof. intros H. unfold formatBytes32String. by rewrite decide_True. Qed.


Section Commitment.
Context `{ext : !Externals}.

Lemma generateBoardCommitment_Ok b salt :
  (String.length salt ≤ 31)%nat →
  generateBoardCommitment b salt
  = Ok (keccak256 (serializeBoard b +:+ salt +:+ zeroBytes (32 - String.length salt))).
Proof.
  intros H. unfold generateBoardCommitment. by rewrite formatBytes32String_Ok.
Qed.

Lemma generateBoardCommitment_too_long b salt :
  (31 < String.length salt)%nat →
  generateBoardCommitment b salt = Throw Bytes32TooLong.
Proof.
  intros H. unfold generateBoardCommitment. by rewrite formatBytes32String_too_long.
Qed.


End Commitment.

(** * Row-major order *)

Lemma concat_lookup_rows (g : list (list Z)) (k : nat) : ∀ j i,
  Forall (λ row, length row = k) g → (i < k)%nat →
  concat g !! (j * k + i)%nat = g !! j ≫= (.!! i).
Proof.
  induction g as [|row g IH]; intros j i Hrows Hi; [by destruct j|].
  apply Forall_cons in Hrows as [Hrow Hrows]. rewrite concat_cons.
  destruct j as [|j]; simpl.
  - rewrite lookup_app_l by lia. done.
  - rewrite lookup_app_r by lia. rewrite <-(IH j i Hrows Hi). f_equal. lia.
Qed.

Lemma concat_lookup_cell g x y :
  wfGrid g → inGrid (x, y) →
  concat g !! Z.to_nat (y * 10 + x) = cellAt g (x, y).
Proof.
  intros [_ Hrows] [Hx Hy]. unfold BOARD_SIZE in *. simpl in *.
  replace (Z.to_nat (y * 10 + x)) with (Z.to_nat y * 10 + Z.to_nat x)%nat by lia.
  rewrite (concat_lookup_rows g 10) by (done || lia).
  unfold cellAt, js_index. simpl.
  destruct (Z.ltb_spec y 0); [lia|]. destruct (Z.ltb_spec x 0); [lia|]. done.
Qed.

Lemma length_concat_wf g : wfGrid g → length (concat g) = 100%nat.
Proof.
  intros [Hlen Hrows].
  assert (∀ g : list (list Z), Forall (λ row, length row = 10%nat) g →
            length (concat g) = (length g * 10)%nat) as Hgen.
  { clear. induction 1 as [|row g Hrow _ IH]; [done|].
    rewrite concat_cons, length_app, Hrow, IH. simpl. lia. }
  rewrite (Hgen g Hrows), Hlen. done.
Qed.


Lemma createBoard_bits ss b :
  createBoard ss = Ok b → Forall (λ cell, cell = 0 ∨ cell = 1) (concat (grid b)).
Proof.
  intros (_ & Hwf & _ & _ & Hcells & _)%createBoard_Ok_inv.
  apply Forall_lookup_2. intros n cell Hn.
  assert (n < 100)%nat as Hlt.
  { rewrite <-(length_concat_wf _ Hwf). by eapply lookup_lt_Some. }
  destruct (cell_of_index n Hlt) as [Hin Hidx].
  destruct (cellOfIndex n) as [x y] eqn:Hxy. simpl in Hidx.
  pose proof (concat_lookup_cell _ x y Hwf Hin) as Hget.
  rewrite Hidx, Hn, (Hcells _ Hin) in Hget. injection Hget as ->.
  case_decide; auto.
Qed.


Section CommitmentClaims.
Context `{ext : !Externals}.


End CommitmentClaims.



(** * Circuit inputs *)

Lemma foldM_nested {A B C} (f : C → A → B → result C) (bs : list B) (l : list A) :
  ∀ c, foldM (λ c a, foldM (λ c b, f c a b) bs c) l c
       = foldM (λ c ab, f c ab.1 ab.2) (l ≫= λ a, pair a <$> bs) c.
Proof.
  assert (∀ a (bs : list B) c,
            foldM (λ c b, f c a b) bs c
            = foldM (λ c ab, f c ab.1 ab.2) (pair a <$> bs) c) as Hin.
  { intros a bs'. induction bs' as [|b bs' IH]; intros c; simpl; [done|].
    destruct (f c a b); simpl; [apply IH|done]. }
  induction l as [|a l IH]; intros c; [done|].
  rewrite bind_cons, foldM_app. cbn [foldM]. rewrite Hin.
  destruct (foldM _ (pair a <$> bs) c); simpl; [apply IH|done].
Qed.

Lemma foldM_pure {A B} (f : B → A → result B) (p : B → A → B) l :
  (∀ a b, a ∈ l → f b a = Ok (p b a)) → ∀ b, foldM f l b = Ok (foldl p b l).
Proof.
  induction l as [|a l IH]; intros Hf b; simpl; [done|].
  rewrite Hf by left. simpl. apply IH. intros a' b' Ha'. apply Hf. by right.
Qed.

(** A loop that writes [v] at the slots of the keys it selects. *)
Lemma mark_fold {A K} (P : K → Prop) `{!∀ k, Decision (P k)}
    (idx : K → nat) (v : A) ks : ∀ acc,
  let acc' := foldl (λ acc k, if decide (P k) then <[idx k := v]> acc else acc) acc ks in
  length acc' = length acc
  ∧ (∀ n, (∀ k, k ∈ ks → P k → idx k ≠ n) → acc' !! n = acc !! n)
  ∧ (∀ n k, k ∈ ks → P k → idx k = n → (n < length acc)%nat → acc' !! n = Some v).
Proof.
  induction ks as [|k ks IH]; intros acc; cbn [foldl].
  - split; [done|]. split; [done|]. intros n k Hk. by apply elem_of_nil in Hk.
  - set (acc1 := if decide (P k) then <[idx k := v]> acc else acc).
    assert (length acc1 = length acc) as Hlen1.
    { unfold acc1. case_decide; [apply length_insert|done]. }
    destruct (IH acc1) as (Hlen & Hkeep & Hset). cbn zeta in *.
    split; [by rewrite Hlen|]. split.
    + intros n Hn. rewrite Hkeep by (intros k' Hk'; apply Hn; by right).
      unfold acc1. case_decide as HP; [|done].
      apply list_lookup_insert_ne. apply Hn; [left|done].
    + intros n k' Hk' HP Hidx Hlt.
      apply elem_of_cons in Hk' as [->|Hk'].
      * destruct (decide (Exists (λ k2, P k2 ∧ idx k2 = n) ks)) as [Hex|Hno].
        -- apply Exists_exists in Hex as (k2 & ? & ? & ?).
           eapply Hset; eauto. lia.
        -- rewrite Hkeep.
           ++ unfold acc1. rewrite decide_True by done. subst n.
              by apply list_lookup_insert_eq.
           ++ intros k2 ? ? ?. apply Hno, Exists_exists. eauto.
      * eapply Hset; eauto. lia.
Qed.

Lemma grid_pairs_inGrid (yx : Z * Z) :
  yx ∈ (seqZ 0 10 ≫= λ y, pair y <$> seqZ 0 10) ↔ inGrid (yx.2, yx.1).
Proof.
  rewrite list_elem_of_bind. split.
  - intros (y & (x & -> & Hx%elem_of_seqZ)%list_elem_of_fmap & Hy%elem_of_seqZ).
    unfold inGrid, BOARD_SIZE. simpl. lia.
  - intros [Hx Hy]. unfold BOARD_SIZE in *. cbn [fst snd] in *. exists yx.1. rewrite elem_of_seqZ. split; [|lia].
    apply list_elem_of_fmap. exists yx.2. rewrite elem_of_seqZ.
    split; [by destruct yx|lia].
Qed.

(** On a ten by ten grid the loop yields the flattened grid, row-major,
    with 1 for a ship cell and 0 for any other. *)
Lemma boardCellsOf_wf g : wfGrid g → boardCellsOf g = Ok (cellBit <$> concat g).
Proof.
  intros Hwf. unfold boardCellsOf.
  rewrite (foldM_nested
             (λ cells y x, v ←! grid_get g x y;
                Ok (if decide (v = Some 1)
                    then <[Z.to_nat (y * 10 + x) := 1]> cells else cells))).
  rewrite (foldM_pure _
             (λ cells yx, if decide (cellAt g (yx.2, yx.1) = Some 1)
                          then <[Z.to_nat (yx.1 * 10 + yx.2) := 1]> cells else cells)).
  2:{ intros [y x] cells Hin%grid_pairs_inGrid. simpl in *.
      destruct (wfGrid_cellAt g _ Hwf Hin) as [v (row & Hrow & _)%cellAt_Some].
      simpl in Hrow. by rewrite (grid_get_cellAt _ _ _ _ Hrow). }
  f_equal.
  destruct (mark_fold (λ yx : Z * Z, cellAt g (yx.2, yx.1) = Some 1)
              (λ yx, Z.to_nat (yx.1 * 10 + yx.2)) 1
              (seqZ 0 10 ≫= λ y, pair y <$> seqZ 0 10) (replicate 100 0))
    as (Hlen & Hkeep & Hset).
  cbn zeta in *. rewrite length_replicate in Hlen, Hset.
  apply list_eq. intros n. destruct (decide (n < 100)%nat) as [Hn|Hn].
  - destruct (cell_of_index n Hn) as [Hin Hidx].
    destruct (cellOfIndex n) as [x y] eqn:Hxy. simpl in Hidx.
    rewrite list_lookup_fmap, <-Hidx, (concat_lookup_cell g x y Hwf Hin), Hidx.
    destruct (wfGrid_cellAt g _ Hwf Hin) as [v Hv]. rewrite Hv.
    change (cellBit <$> Some v) with (Some (cellBit v)).
    unfold cellBit. destruct (decide (v = 1)) as [->|Hv1].
    + apply (Hset n (y, x)); try done. by apply grid_pairs_inGrid.
    + rewrite Hkeep; [by apply lookup_replicate_2|].
      intros [y' x'] Hin'%grid_pairs_inGrid HP Heq. cbn [fst snd] in HP, Heq, Hin'.
      destruct (index_of_cell x' y' Hin') as [_ Hcell].
      rewrite Heq, Hxy in Hcell. injection Hcell as -> ->.
      rewrite Hv in HP. by injection HP.
  - rewrite !lookup_ge_None_2; [done| |lia].
    rewrite length_fmap, length_concat_wf by done. lia.
Qed.

Lemma generateSalt_length bytes :
  String.length (generateSalt bytes) = (2 * length bytes)%nat.
Proof.
  unfold generateSalt. induction bytes as [|b bytes IH]; [done|].
  simpl. rewrite IH. lia.
Qed.

Section ShotClaims.
Context `{ext : !Externals}.

(** With a salt that fits, [generateShotProof] refuses a wrong claim and
    otherwise hands the prover the canonical input. *)
Lemma generateShotProof_spec b x y isHit salt actual :
  wfGrid (grid b) → checkShotResult b x y = Ok actual →
  (String.length salt ≤ 31)%nat →
  (isHit ≠ actual →
     generateShotProof b x y isHit salt = Throw (ClaimMismatch isHit actual))
  ∧ (isHit = actual →
     generateShotProof b x y isHit salt
     = generateProof SHOT_RESULT (ShotResultInput {|
         si_board_cells := cellBit <$> concat (grid b);
         si_shot_x := x;
         si_shot_y := y;
         si_is_hit := if isHit then 1 else 0;
         si_salt := salt;
         si_board_commitment :=
           keccak256 (serializeBoard b +:+ salt
                        +:+ zeroBytes (32 - String.length salt)) |})).
Proof.
  intros Hwf Hactual Hsalt. unfold generateShotProof. rewrite Hactual. simpl. split.
  - intros Hne. by rewrite decide_True by (by intros ->).
  - intros ->. rewrite decide_False by (intros H; by apply H).
    rewrite boardCellsOf_wf by done. simpl.
    by rewrite generateBoardCommitment_Ok by done.
Qed.

(** A salt of 32 bytes or more stops every agreeing claim at the
    commitment. *)
Lemma generateShotProof_long_salt b x y isHit salt :
  wfGrid (grid b) → checkShotResult b x y = Ok isHit →
  (31 < String.length salt)%nat →
  generateShotProof b x y isHit salt = Throw Bytes32TooLong.
Proof.
  intros Hwf Hactual Hsalt. unfold generateShotProof. rewrite Hactual. simpl.
  rewrite decide_False by (intros H; by apply H).
  rewrite boardCellsOf_wf by done. simpl.
  by rewrite generateBoardCommitment_too_long.
Qed.

Lemma checkShotResult_wf b x y :
  wfGrid (grid b) → inGrid (x, y) →
  checkShotResult b x y = Ok (bool_decide (cellAt (grid b) (x, y) = Some 1)).
Proof.
  intros Hwf Hin. unfold checkShotResult.
  pose proof Hin as [Hx Hy]. unfold BOARD_SIZE in Hx, Hy. simpl in Hx, Hy.
  destruct (Z.ltb_spec x 0); [lia|]. destruct (Z.leb_spec 10 x); [lia|].
  destruct (Z.ltb_spec y 0); [lia|]. destruct (Z.leb_spec 10 y); [lia|].
  simpl. destruct (wfGrid_cellAt _ _ Hwf Hin) as [v (row & Hrow & _)%cellAt_Some].
  simpl in Hrow. by rewrite (grid_get_cellAt _ _ _ _ Hrow).
Qed.

(** The claim is checked before anything is computed from the salt: a
    claim that differs from the answer of [checkShotResult] is refused
    whatever the salt. *)
Lemma generateShotProof_mismatch b x y isHit salt actual :
  checkShotResult b x y = Ok actual → isHit ≠ actual →
  generateShotProof b x y isHit salt = Throw (ClaimMismatch isHit actual).
Proof.
  intros Hactual Hne. unfold generateShotProof. rewrite Hactual. cbn [bind].
  by rewrite decide_True by (by intros ->).
Qed.

(** Every salt of [generateSalt] is such a salt. *)
Lemma generateShotProof_any_generated_salt b x y isHit randomBytes16 :
  wfGrid (grid b) → checkShotResult b x y = Ok isHit →
  length randomBytes16 = 16%nat →
  generateShotProof b x y isHit (generateSalt randomBytes16) = Throw Bytes32TooLong.
Proof.
  intros Hwf Hactual Hlen. apply generateShotProof_long_salt; try done.
  rewrite generateSalt_length, Hlen. lia.
Qed.

End ShotClaims.

(** Claim C4, at a salt of [generateSalt].  The board of [spacedFleet]
    has a ship at (0, 0); the salt is the one [generateSalt] makes of
    sixteen zero bytes, 32 characters.  The claim "hit" agrees with
    [checkShotResult], and yet no input is built and the prover is not
    called: [generateShotProof] throws the error of the 32-byte encoding,
    whatever the hash and the prover are.  It does so at every board with
    a ten by ten grid, every coordinate, every agreeing claim and every
    salt that [generateSalt] can make.  The rest of the claim holds: a
    claim that disagrees is refused with the claim-mismatch error for
    every salt, and with a salt of at most 31 bytes an agreeing claim
    hands the prover the flattened cells, the coordinate, the claim as a
    0/1 flag, the salt and the commitment computed from board and salt. *)
Theorem generateShotProof_generated_salt_throws :
  String.length generatedSalt = 32%nat
  ∧ checkShotResult spacedBoard 0 0 = Ok true
  ∧ (∀ ext : Externals,
       @generateShotProof ext spacedBoard 0 0 true generatedSalt
       = Throw Bytes32TooLong)
  ∧ (∀ (ext : Externals) b x y isHit randomBytes16,
       wfGrid (grid b) → checkShotResult b x y = Ok isHit →
       length randomBytes16 = 16%nat →
       @generateShotProof ext b x y isHit (generateSalt randomBytes16)
       = Throw Bytes32TooLong)
  ∧ (∀ (ext : Externals) b x y isHit salt actual,
       checkShotResult b x y = Ok actual → isHit ≠ actual →
       @generateShotProof ext b x y isHit salt = Throw (ClaimMismatch isHit actual))
  ∧ (∀ (ext : Externals) b x y isHit salt,
       wfGrid (grid b) → checkShotResult b x y = Ok isHit →
       (String.length salt ≤ 31)%nat →
       @generateShotProof ext b x y isHit salt
       = @generateProof ext SHOT_RESULT (ShotResultInput {|
           si_board_cells := cellBit <$> concat (grid b);
           si_shot_x := x;
           si_shot_y := y;
           si_is_hit := if isHit then 1 else 0;
           si_salt := salt;
           si_board_commitment :=
             @keccak256 ext (serializeBoard b +:+ salt
                               +:+ zeroBytes (32 - String.length salt)) |})).
Proof.
  assert (wfGrid (grid spacedBoard)) as Hwf
    by (apply (bool_decide_unpack _); vm_compute; exact I).
  split; [reflexivity|]. split; [reflexivity|]. split; [|split; [|split]].
  - intros ext. apply generateShotProof_any_generated_salt; done.
  - intros ext b x y isHit bytes Hgrid Hactual Hlen.
    by apply generateShotProof_any_generated_salt.
  - intros ext b x y isHit salt actual Hactual Hne.
    by apply generateShotProof_mismatch.
  - intros ext b x y isHit salt Hgrid Hactual Hsalt.
    by apply (generateShotProof_spec b x y isHit salt isHit Hgrid Hactual Hsalt).
Qed.

(** Claim C2, at a shot map with a miss.  All 17 ship cells were hit and
    one shot missed at (9, 9), the cell of index 99.  The game-end claim is
    built, and its shot history has a 0 at index 99: the history is the
    one of the map without the miss, the ship cells and nothing else. *)
Theorem shotHistory_omits_misses :
  (9, 9) ∈ misses sunkWithOneMiss
  ∧ checkAllShipsSunk spacedBoard sunkWithOneMiss = true
  ∧ cellOfIndex 99 = (9, 9)
  ∧ shotHistoryOf sunkWithOneMiss !! 99%nat = Some (Some 0)
  ∧ shotHistoryOf sunkWithOneMiss = shotHistoryOf allShipCellsHit
  ∧ (∀ ext : Externals,
       @generateGameEndProof ext spacedBoard sunkWithOneMiss "pepper"
       = generateProof GAME_END (GameEndInputOf {|
           ge_board_cells := concat (grid spacedBoard);
           ge_shot_history := Some <$> concat (grid spacedBoard);
           ge_salt := "pepper";
           ge_board_commitment :=
             keccak256 (serializeBoard spacedBoard +:+ "pepper" +:+ zeroBytes 26);
           ge_shot_history_hash :=
             keccak256 (joinArray (shotHistoryOf allShipCellsHit)) |})).
Proof.
  split; [apply list_elem_of_singleton; reflexivity|].
  repeat split.
Qed.

(** * Game phases *)

Lemma phaseLe_refl p : phaseLe p p.
Proof. unfold phaseLe. lia. Qed.

Lemma phaseLe_GAME_OVER p : phaseLe p GAME_OVER.
Proof. by destruct p; unfold phaseLe; simpl; lia. Qed.

Section PhaseClaims.
Context `{ext : !Externals}.

Lemma handleOpponentShot_phase st x y :
  gamePhase (handleOpponentShot st x y) = gamePhase st
  ∨ gamePhase (handleOpponentShot st x y) = GAME_OVER.
Proof.
  unfold handleOpponentShot.
  destruct (account st), (gameAddress st), (playerBoard st), (playerBoardSalt st);
    try by left.
  destruct (bind _ _) as [isHit|e]; [|by left].
  destruct (_ && _); [|by left].
  destruct (bind _ _); [by right|by left].
Qed.

(** The phase an event leaves behind. *)
Lemma processEvent_phase st ev :
  match ev with
  | board_submitted player allBoardsSubmitted =>
      gamePhase (processEvent st ev)
      = if sameAddress player (account st) then WAITING_FOR_OPPONENT_BOARD
        else if allBoardsSubmitted then PLAYING else gamePhase st
  | shot_fired _ _ _ =>
      gamePhase (processEvent st ev) = gamePhase st
      ∨ gamePhase (processEvent st ev) = GAME_OVER
  | game_over _ => gamePhase (processEvent st ev) = GAME_OVER
  | _ => gamePhase (processEvent st ev) = gamePhase st
  end.
Proof.
  destruct ev as [| |player allBoards| |player x y|player x y isHit|w| | | |];
    simpl; try done.
  - destruct (sameAddress player (account st)); [done|]. by destruct allBoards.
  - destruct (sameAddress player (account st)); simpl; [by left|].
    apply (handleOpponentShot_phase (setIsProcessingShot true st)).
  - by destruct (sameAddress player (account st)).
Qed.

(** Claim C8, amended.  Handling an event leaves the phase where it is or
    moves it forward in the order CONNECTING, WAITING_FOR_OPPONENT,
    PLACING_SHIPS, WAITING_FOR_OPPONENT_BOARD, PLAYING, GAME_OVER, for
    every event but a [board_submitted] that arrives late: the player's
    own one after WAITING_FOR_OPPONENT_BOARD, the opponent's final one
    after PLAYING. *)
Theorem processEvent_phase_in_order st ev :
  eventInOrder st ev →
  phaseLe (gamePhase st) (gamePhase (processEvent st ev)).
Proof.
  intros Hord. pose proof (processEvent_phase st ev) as Hphase.
  destruct ev as [| |player allBoards| |player x y|player x y isHit|w| | | |];
    simpl in Hord; try (rewrite Hphase; apply phaseLe_refl).
  - rewrite Hphase. destruct (sameAddress player (account st)); [done|].
    destruct allBoards; [done|apply phaseLe_refl].
  - destruct Hphase as [-> | ->]; [apply phaseLe_refl|apply phaseLe_GAME_OVER].
  - rewrite Hphase. apply phaseLe_GAME_OVER.
Qed.

(** Outside that condition the phase does go back. *)
Lemma processEvent_phase_regresses st ev :
  ¬ eventInOrder st ev →
  ¬ phaseLe (gamePhase st) (gamePhase (processEvent st ev)).
Proof.
  intros Hord. pose proof (processEvent_phase st ev) as Hphase.
  destruct ev as [| |player allBoards| |player x y|player x y isHit|w| | | |];
    simpl in Hord; try (by destruct Hord).
  rewrite Hphase. destruct (sameAddress player (account st)); [done|].
  destruct allBoards; [done|by destruct Hord].
Qed.

End PhaseClaims.

Lemma processEvent_phase_in_order_witness :
  eventInOrder (initialGameState (Some "0xA1")) (board_submitted "0xa1" false)
  ∧ phaseLe CONNECTING
      (gamePhase (@processEvent echoExternals (initialGameState (Some "0xA1"))
                    (board_submitted "0xa1" false))).
Proof.
  assert (eventInOrder (initialGameState (Some "0xA1")) (board_submitted "0xa1" false))
    as Hord by (vm_compute; lia).
  split; [exact Hord|].
  exact (@processEvent_phase_in_order echoExternals _ _ Hord).
Defined.

Lemma stale_board_submitted_counterexample :
  @reachable echoExternals
    (@processEvent echoExternals (initialGameState (Some "0xA1")) (game_over "0xB2"))
  ∧ gamePhase (@processEvent echoExternals (initialGameState (Some "0xA1"))
                 (game_over "0xB2")) = GAME_OVER
  ∧ gamePhase (@processEvent echoExternals
                 (@processEvent echoExternals (initialGameState (Some "0xA1"))
                    (game_over "0xB2"))
                 (board_submitted "0xa1" true)) = WAITING_FOR_OPPONENT_BOARD
  ∧ ¬ phaseLe GAME_OVER WAITING_FOR_OPPONENT_BOARD.
Proof.
  split; [apply reachable_event, reachable_initial|].
  split; [reflexivity|]. split; [reflexivity|].
  unfold phaseLe. simpl. lia.
Qed.

(** * Interactive placement *)

(** On a ten by ten grid the scan finishes, and finds a ship exactly when
    an inspected cell of the grid holds one. *)
Lemma anyShip_wf g cs :
  wfGrid g →
  ∃ found, anyShip g cs = Ok found
           ∧ (found = true ↔ ∃ c, c ∈ cs ∧ inGrid c ∧ cellAt g c = Some 1).
Proof.
  intros Hwf. induction cs as [|[cx cy] cs (found & Hrun & Hfound)]; simpl.
  - exists false. split; [done|]. split; [done|].
    intros (c & Hc & _). by apply elem_of_nil in Hc.
  - destruct (decide (inGrid (cx, cy))) as [Hin|Hout].
    + pose proof Hin as [Hx Hy]. unfold BOARD_SIZE in *. simpl in Hx, Hy.
      destruct (Z.ltb_spec cx 0); [lia|]. destruct (Z.leb_spec 10 cx); [lia|].
      destruct (Z.ltb_spec cy 0); [lia|]. destruct (Z.leb_spec 10 cy); [lia|].
      simpl.
      destruct (wfGrid_cellAt g _ Hwf Hin) as [v Hv].
      pose proof Hv as (row & Hrow & _)%cellAt_Some. simpl in Hrow.
      rewrite (grid_get_cellAt _ _ _ _ Hrow), Hv. simpl.
      destruct (decide (Some v = Some 1)) as [Hone|Hnot].
      * exists true. split; [done|]. split; [|done]. intros _.
        exists (cx, cy). split; [left|]. split; [done|]. by rewrite Hv.
      * exists found. split; [done|]. rewrite Hfound. split.
        -- intros (c & Hc & ?). exists c. split; [by right|done].
        -- intros (c & [->|Hc]%elem_of_cons & Hc1 & Hc2).
           ++ rewrite Hv in Hc2. done.
           ++ by exists c.
    + assert ((cx <? 0) || (BOARD_SIZE <=? cx) || (cy <? 0) || (BOARD_SIZE <=? cy) = true)
        as ->.
      { unfold inGrid, BOARD_SIZE in *. simpl in Hout.
        destruct (Z.ltb_spec cx 0); [done|]. destruct (Z.leb_spec 10 cx); [done|].
        destruct (Z.ltb_spec cy 0); [done|]. destruct (Z.leb_spec 10 cy); [done|].
        lia. }
      exists found. split; [done|]. rewrite Hfound. split.
      * intros (c & Hc & ?). exists c. split; [by right|done].
      * intros (c & [->|Hc]%elem_of_cons & Hc1 & Hc2); [done|by exists c].
Qed.

(** The inspected cells are the cells next to a cell of the ship. *)
Lemma elem_of_neighbourhood s c' :
  c' ∈ neighbourhood s ↔ ∃ c, c ∈ footprint s ∧ adjacent c c'.
Proof.
  unfold neighbourhood, footprint, adjacent. rewrite list_elem_of_bind. split.
  - intros (i & (dx & (dy & ->%list_elem_of_singleton & Hdy%elem_of_seqZ)%list_elem_of_bind
              & Hdx%elem_of_seqZ)%list_elem_of_bind & Hi).
    exists (shipCell s i). split; [by apply list_elem_of_fmap_2|]. simpl. lia.
  - intros (c & (i & -> & Hi)%list_elem_of_fmap & Hx & Hy).
    exists i. split; [|done]. apply list_elem_of_bind.
    exists (c'.1 - (shipCell s i).1). rewrite elem_of_seqZ. split; [|lia].
    apply list_elem_of_bind. exists (c'.2 - (shipCell s i).2).
    rewrite elem_of_seqZ. split; [|lia].
    apply list_elem_of_singleton. destruct c'. simpl. f_equal; lia.
Qed.

Lemma adjacent_refl c : adjacent c c.
Proof. unfold adjacent. lia. Qed.

(** A placement is accepted only inside the grid and away from every
    ship cell. *)
Lemma isValidPlacement_true b s :
  wfGrid (grid b) → isValidPlacement b s = Ok true →
  shipInBounds s
  ∧ ∀ c c', c ∈ footprint s → adjacent c c' → inGrid c' → cellAt (grid b) c' ≠ Some 1.
Proof.
  intros Hwf. unfold isValidPlacement.
  destruct (if ship_horizontal s then _ else _) eqn:Hoob; [done|].
  destruct (anyShip_wf (grid b) (neighbourhood s) Hwf) as (found & -> & Hfound).
  simpl. intros [= Hneg]. destruct found; [done|]. split.
  - unfold shipInBounds, footprint. apply Forall_fmap, Forall_seqZ.
    intros i Hi. unfold shipCell, inGrid, BOARD_SIZE in *.
    destruct (ship_horizontal s); simpl;
      repeat (apply orb_false_iff in Hoob as [Hoob ?]);
      repeat match goal with
             | H : (_ <? _) = false |- _ => apply Z.ltb_ge in H
             | H : (_ <=? _) = false |- _ => apply Z.leb_gt in H
             end; lia.
  - intros c c' Hc Hadj Hin Hone.
    assert (false = true); [|done]. apply Hfound.
    exists c'. split; [|done]. apply elem_of_neighbourhood. eauto.
Qed.

(** Next to a ship cell the placement is refused. *)
Lemma isValidPlacement_near_ship b s c c' :
  wfGrid (grid b) → c ∈ footprint s → adjacent c c' → inGrid c' →
  cellAt (grid b) c' = Some 1 →
  isValidPlacement b s = Ok false.
Proof.
  intros Hwf Hc Hadj Hin Hone. unfold isValidPlacement.
  destruct (if ship_horizontal s then _ else _); [done|].
  destruct (anyShip_wf (grid b) (neighbourhood s) Hwf) as (found & -> & Hfound).
  simpl. replace found with true; [done|]. symmetry. apply Hfound.
  exists c'. split; [|done]. apply elem_of_neighbourhood. eauto.
Qed.

Lemma markCells_count cs : ∀ g,
  wfGrid g → NoDup cs → Forall inGrid cs →
  (∀ c, c ∈ cs → cellAt g c ≠ Some 1) →
  wfGrid (foldl (λ g c, grid_set g c.1 c.2 1) g cs)
  ∧ occupiedCount (foldl (λ g c, grid_set g c.1 c.2 1) g cs)
    = (occupiedCount g + length cs)%nat.
Proof.
  induction cs as [|c cs IH]; intros g Hwf Hnd Hin Hfree; cbn [foldl].
  - split; [done|]. simpl. lia.
  - apply NoDup_cons in Hnd as [Hfresh Hnd].
    apply Forall_cons in Hin as [Hc Hin].
    destruct (IH (grid_set g c.1 c.2 1)) as [Hwf' Hcount]; auto using wfGrid_grid_set.
    { intros c' Hc'. rewrite cellAt_grid_set_ne.
      - apply Hfree. by right.
      - destruct c. simpl. by intros ->. }
    split; [done|]. rewrite Hcount.
    destruct (wfGrid_cellAt g c Hwf Hc) as [old Hold].
    rewrite (occupiedCount_grid_set g c old Hold).
    + simpl. lia.
    + intros ->. eapply Hfree; [left|done].
Qed.

Lemma addShipToBoard_Ok_inv b s b' :
  wfGrid (grid b) → addShipToBoard b s = Ok b' →
  isValidPlacement b s = Ok true
  ∧ ships b' = ships b ++ [s]
  ∧ wfGrid (grid b')
  ∧ occupiedCount (grid b') = (occupiedCount (grid b) + Z.to_nat (ship_size s))%nat.
Proof.
  intros Hwf. unfold addShipToBoard.
  destruct (isValidPlacement b s) as [[]|] eqn:Hvalid; simpl; try done.
  intros [= <-]. simpl. split; [done|]. split; [done|].
  destruct (isValidPlacement_true _ _ Hwf Hvalid) as [Hin Hfree].
  rewrite <-length_footprint. apply markCells_count; try done.
  - apply NoDup_footprint.
  - intros c Hc. apply (Hfree c c Hc (adjacent_refl c)).
    eapply Forall_forall; [apply Hin|done].
Qed.

Lemma placementInv_initial : placementInv initialPlacement.
Proof.
  split; [done|]. split; [apply wfGrid_emptyGrid|]. split; [done|]. by intros s.
Qed.

Lemma placementInv_startNextShip st : placementInv st → placementInv (startNextShip st).
Proof.
  intros Hinv. unfold startNextShip.
  destruct (shipsToPlace st) as [|t rest] eqn:Hrest; [done|].
  destruct (placingShip st) eqn:Hplacing; [done|].
  destruct Hinv as (Hsizes & Hwf & Hcount & Hship).
  split; [simpl; by rewrite Hrest in Hsizes|]. split; [done|]. split; [done|].
  simpl. intros s [= <-]. by exists t, rest.
Qed.

Lemma placementInv_handleRotate st : placementInv st → placementInv (handleRotate st).
Proof.
  intros Hinv. unfold handleRotate.
  destruct (placingShip st) as [s|] eqn:Hplacing; [|done].
  destruct Hinv as (Hsizes & Hwf & Hcount & Hship).
  split; [done|]. split; [done|]. split; [done|].
  simpl. intros s' [= <-]. by apply (Hship s).
Qed.

Lemma placementInv_handleMouseMove st coords :
  placementInv st → placementInv (handleMouseMove st coords).
Proof.
  intros Hinv. unfold handleMouseMove.
  destruct (placingShip st) as [s|] eqn:Hplacing; [|done].
  destruct Hinv as (Hsizes & Hwf & Hcount & Hship).
  destruct coords as [[cx cy]|]; (split; [done|]; split; [done|]; split; [done|]); simpl.
  - intros s' [= <-]. by apply (Hship s).
  - intros s' [= <-]. by apply (Hship s).
Qed.

Lemma placementInv_handleBoardClick st :
  placementInv st → placementInv (handleBoardClick st).
Proof.
  intros Hinv. unfold handleBoardClick.
  destruct (placingShip st) as [s|] eqn:Hplacing; [|done].
  destruct (hoverPosition st); [|done].
  destruct (isValidPlacement (pl_board st) s) as [[]|]; try done.
  destruct (addShipToBoard (pl_board st) s) as [newBoard|] eqn:Hadd; [|done].
  destruct Hinv as (Hsizes & Hwf & Hcount & Hship).
  apply addShipToBoard_Ok_inv in Hadd as (_ & Hships & Hwf' & Hcount'); [|done].
  destruct (Hship s Hplacing) as (t & rest & Hrest & Hsize).
  split; [|split; [done|split]]; simpl.
  - rewrite Hrest in Hsizes. rewrite fmap_cons, <-Hsize in Hsizes.
    rewrite Hrest. cbn [tail]. rewrite Hships, fmap_app, <-(assoc_L (++)).
    exact Hsizes.
  - rewrite Hcount', Hcount, Hships, fmap_app, sum_list_with_app. simpl. lia.
  - done.
Qed.

Lemma placementInv_handleReset st : placementInv (handleReset st).
Proof.
  split; [done|]. split; [apply wfGrid_emptyGrid|]. split; [done|]. by intros s.
Qed.

Lemma placementInv_run actions : placementInv (placementRun actions).
Proof.
  unfold placementRun.
  assert (placementInv (startNextShip initialPlacement)) as Hinit
    by apply placementInv_startNextShip, placementInv_initial.
  revert Hinit. generalize (startNextShip initialPlacement).
  induction actions as [|a actions IH]; intros st Hst; [done|].
  cbn [foldl]. apply IH. unfold placementStep. apply placementInv_startNextShip.
  destruct a; auto using placementInv_handleMouseMove, placementInv_handleBoardClick,
    placementInv_handleRotate, placementInv_handleReset.
Qed.

Lemma offered_sizes_occurrences sizes :
  sizes ≡ₚ shipTypeValue <$> initialShipsToPlace →
  length sizes = 5%nat ∧ occurrences 5 sizes = 1%nat ∧ occurrences 4 sizes = 1%nat
  ∧ occurrences 3 sizes = 1%nat ∧ occurrences 1 sizes = 1%nat.
Proof.
  intros H. rewrite !(occurrences_perm _ _ _ H).
  split; [by rewrite (Permutation_length H)|]. done.
Qed.

(** Claim C9.  The placement component hands out ships of sizes 5, 4, 3,
    2, 1, which is not the composition 5, 4, 3, 3, 2 that [validateBoard]
    asks for.  Every board with a ship list of the sizes handed out is
    rejected by [validateBoard]; such a board has 15 occupied cells, when
    [createBoard] makes it and when the component itself completes it. *)
Theorem offered_fleet_fails_validation :
  shipTypeValue <$> initialShipsToPlace = [5; 4; 3; 2; 1]
  ∧ ¬ (shipTypeValue <$> initialShipsToPlace ≡ₚ SHIP_SIZES)
  ∧ (∀ b, ship_size <$> ships b ≡ₚ shipTypeValue <$> initialShipsToPlace →
       validateBoard b = Throw (InvalidShipsOfSize 3))
  ∧ (∀ ss b, ship_size <$> ss ≡ₚ shipTypeValue <$> initialShipsToPlace →
       createBoard ss = Ok b →
       occupiedCount (grid b) = 15%nat ∧ occupiedCount (grid b) ≠ 18%nat)
  ∧ (∀ actions b, handleComplete (placementRun actions) = Some b →
       ship_size <$> ships b = [5; 4; 3; 2; 1]
       ∧ occupiedCount (grid b) = 15%nat
       ∧ validateBoard b = Throw (InvalidShipsOfSize 3)).
Proof.
  split; [done|]. split; [|split; [|split]].
  - intros H. apply (occurrences_perm 1) in H. discriminate H.
  - intros b (Hlen & H5 & H4 & H3 & _)%offered_sizes_occurrences.
    rewrite length_fmap in Hlen. by apply validateBoard_one_cruiser.
  - intros ss b Hsizes (_ & _ & _ & _ & _ & ->)%createBoard_Ok_inv.
    rewrite (cells_perm _ _ Hsizes). split; [done|discriminate].
  - intros actions b Hdone. unfold handleComplete in Hdone.
    destruct (placementInv_run actions) as (Hsizes & _ & Hcount & _).
    destruct (shipsToPlace (placementRun actions)); [|done].
    injection Hdone as <-. rewrite app_nil_r in Hsizes.
    split; [done|]. split; [by rewrite Hcount, Hsizes|].
    apply validateBoard_one_cruiser; try (by rewrite Hsizes).
    by rewrite <-(length_fmap ship_size), Hsizes.
Qed.

Lemma offered_fleet_fails_validation_witness :
  (createBoard offeredSizesFleet = Ok offeredSizesBoard
   ∧ validateBoard offeredSizesBoard = Throw (InvalidShipsOfSize 3)
   ∧ occupiedCount (grid offeredSizesBoard) = 15%nat)
  ∧ (handleComplete (placementRun manualPlacement) = Some placedByHand
     ∧ ship_size <$> ships placedByHand = [5; 4; 3; 2; 1]
     ∧ occupiedCount (grid placedByHand) = 15%nat
     ∧ validateBoard placedByHand = Throw (InvalidShipsOfSize 3)).
Proof.
  destruct offered_fleet_fails_validation as (_ & _ & Hthrow & Hcount & Hrun).
  split.
  - split; [reflexivity|]. split.
    + apply Hthrow. exact (Permutation_refl _).
    + apply (Hcount offeredSizesFleet); [exact (Permutation_refl _)|reflexivity].
  - split; [reflexivity|]. apply (Hrun manualPlacement). reflexivity.
Defined.

(** * The no-touch rule *)

Lemma allFree_wf g cs :
  wfGrid g →
  ∃ free, allFree g cs = Ok free
          ∧ (free = false ↔ ∃ c, c ∈ cs ∧ inGrid c ∧ cellAt g c ≠ Some 0).
Proof.
  intros Hwf. induction cs as [|[cx cy] cs (free & Hrun & Hfree)]; simpl.
  - exists true. split; [done|]. split; [done|].
    intros (c & Hc & _). by apply elem_of_nil in Hc.
  - destruct (decide (inGrid (cx, cy))) as [Hin|Hout].
    + pose proof Hin as [Hx Hy]. unfold BOARD_SIZE in *. simpl in Hx, Hy.
      destruct (Z.ltb_spec cx 0); [lia|]. destruct (Z.leb_spec 10 cx); [lia|].
      destruct (Z.ltb_spec cy 0); [lia|]. destruct (Z.leb_spec 10 cy); [lia|].
      simpl.
      destruct (wfGrid_cellAt g _ Hwf Hin) as [v Hv].
      pose proof Hv as (row & Hrow & _)%cellAt_Some. simpl in Hrow.
      rewrite (grid_get_cellAt _ _ _ _ Hrow), Hv. simpl.
      destruct (decide (Some v ≠ Some 0)) as [Hnot|Hzero].
      * exists false. split; [done|]. split; [|done]. intros _.
        exists (cx, cy). split; [left|]. split; [done|]. by rewrite Hv.
      * exists free. split; [done|]. rewrite Hfree. split.
        -- intros (c & Hc & ?). exists c. split; [by right|done].
        -- intros (c & [->|Hc]%elem_of_cons & Hc1 & Hc2).
           ++ rewrite Hv in Hc2. done.
           ++ by exists c.
    + assert ((cx <? 0) || (BOARD_SIZE <=? cx) || (cy <? 0) || (BOARD_SIZE <=? cy) = true)
        as ->.
      { unfold inGrid, BOARD_SIZE in *. simpl in Hout.
        destruct (Z.ltb_spec cx 0); [done|]. destruct (Z.leb_spec 10 cx); [done|].
        destruct (Z.ltb_spec cy 0); [done|]. destruct (Z.leb_spec 10 cy); [done|].
        lia. }
      exists free. split; [done|]. rewrite Hfree. split.
      * intros (c & Hc & ?). exists c. split; [by right|done].
      * intros (c & [->|Hc]%elem_of_cons & Hc1 & Hc2); [done|by exists c].
Qed.

(** The attempt inspects every cell next to a cell of the ship. *)
Lemma elem_of_attemptCells size x y horizontal c c' :
  c ∈ footprint (mkShip size x y horizontal) → adjacent c c' →
  c' ∈ attemptCells size x y horizontal.
Proof.
  unfold footprint, adjacent, attemptCells, shipCell.
  cbn [ship_size ship_x ship_y ship_horizontal].
  intros (i & -> & Hi%elem_of_seqZ)%list_elem_of_fmap [Hx Hy].
  apply list_elem_of_bind.
  destruct horizontal; cbn [fst snd] in Hx, Hy.
  - exists (c'.1 - x). rewrite elem_of_seqZ. split; [|lia].
    apply list_elem_of_bind. exists (c'.2 - y). rewrite elem_of_seqZ. split; [|lia].
    apply list_elem_of_singleton. destruct c'. cbn [fst snd]. f_equal; lia.
  - exists (c'.2 - y). rewrite elem_of_seqZ. split; [|lia].
    apply list_elem_of_bind. exists (c'.1 - x). rewrite elem_of_seqZ. split; [|lia].
    apply list_elem_of_singleton. destruct c'. cbn [fst snd]. f_equal; lia.
Qed.

Lemma attemptValid_near_ship g size x y horizontal c c' :
  wfGrid g → c ∈ footprint (mkShip size x y horizontal) → adjacent c c' →
  inGrid c' → cellAt g c' = Some 1 →
  attemptValid g size x y horizontal = Ok false.
Proof.
  intros Hwf Hc Hadj Hin Hone. unfold attemptValid.
  destruct (allFree_wf g (attemptCells size x y horizontal) Hwf) as (free & -> & Hfree).
  f_equal. apply Hfree. exists c'. split; [by eapply elem_of_attemptCells|].
  split; [done|]. by rewrite Hone.
Qed.

(** Both placement rules turn down a ship that touches a ship of the
    board. *)
Lemma placement_rules_reject_touching ss b s s' :
  createBoard ss = Ok b → s' ∈ ss → touching s s' →
  isValidPlacement b s = Ok false
  ∧ addShipToBoard b s = Throw InvalidPlacement
  ∧ attemptValid (grid b) (ship_size s) (ship_x s) (ship_y s) (ship_horizontal s)
    = Ok false.
Proof.
  intros (_ & Hwf & _ & Hin & Hcells & _)%createBoard_Ok_inv Hs' (c & c' & Hc & Hc' & Hadj).
  assert (c' ∈ ss ≫= footprint) as Hmem by (apply list_elem_of_bind; eauto).
  assert (inGrid c') as Hin' by (eapply Forall_forall; [apply Hin|done]).
  assert (cellAt (grid b) c' = Some 1) as Hone.
  { rewrite (Hcells _ Hin'). by rewrite decide_True. }
  assert (isValidPlacement b s = Ok false) as Hvalid
    by (by eapply isValidPlacement_near_ship).
  split; [done|]. split.
  - unfold addShipToBoard. by rewrite Hvalid.
  - destruct s. by apply (attemptValid_near_ship _ _ _ _ _ c c').
Qed.

(** Claim C10.  There is a valid ship set, two ships of which touch, that
    [createBoard] places and [validateBoard] accepts; [isValidPlacement],
    [addShipToBoard] and the attempt of the random generator refuse the
    second of the two ships next to the first. *)
Theorem touching_fleet_passes_validation :
  ∃ ss b s1 s2,
    validFleet ss
    ∧ s1 ∈ ss ∧ s2 ∈ ss ∧ s1 ≠ s2 ∧ touching s1 s2
    ∧ createBoard ss = Ok b
    ∧ validateBoard b = Ok true
    ∧ ∃ b1, createBoard [s1] = Ok b1
            ∧ isValidPlacement b1 s2 = Ok false
            ∧ addShipToBoard b1 s2 = Throw InvalidPlacement
            ∧ attemptValid (grid b1) (ship_size s2) (ship_x s2) (ship_y s2)
                (ship_horizontal s2) = Ok false.
Proof.
  exists stackedFleet, stackedBoard, (mkShip 5 0 0 true), (mkShip 4 0 1 true).
  split.
  { split; [exact (Permutation_refl _)|]. split.
    - apply (bool_decide_unpack _). vm_compute. exact I.
    - apply noSharedCell_NoDup. apply (bool_decide_unpack _). vm_compute. exact I. }
  split; [by left|]. split; [by right; left|]. split; [discriminate|].
  split.
  { exists (0, 0), (0, 1). split; [by left|]. split; [by left|].
    unfold adjacent. simpl. lia. }
  split; [reflexivity|]. split; [reflexivity|].
  eexists. split; [reflexivity|]. by repeat split.
Qed.

(** * More on createBoard *)

Lemma Forall_shipInBounds_cells ss :
  Forall shipInBounds ss ↔ Forall inGrid (ss ≫= footprint).
Proof.
  split; [apply Forall_inGrid_fleet|].
  induction ss as [|s ss IH]; [constructor|].
  rewrite bind_cons, Forall_app. intros [Hs Hss]. constructor; auto.
Qed.

(** Extra X1.  [createBoard] returns a board exactly when every ship lies
    inside the grid and no cell belongs to two ships; the grid of the
    board then has ten rows of ten cells, a 1 on the cells of the ships
    and a 0 everywhere else. *)
Theorem createBoard_succeeds_iff ss :
  ((∃ b, createBoard ss = Ok b) ↔ Forall shipInBounds ss ∧ noSharedCell ss)
  ∧ (∀ b, createBoard ss = Ok b →
       ships b = ss ∧ wfGrid (grid b)
       ∧ ∀ x y, inGrid (x, y) →
           cellAt (grid b) (x, y)
           = Some (if existsb (covers x y) ss then 1 else 0)).
Proof.
  split.
  - split.
    + intros [b (_ & _ & Hnd & Hin & _)%createBoard_Ok_inv].
      split; [by apply Forall_shipInBounds_cells|by apply noSharedCell_NoDup].
    + intros [Hin Hnd]. by apply createBoard_valid.
  - intros b (Hss & Hwf & _ & _ & Hcells & _)%createBoard_Ok_inv.
    split; [done|]. split; [done|]. intros x y Hin. rewrite (Hcells _ Hin).
    f_equal. destruct (existsb (covers x y) ss) eqn:Hex.
    + by rewrite decide_True by (by apply elem_of_fleet_cells).
    + rewrite decide_False; [done|]. intros ?%elem_of_fleet_cells. congruence.
Qed.

Lemma foldM_Throw_app {A B} (f : B → A → result B) l1 a l2 b b1 e :
  foldM f l1 b = Ok b1 → f b1 a = Throw e → foldM f (l1 ++ a :: l2) b = Throw e.
Proof.
  intros H1 Ha. rewrite foldM_app, H1. simpl. by rewrite Ha.
Qed.

Lemma createBoard_first_cell_error s rest e :
  0 < ship_size s →
  placeCell emptyGrid (shipCell s 0) = Throw e →
  createBoard (s :: rest) = Throw e.
Proof.
  intros Hsize Hcell. unfold createBoard. cbn [foldM]. unfold placeShip at 1, footprint.
  rewrite seqZ_cons by lia. rewrite fmap_cons. cbn [foldM]. by rewrite Hcell.
Qed.

(** Extra X2.  What [createBoard] reports for a first ship that starts
    outside the grid: past the right or lower edge the out-of-bounds error,
    left of the grid an overlap (the missing cell is not 0), above the grid
    a type error (the missing row has no cells). *)
Theorem createBoard_start_outside s rest :
  0 < ship_size s →
  (10 ≤ ship_x s ∨ 10 ≤ ship_y s →
     createBoard (s :: rest) = Throw (PlacementOutOfBounds (ship_x s) (ship_y s)))
  ∧ (ship_x s < 0 → 0 ≤ ship_y s < 10 →
     createBoard (s :: rest) = Throw (ShipOverlap (ship_x s) (ship_y s)))
  ∧ (ship_y s < 0 → ship_x s < 10 →
     createBoard (s :: rest) = Throw TypeError).
Proof.
  intros Hsize.
  assert (shipCell s 0 = (ship_x s, ship_y s)) as Hcell.
  { unfold shipCell. destruct (ship_horizontal s); f_equal; lia. }
  split; [|split].
  - intros Hout. apply createBoard_first_cell_error; [done|]. rewrite Hcell.
    unfold placeCell, BOARD_SIZE.
    destruct (Z.leb_spec 10 (ship_x s)); [done|].
    destruct (Z.leb_spec 10 (ship_y s)); [done|]. lia.
  - intros Hx Hy. apply createBoard_first_cell_error; [done|]. rewrite Hcell.
    unfold placeCell, BOARD_SIZE.
    destruct (Z.leb_spec 10 (ship_x s)); [lia|].
    destruct (Z.leb_spec 10 (ship_y s)); [lia|]. simpl.
    destruct (js_index_is_Some emptyGrid (ship_y s)) as [row Hrow]; [simpl; lia|].
    unfold grid_get. rewrite Hrow. simpl.
    assert (js_index row (ship_x s) = None) as ->.
    { unfold js_index. destruct (Z.ltb_spec (ship_x s) 0); [done|lia]. }
    by rewrite decide_False.
  - intros Hy Hx. apply createBoard_first_cell_error; [done|]. rewrite Hcell.
    unfold placeCell, BOARD_SIZE.
    destruct (Z.leb_spec 10 (ship_x s)); [lia|].
    destruct (Z.leb_spec 10 (ship_y s)); [lia|]. simpl.
    unfold grid_get, js_index. destruct (Z.ltb_spec (ship_y s) 0); [done|lia].
Qed.

Lemma createBoard_start_outside_witness :
  0 < ship_size (mkShip 2 (-1) 3 true)
  ∧ createBoard [mkShip 2 (-1) 3 true] = Throw (ShipOverlap (-1) 3).
Proof.
  assert (0 < ship_size (mkShip 2 (-1) 3 true)) as Hsize by (simpl; lia).
  split; [exact Hsize|].
  apply (proj1 (proj2 (createBoard_start_outside (mkShip 2 (-1) 3 true) [] Hsize)));
    simpl; lia.
Defined.

(** * More on validateBoard *)

Lemma occurrences_count_occ k l : occurrences k l = count_occ Z.eq_dec l k.
Proof.
  unfold occurrences. induction l as [|a l IH]; [done|].
  rewrite filter_cons. simpl. destruct (Z.eq_dec a k) as [->|Hne].
  - rewrite decide_True by done. simpl. by rewrite IH.
  - by rewrite decide_False.
Qed.

Lemma occurrences_not_elem k l : k ∉ l → occurrences k l = 0%nat.
Proof.
  unfold occurrences. induction l as [|a l IH]; [done|].
  intros [Hne Hk]%not_elem_of_cons. rewrite filter_cons_False by done. auto.
Qed.

(** A list of five sizes with one 5, one 4, two 3 and one 2 has nothing
    else in it. *)
Lemma standard_counts_perm l :
  length l = 5%nat → occurrences 5 l = 1%nat → occurrences 4 l = 1%nat →
  occurrences 3 l = 2%nat → occurrences 2 l = 1%nat → l ≡ₚ SHIP_SIZES.
Proof.
  intros Hlen H5 H4 H3 H2.
  assert (∀ l : list Z,
            length l = (occurrences 5 l + occurrences 4 l + occurrences 3 l
                        + occurrences 2 l
                        + length (filter (λ s : Z, (s ≠ 5 ∧ s ≠ 4 ∧ s ≠ 3 ∧ s ≠ 2)%Z) l))%nat)
    as Hsplit.
  { clear. intros l. unfold occurrences. induction l as [|a l IH]; [done|].
    rewrite !filter_cons. simpl length at 1. rewrite IH.
    repeat case_decide; simpl; lia. }
  pose proof (Hsplit l) as Hl. rewrite Hlen, H5, H4, H3, H2 in Hl.
  assert (filter (λ s : Z, (s ≠ 5 ∧ s ≠ 4 ∧ s ≠ 3 ∧ s ≠ 2)%Z) l = []) as Hnil.
  { apply length_zero_iff_nil. lia. }
  apply Permutation_count_occ with (eq_dec := Z.eq_dec). intros k.
  rewrite <-!occurrences_count_occ.
  destruct (decide (k = 5)) as [->|]; [by rewrite H5|].
  destruct (decide (k = 4)) as [->|]; [by rewrite H4|].
  destruct (decide (k = 3)) as [->|]; [by rewrite H3|].
  destruct (decide (k = 2)) as [->|]; [by rewrite H2|].
  rewrite (occurrences_not_elem k l).
  - symmetry. apply occurrences_not_elem. unfold SHIP_SIZES.
    rewrite !not_elem_of_cons. repeat split; try done. apply not_elem_of_nil.
  - intros Hk. eapply (filter_nil_not_elem_of _ l k); done.
Qed.

Lemma validateBoard_Ok_inv b v :
  validateBoard b = Ok v →
  v = true ∧ standardSizes (ships b)
  ∧ ∃ r, createBoard (ships b) = Ok r
         ∧ occupiedCount (grid b) = occupiedCount (grid r).
Proof.
  unfold validateBoard. case_decide as Hlen; [done|].
  change (countSizes SHIP_SIZES) with [(5, 1%nat); (4, 1%nat); (3, 2%nat); (2, 1%nat)].
  cbn [foldM bind]. rewrite !countSizes_get.
  destruct (decide (occurrences 5 (ship_size <$> ships b) ≠ 1%nat)) as [|H5%dec_stable];
    [done|]. cbn [bind].
  destruct (decide (occurrences 4 (ship_size <$> ships b) ≠ 1%nat)) as [|H4%dec_stable];
    [done|]. cbn [bind].
  destruct (decide (occurrences 3 (ship_size <$> ships b) ≠ 2%nat)) as [|H3%dec_stable];
    [done|]. cbn [bind].
  destruct (decide (occurrences 2 (ship_size <$> ships b) ≠ 1%nat)) as [|H2%dec_stable];
    [done|]. cbn [bind].
  destruct (createBoard (ships b)) as [r|e] eqn:Hr; [|done]. cbn [bind].
  case_decide as Hcount; [done|]. intros [= <-].
  split; [done|]. split; [|eauto].
  apply standard_counts_perm; try done. by rewrite length_fmap.
Qed.

Lemma validateBoard_Ok_true b :
  validateBoard b = Ok true
  ↔ standardSizes (ships b)
    ∧ (∃ r, createBoard (ships b) = Ok r)
    ∧ occupiedCount (grid b) = 17%nat.
Proof.
  split.
  - intros (_ & Hsizes & r & Hr & Hcount)%validateBoard_Ok_inv.
    split; [done|]. split; [eauto|].
    by rewrite Hcount, (createBoard_count_standard _ _ Hr Hsizes).
  - intros (Hsizes & [r Hr] & Hcount).
    rewrite validateBoard_standard, Hr by done. simpl.
    rewrite decide_False; [done|].
    rewrite Hcount, (createBoard_count_standard _ _ Hr Hsizes). by intros ?.
Qed.

(** Extra X3.  [validateBoard] never answers false.  It accepts a board
    exactly when the ship sizes are 5, 4, 3, 3, 2 in some order, the ships
    can be placed by [createBoard], and the stored grid has 17 cells equal
    to 1: where those cells are is not compared. *)
Theorem validateBoard_accepts_iff b :
  (∀ v, validateBoard b = Ok v → v = true)
  ∧ (validateBoard b = Ok true
     ↔ standardSizes (ships b)
       ∧ (∃ r, createBoard (ships b) = Ok r)
       ∧ occupiedCount (grid b) = 17%nat).
Proof.
  split; [intros v Hv; by apply validateBoard_Ok_inv in Hv as [? _]|].
  apply validateBoard_Ok_true.
Qed.

(** Extra X27.  A valid fleet stored with the grid that [createBoard]
    makes of any other fleet of the standard sizes passes [validateBoard]:
    the grid of the board need not be the grid of its ships. *)
Theorem validateBoard_foreign_grid ss ss' b' :
  validFleet ss → standardSizes ss' → createBoard ss' = Ok b' →
  validateBoard (mkBoard ss (grid b')) = Ok true.
Proof.
  intros (Hsizes & Hin & Hdisj) Hsizes' Hb'.
  apply validateBoard_Ok_true. simpl. split; [done|].
  split; [by apply createBoard_valid|].
  by eapply createBoard_count_standard.
Qed.

Lemma validateBoard_foreign_grid_witness :
  validFleet spacedFleet ∧ standardSizes (ships columnBoard)
  ∧ createBoard (ships columnBoard) = Ok columnBoard
  ∧ grid columnBoard ≠ grid spacedBoard
  ∧ validateBoard (mkBoard spacedFleet (grid columnBoard)) = Ok true.
Proof.
  assert (standardSizes (ships columnBoard)) as Hsizes
    by (unfold standardSizes; simpl; reflexivity).
  assert (createBoard (ships columnBoard) = Ok columnBoard) as Hb
    by (vm_compute; reflexivity).
  split; [exact validFleet_spacedFleet|]. split; [exact Hsizes|]. split; [exact Hb|].
  split; [discriminate|].
  exact (validateBoard_foreign_grid spacedFleet (ships columnBoard) columnBoard
           validFleet_spacedFleet Hsizes Hb).
Defined.

(** * Placement rules *)

Lemma placementBounds_shipInBounds s : placementBounds s → shipInBounds s.
Proof.
  intros Hb. unfold shipInBounds, footprint. apply Forall_fmap, Forall_seqZ.
  intros i Hi. unfold placementBounds, shipCell, inGrid, BOARD_SIZE in *.
  destruct (ship_horizontal s); simpl; lia.
Qed.

Lemma placementBounds_test s :
  (if ship_horizontal s
   then (ship_x s <? 0) || (BOARD_SIZE <? ship_x s + ship_size s)
        || (ship_y s <? 0) || (BOARD_SIZE <=? ship_y s)
   else (ship_x s <? 0) || (BOARD_SIZE <=? ship_x s)
        || (ship_y s <? 0) || (BOARD_SIZE <? ship_y s + ship_size s)) = false
  ↔ placementBounds s.
Proof.
  unfold placementBounds, BOARD_SIZE. destruct (ship_horizontal s);
    rewrite !orb_false_iff, !Z.ltb_ge, ?Z.leb_gt; lia.
Qed.

Lemma isValidPlacement_spec b s :
  wfGrid (grid b) →
  ∃ valid, isValidPlacement b s = Ok valid
           ∧ (valid = true ↔ placementBounds s ∧ clearOf (grid b) s).
Proof.
  intros Hwf. unfold isValidPlacement.
  destruct (if ship_horizontal s then _ else _) eqn:Htest.
  - exists false. split; [done|]. split; [done|]. intros [Hb _].
    apply placementBounds_test in Hb. congruence.
  - apply placementBounds_test in Htest.
    destruct (anyShip_wf (grid b) (neighbourhood s) Hwf) as (found & -> & Hfound).
    exists (negb found). split; [done|]. split.
    + intros Hneg. split; [done|]. intros c c' Hc Hadj Hin Hone.
      destruct found; [done|]. assert (false = true); [|done]. apply Hfound.
      exists c'. split; [|done]. apply elem_of_neighbourhood. eauto.
    + intros [_ Hclear]. destruct found; [|done]. exfalso.
      destruct (proj1 Hfound eq_refl) as (c' & (c & Hc & Hadj)%elem_of_neighbourhood
                                           & Hin & Hone).
      by eapply Hclear.
Qed.

(** Extra X4.  On a ten by ten grid [isValidPlacement] never throws, and
    it accepts a ship exactly when the ship passes the bounds test and no
    cell on or next to it (diagonals included) holds a ship; every cell of
    a ship it accepts is a cell of the grid. *)
Theorem isValidPlacement_accepts_iff b s :
  wfGrid (grid b) →
  ∃ valid, isValidPlacement b s = Ok valid
           ∧ (valid = true ↔ placementBounds s ∧ clearOf (grid b) s)
           ∧ (valid = true → shipInBounds s).
Proof.
  intros Hwf. destruct (isValidPlacement_spec b s Hwf) as (valid & Hrun & Hvalid).
  exists valid. split; [done|]. split; [done|].
  intros [Hbounds _]%Hvalid. by apply placementBounds_shipInBounds.
Qed.

Lemma isValidPlacement_accepts_iff_witness :
  wfGrid (grid spacedBoard)
  ∧ ∃ valid, isValidPlacement spacedBoard (mkShip 2 7 5 false) = Ok valid
             ∧ (valid = true
                ↔ placementBounds (mkShip 2 7 5 false)
                  ∧ clearOf (grid spacedBoard) (mkShip 2 7 5 false))
             ∧ (valid = true → shipInBounds (mkShip 2 7 5 false)).
Proof.
  assert (wfGrid (grid spacedBoard)) as Hwf
    by (apply (bool_decide_unpack _); vm_compute; exact I).
  split; [exact Hwf|].
  exact (isValidPlacement_accepts_iff spacedBoard (mkShip 2 7 5 false) Hwf).
Defined.

(** The attempt of the random generator inspects the same cells. *)
Lemma elem_of_attemptCells_iff size x y horizontal c' :
  0 < size →
  c' ∈ attemptCells size x y horizontal
  ↔ ∃ c, c ∈ footprint (mkShip size x y horizontal) ∧ adjacent c c'.
Proof.
  intros Hsize. split.
  - unfold attemptCells.
    intros (i & (j & ->%list_elem_of_singleton & Hj%elem_of_seqZ)%list_elem_of_bind
              & Hi%elem_of_seqZ)%list_elem_of_bind.
    exists (shipCell (mkShip size x y horizontal) (Z.max 0 (Z.min i (size - 1)))).
    split.
    + unfold footprint. apply list_elem_of_fmap_2, elem_of_seqZ. simpl. lia.
    + unfold adjacent, shipCell. destruct horizontal; simpl; lia.
  - intros (c & Hc & Hadj). by eapply elem_of_attemptCells.
Qed.

Lemma attemptValid_accepts_iff g size x y horizontal :
  wfGrid g → 0 < size →
  ∃ valid, attemptValid g size x y horizontal = Ok valid
           ∧ (valid = true
              ↔ ∀ c c', c ∈ footprint (mkShip size x y horizontal) → adjacent c c' →
                        inGrid c' → cellAt g c' = Some 0).
Proof.
  intros Hwf Hsize. unfold attemptValid.
  destruct (allFree_wf g (attemptCells size x y horizontal) Hwf) as (free & -> & Hfree).
  exists free. split; [done|]. split.
  - intros -> c c' Hc Hadj Hin.
    destruct (decide (cellAt g c' = Some 0)) as [|Hne]; [done|].
    assert (true = false); [|done]. apply Hfree. exists c'.
    split; [|done]. apply elem_of_attemptCells_iff; eauto.
  - intros Hzero. destruct free; [done|]. exfalso.
    destruct (proj1 Hfree eq_refl) as (c' & Hmem & Hin & Hne).
    apply elem_of_attemptCells_iff in Hmem as (c & Hc & Hadj); [|done].
    apply Hne. eauto.
Qed.

(** Extra X5.  On a ten by ten grid of zeros and ones, for a ship of
    positive size that passes the bounds test, the validity test of the
    random generator's attempt and [isValidPlacement] give the same
    answer. *)
Theorem attemptValid_isValidPlacement b s :
  wfGrid (grid b) →
  (∀ c v, cellAt (grid b) c = Some v → v = 0 ∨ v = 1) →
  0 < ship_size s → placementBounds s →
  attemptValid (grid b) (ship_size s) (ship_x s) (ship_y s) (ship_horizontal s)
  = isValidPlacement b s.
Proof.
  intros Hwf Hbits Hsize Hbounds.
  destruct (isValidPlacement_spec b s Hwf) as (valid & -> & Hvalid).
  destruct (attemptValid_accepts_iff (grid b) (ship_size s) (ship_x s) (ship_y s)
              (ship_horizontal s) Hwf Hsize) as (valid' & -> & Hvalid').
  f_equal. assert (mkShip (ship_size s) (ship_x s) (ship_y s) (ship_horizontal s) = s)
    as Hs by (by destruct s).
  rewrite Hs in Hvalid'.
  destruct valid, valid'; try done.
  - assert (false = true); [|done]. apply Hvalid'.
    intros c c' Hc Hadj Hin. destruct (proj1 Hvalid eq_refl) as [_ Hclear].
    destruct (wfGrid_cellAt _ _ Hwf Hin) as [v Hv]. rewrite Hv. f_equal.
    destruct (Hbits _ _ Hv) as [->| ->]; [done|]. by destruct (Hclear c c').
  - assert (false = true); [|done]. apply Hvalid. split; [done|].
    intros c c' Hc Hadj Hin Hone.
    rewrite (proj1 Hvalid' eq_refl c c' Hc Hadj Hin) in Hone. done.
Qed.

Lemma attemptValid_isValidPlacement_witness :
  wfGrid (grid spacedBoard)
  ∧ attemptValid (grid spacedBoard) 2 7 5 false
    = isValidPlacement spacedBoard (mkShip 2 7 5 false).
Proof.
  assert (wfGrid (grid spacedBoard)) as Hwf
    by (apply (bool_decide_unpack _); vm_compute; exact I).
  split; [exact Hwf|].
  apply (attemptValid_isValidPlacement spacedBoard (mkShip 2 7 5 false) Hwf).
  - intros c v Hv. pose proof (createBoard_bits spacedFleet spacedBoard eq_refl) as Hbits.
    pose proof (cellAt_inGrid _ _ _ Hwf Hv) as Hin. destruct c as [x y].
    rewrite <-(concat_lookup_cell _ x y Hwf Hin) in Hv.
    eapply Forall_lookup_1 in Hbits; [|exact Hv]. exact Hbits.
  - simpl. lia.
  - unfold placementBounds, BOARD_SIZE. simpl. lia.
Defined.

(** * Boards kept by the placement rules *)

Lemma cellAt_markCells cs : ∀ g c,
  wfGrid g → Forall inGrid cs →
  cellAt (foldl (λ g c, grid_set g c.1 c.2 1) g cs) c
  = if decide (c ∈ cs) then Some 1 else cellAt g c.
Proof.
  induction cs as [|c0 cs IH]; intros g c Hwf Hin; cbn [foldl].
  - rewrite decide_False; [done|]. by intros ?%elem_of_nil.
  - apply Forall_cons in Hin as [Hc0 Hin].
    rewrite IH by auto using wfGrid_grid_set.
    destruct (decide (c ∈ cs)) as [Hmem|Hmem].
    + by rewrite decide_True by (by right).
    + destruct (decide (c = c0)) as [->|Hne].
      * rewrite decide_True by left. apply cellAt_grid_set_eq.
        by apply wfGrid_cellAt.
      * rewrite decide_False by (by intros [?|?]%elem_of_cons).
        apply cellAt_grid_set_ne. by destruct c0.
Qed.

Lemma wfGrid_markCells cs : ∀ g,
  wfGrid g → wfGrid (foldl (λ g c, grid_set g c.1 c.2 1) g cs).
Proof.
  induction cs as [|c0 cs IH]; intros g Hwf; cbn [foldl]; auto using wfGrid_grid_set.
Qed.

Lemma grid_ext (g1 g2 : list (list Z)) :
  wfGrid g1 → wfGrid g2 →
  (∀ c, inGrid c → cellAt g1 c = cellAt g2 c) → g1 = g2.
Proof.
  intros [Hl1 Hr1] [Hl2 Hr2] Hcells. apply list_eq. intros j.
  destruct (decide (j < 10)%nat) as [Hj|Hj].
  2:{ rewrite !lookup_ge_None_2; [done|lia..]. }
  destruct (lookup_lt_is_Some_2 g1 j) as [row1 Hrow1]; [lia|].
  destruct (lookup_lt_is_Some_2 g2 j) as [row2 Hrow2]; [lia|].
  rewrite Hrow1, Hrow2. f_equal.
  pose proof (Forall_lookup_1 _ _ _ _ Hr1 Hrow1) as Hlen1.
  pose proof (Forall_lookup_1 _ _ _ _ Hr2 Hrow2) as Hlen2. simpl in Hlen1, Hlen2.
  apply list_eq. intros i. destruct (decide (i < 10)%nat) as [Hi|Hi].
  2:{ rewrite !lookup_ge_None_2; [done|lia..]. }
  specialize (Hcells (Z.of_nat i, Z.of_nat j)).
  unfold cellAt, js_index, inGrid, BOARD_SIZE in Hcells. simpl in Hcells.
  destruct (Z.ltb_spec (Z.of_nat j) 0); [lia|].
  destruct (Z.ltb_spec (Z.of_nat i) 0); [lia|].
  rewrite !Nat2Z.id, Hrow1, Hrow2 in Hcells. simpl in Hcells.
  apply Hcells. lia.
Qed.

Lemma noTouching_noSharedCell ss : noTouching ss → noSharedCell ss.
Proof.
  intros Hno i j s1 s2 c H1 H2 Hc1 Hc2.
  destruct (decide (i = j)) as [|Hne]; [done|].
  destruct (Hno i j s1 s2 H1 H2 Hne). exists c, c. auto using adjacent_refl.
Qed.

Lemma adjacent_sym c1 c2 : adjacent c1 c2 → adjacent c2 c1.
Proof. unfold adjacent. lia. Qed.

Lemma boardOk_empty : boardOk createEmptyBoard.
Proof.
  split; [apply wfGrid_emptyGrid|]. split; [|split].
  - intros c Hc. rewrite cellAt_emptyGrid by done.
    by rewrite decide_False by (by intros ?%elem_of_nil).
  - constructor.
  - intros i j s1 s2 H. by destruct i.
Qed.

(** Adding a ship that is inside the grid and clear of the ships. *)
Lemma boardOk_add b s :
  boardOk b → shipInBounds s → clearOf (grid b) s →
  boardOk (mkBoard (ships b ++ [s])
             (foldl (λ g c, grid_set g c.1 c.2 1) (grid b) (footprint s))).
Proof.
  intros (Hwf & Hcells & Hin & Hno) Hs Hclear.
  split; [by apply wfGrid_markCells|]. split; [|split]; simpl.
  - intros c Hc. rewrite cellAt_markCells, (Hcells c Hc) by done.
    rewrite bind_app. change ([s] ≫= footprint) with (footprint s ++ []).
    rewrite app_nil_r.
    destruct (decide (c ∈ footprint s)) as [Hmem|Hmem].
    + by rewrite decide_True by (apply elem_of_app; by right).
    + destruct (decide (c ∈ ships b ≫= footprint)) as [Hold|Hold].
      * by rewrite decide_True by (apply elem_of_app; by left).
      * by rewrite decide_False by (by intros [?|?]%elem_of_app).
  - apply Forall_app. split; [done|]. by constructor.
  - assert (∀ i s' , ships b !! i = Some s' → ¬ touching s s') as Hnew.
    { intros i s' Hi (c & c' & Hc & Hc' & Hadj).
      assert (c' ∈ ships b ≫= footprint) as Hmem.
      { apply list_elem_of_bind. exists s'. split; [done|].
        by eapply list_elem_of_lookup_2. }
      assert (inGrid c') as Hin'.
      { eapply Forall_forall; [|exact Hmem]. by apply Forall_inGrid_fleet. }
      eapply Hclear; eauto. rewrite (Hcells _ Hin'). by rewrite decide_True. }
    intros i j s1 s2 H1 H2 Hij.
    apply lookup_app_Some in H1 as [H1|[Hi1 H1]], H2 as [H2|[Hi2 H2]].
    + by eapply Hno.
    + apply list_lookup_singleton_Some in H2 as [_ <-].
      intros (c & c' & Hc & Hc' & Hadj). eapply (Hnew i s1 H1).
      exists c', c. auto using adjacent_sym.
    + apply list_lookup_singleton_Some in H1 as [_ <-]. by eapply Hnew.
    + apply list_lookup_singleton_Some in H1 as [? _], H2 as [? _]. lia.
Qed.

Lemma addShipToBoard_boardOk b s b' :
  boardOk b → addShipToBoard b s = Ok b' → boardOk b'.
Proof.
  intros Hok. pose proof Hok as (Hwf & _). unfold addShipToBoard.
  destruct (isValidPlacement_spec b s Hwf) as (valid & -> & Hvalid).
  simpl. destruct valid; [|done]. simpl. intros [= <-].
  destruct (proj1 Hvalid eq_refl) as [Hb Hclear].
  apply boardOk_add; auto using placementBounds_shipInBounds.
Qed.

(** A board kept by the rules is the board [createBoard] makes of its
    ships. *)
Lemma boardOk_createBoard b : boardOk b → createBoard (ships b) = Ok b.
Proof.
  intros (Hwf & Hcells & Hin & Hno).
  destruct (createBoard_valid (ships b) Hin (noTouching_noSharedCell _ Hno)) as [r Hr].
  rewrite Hr. f_equal.
  destruct (createBoard_Ok_inv _ _ Hr) as (Hss & Hwf' & _ & _ & Hcells' & _).
  destruct b as [ss g], r as [ss' g']. simpl in *. subst ss'. f_equal.
  apply grid_ext; try done. intros c Hc. by rewrite Hcells, Hcells'.
Qed.


(** Extra X6.  On a board kept by the placement rules, [addShipToBoard]
    adds exactly the ships that pass the bounds test and have no ship cell
    on or next to them, and throws for every other ship; the board it
    returns is again kept by the rules and is the board [createBoard] makes
    of the longer ship list. *)
Theorem addShipToBoard_keeps_rules b s :
  boardOk b →
  (placementBounds s ∧ clearOf (grid b) s →
   ∃ b', addShipToBoard b s = Ok b' ∧ ships b' = ships b ++ [s]
         ∧ boardOk b' ∧ createBoard (ships b') = Ok b')
  ∧ (¬ (placementBounds s ∧ clearOf (grid b) s) →
     addShipToBoard b s = Throw InvalidPlacement).
Proof.
  intros Hok. pose proof Hok as (Hwf & _).
  destruct (isValidPlacement_spec b s Hwf) as (valid & Hrun & Hvalid).
  split.
  - intros Hrules. apply Hvalid in Hrules as ->.
    assert (addShipToBoard b s
            = Ok (mkBoard (ships b ++ [s])
                    (foldl (λ g c, grid_set g c.1 c.2 1) (grid b) (footprint s))))
      as Hadd by (unfold addShipToBoard; by rewrite Hrun).
    eexists. split; [exact Hadd|]. split; [done|].
    pose proof (addShipToBoard_boardOk _ _ _ Hok Hadd) as Hok'.
    split; [done|]. by apply boardOk_createBoard.
  - intros Hnot. unfold addShipToBoard. rewrite Hrun. simpl.
    destruct valid; [|done]. destruct Hnot. by apply Hvalid.
Qed.

Lemma addShipToBoard_keeps_rules_witness :
  boardOk createEmptyBoard
  ∧ (placementBounds (mkShip 3 2 2 true)
     ∧ clearOf (grid createEmptyBoard) (mkShip 3 2 2 true) →
     ∃ b', addShipToBoard createEmptyBoard (mkShip 3 2 2 true) = Ok b'
           ∧ ships b' = ships createEmptyBoard ++ [mkShip 3 2 2 true]
           ∧ boardOk b' ∧ createBoard (ships b') = Ok b')
  ∧ (¬ (placementBounds (mkShip 3 2 2 true)
        ∧ clearOf (grid createEmptyBoard) (mkShip 3 2 2 true)) →
     addShipToBoard createEmptyBoard (mkShip 3 2 2 true) = Throw InvalidPlacement).
Proof.
  split; [exact boardOk_empty|].
  exact (addShipToBoard_keeps_rules createEmptyBoard (mkShip 3 2 2 true) boardOk_empty).
Defined.

(** * The random board *)

Section RandomBoardProperties.
Context `{rnd : !MathRandom}.

Lemma attemptShip_bounds size d :
  2 ≤ size ≤ 5 → placementBounds (attemptShip size d).
Proof.
  intros Hsize. unfold placementBounds, attemptShip. cbn [ship_horizontal ship_x ship_y ship_size].
  destruct d as [[r1 r2] r3]. cbn [fst snd].
  destruct (overHalf r1).
  - pose proof (floorTimes_range r2 (BOARD_SIZE - size + 1)).
    pose proof (floorTimes_range r3 (BOARD_SIZE - 1 + 1)).
    unfold BOARD_SIZE in *. lia.
  - pose proof (floorTimes_range r2 (BOARD_SIZE - 1 + 1)).
    pose proof (floorTimes_range r3 (BOARD_SIZE - size + 1)).
    unfold BOARD_SIZE in *. lia.
Qed.

Lemma standard_size_range size : size ∈ SHIP_SIZES → 2 ≤ size ≤ 5.
Proof.
  unfold SHIP_SIZES. rewrite !elem_of_cons, elem_of_nil. lia.
Qed.

Lemma randomBoardLoop_inv draws : ∀ sizes attempts ss tempGrid r,
  boardOk (mkBoard ss tempGrid) →
  (ship_size <$> ss) ++ sizes = SHIP_SIZES →
  randomBoardLoop draws sizes attempts ss tempGrid = Some r →
  ∃ b, r = Ok b ∧ boardOk b ∧ ship_size <$> ships b = SHIP_SIZES.
Proof.
  assert (∀ draws ss tempGrid r,
            boardOk (mkBoard ss tempGrid) → ship_size <$> ss = SHIP_SIZES →
            randomBoardLoop draws [] 0 ss tempGrid = Some r
            ∨ Some (createBoard ss) = Some r →
            ∃ b, r = Ok b ∧ boardOk b ∧ ship_size <$> ships b = SHIP_SIZES) as Hdone.
  { intros ds ss g r Hok Hsizes Hrun.
    assert (createBoard ss = r) as <- by (destruct Hrun as [Hrun|[=]]; [by destruct ds; injection Hrun|done]).
    exists (mkBoard ss g). split; [|done]. by apply (boardOk_createBoard (mkBoard ss g)). }
  induction draws as [|d draws IH]; intros sizes attempts ss g r Hok Hsizes Hrun.
  - destruct sizes as [|size rest]; [|done].
    rewrite app_nil_r in Hsizes. eapply (Hdone []); eauto.
  - destruct sizes as [|size rest].
    { rewrite app_nil_r in Hsizes. eapply (Hdone []); eauto. }
    cbn [randomBoardLoop] in Hrun.
    assert (2 ≤ size ≤ 5) as Hsize.
    { apply standard_size_range. rewrite <-Hsizes. apply elem_of_app. right. left. }
    pose proof (attemptShip_bounds size d Hsize) as Hbounds.
    set (s := attemptShip size d) in *.
    pose proof Hok as (Hwf & Hcells & _). cbn [grid ships] in Hwf, Hcells.
    destruct (attemptValid_accepts_iff g size (ship_x s) (ship_y s) (ship_horizontal s) Hwf)
      as (valid & Hvalid & Hiff); [lia|].
    rewrite Hvalid in Hrun. destruct valid.
    + eapply IH; [| |exact Hrun].
      * apply (boardOk_add (mkBoard ss g) s Hok).
        -- by apply placementBounds_shipInBounds.
        -- intros c c' Hc Hadj Hin. cbn [grid].
           rewrite (proj1 Hiff eq_refl c c'); [done| |done..].
           by destruct d as [[??]?].
      * rewrite fmap_app, <-app_assoc. exact Hsizes.
    + destruct (decide (S attempts < 100)%nat).
      * eapply IH; [| |exact Hrun]; done.
      * eapply IH; [| |exact Hrun]; [apply boardOk_empty|done].
Qed.

(** Extra X7.  Whatever the random draws, a result of
    [generateRandomBoard] is never an exception but a board whose ships
    have the sizes of [SHIP_SIZES] in that order, lie inside the grid and
    do not touch one another, not even diagonally; its grid is the one
    [createBoard] makes of the ships, has 17 occupied cells, and
    [validateBoard] accepts the board. *)
Theorem generateRandomBoard_valid draws r :
  generateRandomBoard draws = Some r →
  ∃ b, r = Ok b
       ∧ ship_size <$> ships b = SHIP_SIZES
       ∧ Forall shipInBounds (ships b) ∧ noTouching (ships b)
       ∧ createBoard (ships b) = Ok b
       ∧ occupiedCount (grid b) = 17%nat
       ∧ validateBoard b = Ok true.
Proof.
  intros Hrun. unfold generateRandomBoard in Hrun.
  apply randomBoardLoop_inv in Hrun as (b & -> & Hok & Hsizes);
    [|apply boardOk_empty|done].
  assert (standardSizes (ships b)) as Hstd by (unfold standardSizes; by rewrite Hsizes).
  pose proof (boardOk_createBoard b Hok) as Hcreate.
  pose proof Hok as (_ & _ & Hin & Hno).
  exists b. repeat split; try done.
  - by eapply createBoard_count_standard.
  - by eapply validateBoard_created.
Qed.

End RandomBoardProperties.

Lemma generateRandomBoard_valid_witness :
  generateRandomBoard (rnd := fractionRandom) columnDraws = Some (Ok columnBoard)
  ∧ ∃ b, Ok columnBoard = Ok b
       ∧ ship_size <$> ships b = SHIP_SIZES
       ∧ Forall shipInBounds (ships b) ∧ noTouching (ships b)
       ∧ createBoard (ships b) = Ok b
       ∧ occupiedCount (grid b) = 17%nat
       ∧ validateBoard b = Ok true.
Proof.
  assert (generateRandomBoard (rnd := fractionRandom) columnDraws = Some (Ok columnBoard))
    as Hrun by (vm_compute; reflexivity).
  split; [exact Hrun|].
  exact (generateRandomBoard_valid (rnd := fractionRandom) columnDraws (Ok columnBoard) Hrun).
Defined.

(** * The placement component, every handler *)

Section PlacementReach.
Context `{rnd : !MathRandom}.

Lemma reachInv_startNextShip st : reachInv st → reachInv (startNextShip st).
Proof.
  intros [Hok [Hinv|(Hnone & Hplacing & Hsizes)]].
  - split; [|left; by apply placementInv_startNextShip].
    unfold startNextShip. destruct (shipsToPlace st); [done|].
    by destruct (placingShip st).
  - unfold startNextShip. rewrite Hnone. split; [done|]. by right.
Qed.

Lemma reachInv_handleBoardClick st : reachInv st → reachInv (handleBoardClick st).
Proof.
  intros [Hok Hcase]. split.
  - unfold handleBoardClick. destruct (placingShip st) as [s|]; [|done].
    destruct (hoverPosition st); [|done].
    destruct (isValidPlacement (pl_board st) s) as [[]|]; try done.
    destruct (addShipToBoard (pl_board st) s) as [newBoard|] eqn:Hadd; [|done].
    by eapply addShipToBoard_boardOk.
  - destruct Hcase as [Hinv|(Hnone & Hplacing & Hsizes)].
    + left. by apply placementInv_handleBoardClick.
    + right. unfold handleBoardClick. by rewrite Hplacing.
Qed.

Lemma reachInv_step st a : reachInv st → reachInv (placementStep st a).
Proof.
  intros Hst. apply reachInv_startNextShip. destruct a.
  - destruct Hst as [Hok Hcase]. split.
    + unfold handleMouseMove. destruct (placingShip st); [|done]. by destruct coords as [[]|].
    + destruct Hcase as [Hinv|(Hnone & Hplacing & Hsizes)].
      * left. by apply placementInv_handleMouseMove.
      * right. unfold handleMouseMove. by rewrite Hplacing.
  - by apply reachInv_handleBoardClick.
  - destruct Hst as [Hok Hcase]. split.
    + unfold handleRotate. by destruct (placingShip st).
    + destruct Hcase as [Hinv|(Hnone & Hplacing & Hsizes)].
      * left. by apply placementInv_handleRotate.
      * right. unfold handleRotate. by rewrite Hplacing.
  - split; [apply boardOk_empty|]. left. apply placementInv_handleReset.
Qed.

Lemma reachInv_reach st : placementReach st → reachInv st.
Proof.
  induction 1 as [|st a _ IH|st _ IH|st draws randomBoard _ IH Hrun].
  - apply reachInv_startNextShip. split; [apply boardOk_empty|].
    left. apply placementInv_initial.
  - by apply reachInv_step.
  - apply reachInv_startNextShip. destruct IH as [Hok Hcase]. split; [done|].
    destruct Hcase as [Hinv|?]; [left|by right].
    destruct Hinv as (H1 & H2 & H3 & H4).
    split; [exact H1|]. split; [exact H2|]. split; [exact H3|exact H4].
  - apply reachInv_startNextShip.
    apply randomBoardLoop_inv in Hrun as (b & [= <-] & Hok & Hsizes);
      [|apply boardOk_empty|done].
    split; [done|]. by right.
Qed.

Lemma placementReach_run actions : placementReach (placementRun actions).
Proof.
  unfold placementRun. induction actions as [|a actions IH] using rev_ind.
  - constructor.
  - rewrite foldl_app. cbn [foldl]. by constructor.
Qed.

(** Extra X8.  Whatever the user does in the placement component (moving
    and leaving with the pointer, clicking, rotating, resetting, asking
    for a random board), the board the Complete button hands on has its
    ships inside the grid, no two of them touching, and the grid that
    [createBoard] makes of them.  It has either the sizes 5, 4, 3, 2, 1
    of the ships placed by hand, and then [validateBoard] throws, or the
    sizes of [SHIP_SIZES] of a random board, and then [validateBoard]
    accepts it. *)
Theorem placement_complete_board st b :
  placementReach st → handleComplete st = Some b →
  Forall shipInBounds (ships b) ∧ noTouching (ships b)
  ∧ createBoard (ships b) = Ok b
  ∧ (ship_size <$> ships b = [5; 4; 3; 2; 1]
       ∧ validateBoard b = Throw (InvalidShipsOfSize 3)
     ∨ ship_size <$> ships b = SHIP_SIZES ∧ validateBoard b = Ok true).
Proof.
  intros [Hok Hcase]%reachInv_reach Hdone. unfold handleComplete in Hdone.
  destruct (shipsToPlace st) eqn:Hnone; [|done]. injection Hdone as <-.
  pose proof Hok as (_ & _ & Hin & Hno).
  pose proof (boardOk_createBoard _ Hok) as Hcreate.
  repeat split; try done.
  destruct Hcase as [(Hsizes & _)|(_ & _ & Hsizes)].
  - left. rewrite Hnone, app_nil_r in Hsizes. split; [done|].
    apply validateBoard_one_cruiser; try (by rewrite Hsizes).
    by rewrite <-(length_fmap ship_size), Hsizes.
  - right. split; [done|]. eapply validateBoard_created; [|done].
    unfold standardSizes. by rewrite Hsizes.
Qed.

End PlacementReach.

Lemma placement_complete_board_witness :
  placementReach (rnd := fractionRandom)
    (startNextShip (handleRandomPlacement columnBoard (placementRun manualPlacement)))
  ∧ handleComplete
      (startNextShip (handleRandomPlacement columnBoard (placementRun manualPlacement)))
    = Some columnBoard
  ∧ Forall shipInBounds (ships columnBoard) ∧ noTouching (ships columnBoard)
  ∧ createBoard (ships columnBoard) = Ok columnBoard
  ∧ (ship_size <$> ships columnBoard = [5; 4; 3; 2; 1]
       ∧ validateBoard columnBoard = Throw (InvalidShipsOfSize 3)
     ∨ ship_size <$> ships columnBoard = SHIP_SIZES
       ∧ validateBoard columnBoard = Ok true).
Proof.
  assert (placementReach (rnd := fractionRandom)
            (startNextShip
               (handleRandomPlacement columnBoard (placementRun manualPlacement))))
    as Hreach.
  { apply (reach_random (rnd := fractionRandom) _ columnDraws columnBoard).
    - apply placementReach_run.
    - vm_compute; reflexivity. }
  split; [exact Hreach|]. split; [reflexivity|].
  exact (placement_complete_board (rnd := fractionRandom) _ columnBoard Hreach eq_refl).
Defined.


(** * Failed attempts of the random generator *)

(** Extra X9.  Attempts that fail leave the ships placed so far and the
    grid as they are and count towards the limit of a hundred attempts for
    the ship in hand; when the hundredth attempt fails the generator drops
    every ship placed and starts again from the empty grid with all of
    [SHIP_SIZES]. *)
Theorem randomBoardLoop_failed_attempts `{rnd : !MathRandom}
    fails rest size sizes attempts ss g :
  Forall (λ d, attemptValid g size (ship_x (attemptShip size d))
                 (ship_y (attemptShip size d)) (ship_horizontal (attemptShip size d))
               = Ok false) fails →
  (attempts < 100)%nat → (attempts + length fails ≤ 100)%nat →
  randomBoardLoop (fails ++ rest) (size :: sizes) attempts ss g
  = if decide (attempts + length fails < 100)%nat
    then randomBoardLoop rest (size :: sizes) (attempts + length fails) ss g
    else generateRandomBoard rest.
Proof.
  revert attempts. induction fails as [|d fails IH]; intros attempts Hfail Hlt Hle.
  - simpl. rewrite Nat.add_0_r. by rewrite decide_True.
  - apply Forall_cons in Hfail as [Hd Hfail]. cbn [app randomBoardLoop].
    rewrite Hd. cbn [length] in *. destruct (decide (S attempts < 100)%nat) as [Hs|Hs].
    + rewrite IH by (done || lia). by rewrite Nat.add_succ_r.
    + destruct fails; [|simpl in Hle; lia]. simpl.
      by rewrite decide_False by lia.
Qed.

Lemma randomBoardLoop_failed_attempts_witness :
  Forall (λ d, attemptValid (grid columnBoard) 5
                 (ship_x (attemptShip (rnd := fractionRandom) 5 d))
                 (ship_y (attemptShip (rnd := fractionRandom) 5 d))
                 (ship_horizontal (attemptShip (rnd := fractionRandom) 5 d))
               = Ok false) originDraws
  ∧ (0 < 100)%nat ∧ (0 + length originDraws ≤ 100)%nat
  ∧ randomBoardLoop (rnd := fractionRandom) (originDraws ++ columnDraws)
      (5 :: [4; 3; 3; 2]) 0 [] (grid columnBoard)
    = if decide (0 + length originDraws < 100)%nat
      then randomBoardLoop (rnd := fractionRandom) columnDraws (5 :: [4; 3; 3; 2])
             (0 + length originDraws) [] (grid columnBoard)
      else generateRandomBoard (rnd := fractionRandom) columnDraws.
Proof.
  assert (Forall (λ d, attemptValid (grid columnBoard) 5
                 (ship_x (attemptShip (rnd := fractionRandom) 5 d))
                 (ship_y (attemptShip (rnd := fractionRandom) 5 d))
                 (ship_horizontal (attemptShip (rnd := fractionRandom) 5 d))
               = Ok false) originDraws) as Hfail.
  { apply Forall_replicate. vm_compute. reflexivity. }
  assert (0 + length originDraws ≤ 100)%nat as Hle by (simpl; lia).
  split; [exact Hfail|]. split; [lia|]. split; [exact Hle|].
  apply (randomBoardLoop_failed_attempts (rnd := fractionRandom) originDraws columnDraws
           5 [4; 3; 3; 2] 0 [] (grid columnBoard) Hfail); [lia|exact Hle].
Defined.

(** * Sunk fleets *)

Lemma hits_cover_fleet (hs cells : list (Z * Z)) :
  NoDup hs → NoDup cells → (∀ c, c ∈ hs → c ∈ cells) →
  length hs = length cells ↔ ∀ c, c ∈ cells → c ∈ hs.
Proof.
  intros Hnd Hnd' Hsub. split.
  - intros Hlen c Hc.
    assert (hs ≡ₚ cells) as Hperm.
    { apply submseteq_length_Permutation; [by apply NoDup_submseteq|lia]. }
    by rewrite Hperm.
  - intros Hsup. apply Permutation_length, NoDup_Permutation; try done.
    intros c. split; auto.
Qed.

(** Extra X10.  On a board made by [createBoard], for a shot map whose
    hits are distinct cells that lie on ships, [checkAllShipsSunk] is true
    exactly when every cell of every ship is among the hits. *)
Theorem checkAllShipsSunk_sound ss b m :
  createBoard ss = Ok b →
  NoDup (hits m) →
  (∀ c, c ∈ hits m → ∃ s, s ∈ ss ∧ c ∈ footprint s) →
  checkAllShipsSunk b m = true ↔ ∀ s c, s ∈ ss → c ∈ footprint s → c ∈ hits m.
Proof.
  intros (_ & _ & Hnd & _ & _ & Hcount)%createBoard_Ok_inv Hhits Hon.
  rewrite checkAllShipsSunk_true, Hcount.
  rewrite (hits_cover_fleet (hits m) (ss ≫= footprint)); try done.
  - split.
    + intros Hall s c Hs Hc. apply Hall, list_elem_of_bind. eauto.
    + intros Hall c (s & Hc & Hs)%list_elem_of_bind. eauto.
  - intros c (s & Hs & Hc)%Hon. apply list_elem_of_bind. eauto.
Qed.

Lemma checkAllShipsSunk_sound_witness :
  createBoard spacedFleet = Ok spacedBoard
  ∧ NoDup (hits allShipCellsHit)
  ∧ (checkAllShipsSunk spacedBoard allShipCellsHit = true
     ↔ ∀ s c, s ∈ spacedFleet → c ∈ footprint s → c ∈ hits allShipCellsHit).
Proof.
  assert (NoDup (hits allShipCellsHit)) as Hnd
    by (apply (bool_decide_unpack _); vm_compute; exact I).
  split; [reflexivity|]. split; [exact Hnd|].
  apply (checkAllShipsSunk_sound spacedFleet spacedBoard allShipCellsHit eq_refl Hnd).
  intros c (s & Hc & Hs)%list_elem_of_bind. eauto.
Defined.

(** * The game-end claim *)

Lemma cellBit_bits (cells : list Z) :
  Forall (λ cell, cell = 0 ∨ cell = 1) cells → cellBit <$> cells = cells.
Proof.
  induction 1 as [|cell cells Hcell _ IH]; [done|].
  rewrite fmap_cons, IH. f_equal. by destruct Hcell as [-> | ->].
Qed.

Lemma joinArray_Some (cells : list Z) : joinArray (Some <$> cells) = joinDigits cells.
Proof.
  unfold joinArray, joinDigits. induction cells as [|cell cells IH]; [done|].
  rewrite fmap_cons. cbn [foldr from_option]. by rewrite IH.
Qed.

(** When the hits are the ship cells the bitmap of the hits is the board. *)
Lemma shotHistoryOf_fleet ss b m :
  createBoard ss = Ok b →
  (∀ c, c ∈ hits m ↔ c ∈ ss ≫= footprint) →
  shotHistoryOf m = Some <$> concat (grid b).
Proof.
  intros (_ & Hwf & _ & Hin & Hcells & _)%createBoard_Ok_inv Hsame.
  assert (Forall inGrid (hits m)) as Hhits.
  { apply Forall_forall. intros c Hc%Hsame. by eapply Forall_forall in Hin. }
  destruct (shotHistoryOf_spec m Hhits) as [Hlen Hget].
  apply list_eq. intros n. destruct (decide (n < 100)%nat) as [Hn|Hn].
  - rewrite (Hget n Hn), list_lookup_fmap.
    destruct (cell_of_index n Hn) as [Hc Hidx].
    destruct (cellOfIndex n) as [x y] eqn:Hxy. cbn [fst snd] in Hidx.
    pose proof (concat_lookup_cell _ x y Hwf Hc) as Hcell.
    rewrite Hidx in Hcell. rewrite Hcell, (Hcells _ Hc). cbn [fmap option_fmap option_map].
    do 2 f_equal. destruct (decide ((x, y) ∈ hits m)) as [H1|H1].
    + by rewrite decide_True by (by apply Hsame).
    + by rewrite decide_False by (by rewrite <-Hsame).
  - rewrite !lookup_ge_None_2; [done|rewrite length_fmap, length_concat_wf by done; lia|lia].
Qed.

Section GameEnd.
Context `{ext : !Externals}.

(** Extra X11.  On a board made by [createBoard], with distinct hits that
    lie on ships and a salt of at most 31 bytes, [generateGameEndProof]
    throws unless every ship cell is among the hits, and otherwise hands
    the prover a claim whose shot history is the board itself: the same
    hundred flags, row by row. *)
Theorem generateGameEndProof_sound ss b m salt :
  createBoard ss = Ok b →
  NoDup (hits m) →
  (∀ c, c ∈ hits m → ∃ s, s ∈ ss ∧ c ∈ footprint s) →
  (String.length salt ≤ 31)%nat →
  ((∀ s c, s ∈ ss → c ∈ footprint s → c ∈ hits m) →
   generateGameEndProof b m salt
   = generateProof GAME_END (GameEndInputOf {|
       ge_board_cells := concat (grid b);
       ge_shot_history := Some <$> concat (grid b);
       ge_salt := salt;
       ge_board_commitment :=
         keccak256 (serializeBoard b +:+ salt +:+ zeroBytes (32 - String.length salt));
       ge_shot_history_hash := keccak256 (joinDigits (concat (grid b))) |}))
  ∧ (¬ (∀ s c, s ∈ ss → c ∈ footprint s → c ∈ hits m) →
     generateGameEndProof b m salt = Throw NotAllSunk).
Proof.
  intros Hb Hnd Hon Hsalt.
  pose proof (checkAllShipsSunk_true b m) as Htrue.
  pose proof (createBoard_Ok_inv _ _ Hb) as (_ & Hwf & Hnd' & _ & _ & Hcount).
  assert (checkAllShipsSunk b m = true
          ↔ ∀ s c, s ∈ ss → c ∈ footprint s → c ∈ hits m) as Hsound.
  { rewrite Htrue, Hcount.
    rewrite (hits_cover_fleet (hits m) (ss ≫= footprint)); try done.
    - split.
      + intros Hall s c Hs Hc. apply Hall, list_elem_of_bind. eauto.
      + intros Hall c (s & Hc & Hs)%list_elem_of_bind. eauto.
    - intros c (s & Hs & Hc)%Hon. apply list_elem_of_bind. eauto. }
  unfold generateGameEndProof. split.
  - intros Hall. rewrite (proj2 Hsound Hall). cbn [negb].
    rewrite boardCellsOf_wf by done. cbn [bind].
    rewrite generateBoardCommitment_Ok by done. cbn [bind].
    rewrite cellBit_bits by (by eapply createBoard_bits).
    rewrite (shotHistoryOf_fleet ss b m Hb).
    + by rewrite joinArray_Some.
    + intros c. split.
      * intros (s & Hs & Hc)%Hon. apply list_elem_of_bind. eauto.
      * intros (s & Hc & Hs)%list_elem_of_bind. eauto.
  - intros Hnot. destruct (checkAllShipsSunk b m) eqn:Hsunk; [|done].
    destruct Hnot. by apply Hsound.
Qed.

End GameEnd.

Lemma generateGameEndProof_sound_witness :
  createBoard spacedFleet = Ok spacedBoard
  ∧ NoDup (hits allShipCellsHit)
  ∧ (String.length "pepper" ≤ 31)%nat
  ∧ ((∀ s c, s ∈ spacedFleet → c ∈ footprint s → c ∈ hits allShipCellsHit) →
     generateGameEndProof (ext := echoExternals) spacedBoard allShipCellsHit "pepper"
     = generateProof (Externals := echoExternals) GAME_END (GameEndInputOf {|
         ge_board_cells := concat (grid spacedBoard);
         ge_shot_history := Some <$> concat (grid spacedBoard);
         ge_salt := "pepper";
         ge_board_commitment :=
           keccak256 (Externals := echoExternals)
             (serializeBoard spacedBoard +:+ "pepper"
                +:+ zeroBytes (32 - String.length "pepper"));
         ge_shot_history_hash :=
           keccak256 (Externals := echoExternals)
             (joinDigits (concat (grid spacedBoard))) |}))
  ∧ (¬ (∀ s c, s ∈ spacedFleet → c ∈ footprint s → c ∈ hits allShipCellsHit) →
     generateGameEndProof (ext := echoExternals) spacedBoard allShipCellsHit "pepper"
     = Throw NotAllSunk).
Proof.
  assert (NoDup (hits allShipCellsHit)) as Hnd
    by (apply (bool_decide_unpack _); vm_compute; exact I).
  assert (String.length "pepper" ≤ 31)%nat as Hsalt by (simpl; lia).
  split; [reflexivity|]. split; [exact Hnd|]. split; [exact Hsalt|].
  apply (generateGameEndProof_sound (ext := echoExternals) spacedFleet spacedBoard
           allShipCellsHit "pepper" eq_refl Hnd); [|exact Hsalt].
  intros c (s & Hc & Hs)%list_elem_of_bind. eauto.
Defined.


(** * Shot history of any hits *)





(** * The board-placement claim *)

Section BoardClaimProperties.
Context `{ext : !Externals} `{calls : !PageCalls}.

(** Extra X13.  [generateBoardProof] validates first: a board that
    [validateBoard] rejects gets that error, whatever the salt.  For a
    board it accepts, with a ten by ten grid, the ship list has five
    entries, so that no dummy ship is ever pushed; the commitment then
    throws for a salt of 32 bytes or more, and otherwise the prover gets
    the flattened cells, the five ships with the orientation as 0 or 1,
    the salt and the commitment of board and salt. *)
Theorem generateBoardProof_validates_first b salt :
  wfGrid (grid b) →
  generateBoardProof b salt
  = match validateBoard b with
    | Throw e => Throw e
    | Ok _ =>
        if decide (31 < String.length salt)%nat then Throw Bytes32TooLong
        else generateProofOfBoard {|
          bi_board_cells := cellBit <$> concat (grid b);
          bi_ships := formatShip <$> ships b;
          bi_salt := salt;
          bi_board_commitment :=
            keccak256 (serializeBoard b +:+ salt
                         +:+ zeroBytes (32 - String.length salt)) |}
    end
  ∧ (∀ v, validateBoard b = Ok v → length (formatShip <$> ships b) = 5%nat).
Proof.
  intros Hwf.
  assert (∀ v, validateBoard b = Ok v → length (formatShip <$> ships b) = 5%nat) as Hfive.
  { intros v Hv. rewrite length_fmap. unfold validateBoard in Hv.
    case_decide as Hlen; [done|]. by destruct (decide (length (ships b) = 5%nat)). }
  split; [|done]. unfold generateBoardProof.
  destruct (validateBoard b) as [v|e] eqn:Hv; [|done]. cbn [bind].
  rewrite boardCellsOf_wf by done. cbn [bind].
  rewrite (Hfive v eq_refl). cbn [Nat.sub replicate]. rewrite app_nil_r.
  case_decide as Hsalt.
  - by rewrite generateBoardCommitment_too_long.
  - by rewrite generateBoardCommitment_Ok by lia.
Qed.

(** The commitment refuses every salt that [generateSalt] makes. *)
Lemma generateBoardCommitment_generated_salt b randomBytes16 :
  length randomBytes16 = 16%nat →
  generateBoardCommitment b (generateSalt randomBytes16) = Throw Bytes32TooLong.
Proof.
  intros Hlen. apply generateBoardCommitment_too_long.
  rewrite generateSalt_length, Hlen. lia.
Qed.

(** On the fields of [GameState] the handler with everything it writes is
    [handleBoardComplete]. *)
Lemma Page_handleBoardComplete_game p board randomBytes16 :
  Page.game (Page.handleBoardComplete p board randomBytes16).1
  = handleBoardComplete (Page.game p) board randomBytes16.
Proof.
  unfold Page.handleBoardComplete, handleBoardComplete. cbv zeta.
  destruct (negb (truthy (account (Page.game p)))
            || negb (truthy (gameAddress (Page.game p)))); [done|].
  destruct (bind _ _) as [[commitment proof]|]; [|done].
  destruct (contractSubmitBoard _ _ _); [|done]. cbn [bind].
  by destruct (sessionSubmitBoard _ _).
Qed.

(** Extra X14.  With the salt that [generateSalt] makes of sixteen random
    bytes, [handleBoardComplete] stores nothing and calls nobody: the
    fields of the game (board, commitment, salt and phase among them) are
    as before and neither the ledger nor the backend is called.  All it
    writes is the status line, an error message, and, past the guard, the
    progress flag, which it clears. *)
Theorem handleBoardComplete_generated_salt p board randomBytes16 :
  length randomBytes16 = 16%nat →
  Page.handleBoardComplete p board randomBytes16
  = (if negb (truthy (account (Page.game p)))
        || negb (truthy (gameAddress (Page.game p)))
     then Page.mkState (Page.game p)
            "Error: Wallet not connected or game not initialized"
            (Page.isSubmittingBoard p)
     else Page.mkState (Page.game p) "Error submitting board. Please try again." false,
     []).
Proof.
  intros Hlen. unfold Page.handleBoardComplete. cbv zeta.
  destruct (negb (truthy (account (Page.game p)))
            || negb (truthy (gameAddress (Page.game p)))); [done|].
  by rewrite generateBoardCommitment_generated_salt.
Qed.






End BoardClaimProperties.

Lemma generateBoardProof_validates_first_witness :
  wfGrid (grid spacedBoard)
  ∧ generateBoardProof (ext := echoExternals) (calls := echoCalls) spacedBoard "pepper"
    = match validateBoard spacedBoard with
      | Throw e => Throw e
      | Ok _ =>
          if decide (31 < String.length "pepper")%nat then Throw Bytes32TooLong
          else generateProofOfBoard (PageCalls := echoCalls) {|
            bi_board_cells := cellBit <$> concat (grid spacedBoard);
            bi_ships := formatShip <$> ships spacedBoard;
            bi_salt := "pepper";
            bi_board_commitment :=
              keccak256 (Externals := echoExternals)
                (serializeBoard spacedBoard +:+ "pepper"
                   +:+ zeroBytes (32 - String.length "pepper")) |}
      end
  ∧ (∀ v, validateBoard spacedBoard = Ok v
          → length (formatShip <$> ships spacedBoard) = 5%nat).
Proof.
  assert (wfGrid (grid spacedBoard)) as Hwf
    by (apply (bool_decide_unpack _); vm_compute; exact I).
  split; [exact Hwf|].
  exact (generateBoardProof_validates_first (ext := echoExternals) (calls := echoCalls)
           spacedBoard "pepper" Hwf).
Defined.

Lemma handleBoardComplete_generated_salt_witness :
  length (replicate 16 "000"%char) = 16%nat
  ∧ Page.handleBoardComplete (ext := echoExternals) (calls := echoCalls)
      placingPage columnBoard (replicate 16 "000"%char)
    = (Page.mkState placingState "Error submitting board. Please try again." false, []).
Proof.
  split; [reflexivity|].
  exact (handleBoardComplete_generated_salt (ext := echoExternals) (calls := echoCalls)
           placingPage columnBoard (replicate 16 "000"%char) eq_refl).
Defined.


(** * Firing and answering *)

(** On the fields of [GameState] the handler with everything it writes is
    [handleMakeShot]. *)
Lemma Page_handleMakeShot_game `{calls : !PageCalls} p x y :
  Page.game (Page.handleMakeShot p x y).1 = handleMakeShot (Page.game p) x y.
Proof.
  unfold Page.handleMakeShot, handleMakeShot. cbv zeta.
  destruct (_ || _); [done|]. by destruct (contractMakeShot _ _ _).
Qed.

(** Extra X16.  Once the ledger has accepted a shot, a second call of
    [handleMakeShot] writes nothing and does not call the ledger, whatever
    its coordinate: the turn has passed and a shot is in flight.  When the
    ledger refuses the shot, the fields of the game are as they were
    before the call and the status line holds the error message. *)
Theorem handleMakeShot_once `{calls : !PageCalls} p x y :
  (∀ u, contractMakeShot (default "" (gameAddress (Page.game p))) x y = Ok u →
        ∀ x' y', Page.handleMakeShot (Page.handleMakeShot p x y).1 x' y'
                 = ((Page.handleMakeShot p x y).1, []))
  ∧ (∀ e, contractMakeShot (default "" (gameAddress (Page.game p))) x y = Throw e →
          Page.handleMakeShot p x y
          = if negb (truthy (account (Page.game p)))
               || negb (truthy (gameAddress (Page.game p)))
               || negb (isPlayerTurn (Page.game p)) || isMakingShot (Page.game p)
            then (p, [])
            else (Page.mkState (Page.game p) "Error making shot. Please try again."
                    (Page.isSubmittingBoard p),
                  [Page.MakeShot (default "" (gameAddress (Page.game p))) x y])).
Proof.
  split.
  - intros u Hok x' y'. unfold Page.handleMakeShot at 2 3. cbv zeta.
    destruct (_ || _) eqn:Hguard.
    + cbn [fst]. unfold Page.handleMakeShot. cbv zeta. by rewrite Hguard.
    + rewrite Hok. cbn [fst]. unfold Page.handleMakeShot. cbn.
      by rewrite !orb_true_r.
  - intros e Hthrow. unfold Page.handleMakeShot. cbv zeta.
    destruct (_ || _) eqn:Hguard; [done|]. rewrite Hthrow.
    apply orb_false_iff in Hguard as [_ Hflight].
    do 2 f_equal. destruct (Page.game p). simpl in *. by subst.
Qed.

Lemma handleMakeShot_once_witness :
  contractMakeShot (PageCalls := echoCalls)
    (default "" (gameAddress (Page.game firingPage))) 3 4 = Ok ()
  ∧ Page.handleMakeShot (calls := echoCalls)
      (Page.handleMakeShot (calls := echoCalls) firingPage 3 4).1 5 6
    = ((Page.handleMakeShot (calls := echoCalls) firingPage 3 4).1, [])
  ∧ contractMakeShot (PageCalls := refusingCalls)
      (default "" (gameAddress (Page.game firingPage))) 3 4 = Throw TypeError
  ∧ Page.handleMakeShot (calls := refusingCalls) firingPage 3 4
    = (Page.mkState firingState "Error making shot. Please try again." false,
       [Page.MakeShot "0xGame" 3 4]).
Proof.
  split; [reflexivity|]. split; [|split; [reflexivity|]].
  - exact (proj1 (handleMakeShot_once (calls := echoCalls) firingPage 3 4)
             () eq_refl 5 6).
  - exact (proj2 (handleMakeShot_once (calls := refusingCalls) firingPage 3 4)
             TypeError eq_refl).
Defined.

Section Answering.
Context `{ext : !Externals}.

(** Extra X17.  [handleOpponentShot] either leaves the shots at the
    player as they are, or appends the one shot it was called for, on a
    cell of the grid, with the answer [checkShotResult] gives on the
    stored board, and hands the turn to the player. *)
Theorem handleOpponentShot_records_truth st x y :
  shotsAtPlayer (handleOpponentShot st x y) = shotsAtPlayer st
  ∨ ∃ board hit,
      playerBoard st = Some board
      ∧ checkShotResult board x y = Ok hit
      ∧ inGrid (x, y)
      ∧ shotsAtPlayer (handleOpponentShot st x y) = addShot (shotsAtPlayer st) x y hit
      ∧ isPlayerTurn (handleOpponentShot st x y) = true.
Proof.
  unfold handleOpponentShot.
  destruct (account st), (gameAddress st) as [addr|], (playerBoard st) as [board|],
    (playerBoardSalt st) as [salt|]; try (by left).
  destruct (checkShotResult board x y) as [hit|] eqn:Hcheck; [|by left].
  cbn [bind]. destruct (generateShotProof board x y hit salt) as [proof|]; [|by left].
  cbn [bind]. destruct (contractSubmitShotResult addr x y hit proof); [|by left].
  cbn [bind]. right. exists board, hit. split; [done|]. split; [done|]. split.
  - unfold checkShotResult in Hcheck. unfold inGrid, BOARD_SIZE. simpl.
    destruct (Z.ltb_spec x 0); [done|]. destruct (Z.leb_spec 10 x); [done|].
    destruct (Z.ltb_spec y 0); [done|]. destruct (Z.leb_spec 10 y); [done|]. lia.
  - destruct (_ && _); [|done]. by destruct (bind _ _).
Qed.

(** * Snapshots and events, delivered again *)

(** Extra X18.  Processing the same session snapshot a second time
    changes nothing. *)
Theorem processSessionState_idempotent st s :
  processSessionState (processSessionState st s) s = processSessionState st s.
Proof.
  destruct st as [acct addr phase turn win pb pbc pbs sap sao ims ips].
  destruct s as [status players ct gca w].
  unfold processSessionState. cbv zeta.
  cbn [ss_gameContractAddress ss_status ss_currentTurn ss_winner].
  destruct (truthy gca) eqn:Haddr;
  destruct (bool_decide (status = "WAITING")) eqn:H1; cbn; rewrite ?Haddr, ?H1; try done;
  destruct (bool_decide (status = "SETUP")) eqn:H2; cbn; rewrite ?Haddr, ?H1, ?H2;
    try done;
  try (destruct pb; cbn; rewrite ?Haddr, ?H1, ?H2; done);
  destruct (bool_decide (status = "ACTIVE")) eqn:H3; cbn;
    rewrite ?Haddr, ?H1, ?H2, ?H3; try done;
  try (destruct (truthy ct && truthy acct) eqn:H5; cbn;
       rewrite ?Haddr, ?H1, ?H2, ?H3, ?H5; done);
  destruct (bool_decide (status = "COMPLETED")) eqn:H4; cbn;
    rewrite ?Haddr, ?H1, ?H2, ?H3, ?H4; try done;
  destruct w as [w|]; cbn; rewrite ?Haddr, ?H1, ?H2, ?H3, ?H4; try done;
  destruct (negb (bool_decide (w = "")) && truthy acct) eqn:H5; cbn;
    rewrite ?Haddr, ?H1, ?H2, ?H3, ?H4, ?H5; try done.
Qed.

(** Extra X19.  Processing the same event a second time changes nothing
    for [board_submitted], [game_over] and the events without a case.  A
    [shot_result] is recorded again every time it is processed: after [n]
    runs the two shot maps hold [n] more entries than before. *)
Theorem processEvent_delivered_again st :
  (∀ ev, (∀ player x y, ev ≠ shot_fired player x y) →
         (∀ player x y isHit, ev ≠ shot_result player x y isHit) →
         processEvent (processEvent st ev) ev = processEvent st ev)
  ∧ (∀ player x y isHit n,
       recordedShots (Nat.iter n (λ st, processEvent st (shot_result player x y isHit)) st)
       = (n + recordedShots st)%nat).
Proof.
  split.
  - intros ev Hfired Hresult. destruct ev; try done.
    + simpl. destruct (sameAddress player (account st)) eqn:Hsame; simpl.
      * by rewrite Hsame.
      * destruct allBoardsSubmitted; simpl; by rewrite Hsame.
    + by destruct (Hfired player x y).
    + by destruct (Hresult player x y isHit).
  - intros player x y isHit n.
    assert (∀ st', recordedShots (processEvent st' (shot_result player x y isHit))
                   = S (recordedShots st')) as Hstep.
    { intros st'. unfold recordedShots. simpl.
      destruct (sameAddress player (account st')), isHit; simpl;
        rewrite ?length_app; simpl; lia. }
    induction n as [|n IH]; [done|].
    rewrite Nat.iter_succ, Hstep, IH. done.
Qed.

End Answering.

Lemma processEvent_delivered_again_witness :
  (∀ player x y, game_over "0xA11ce" ≠ shot_fired player x y)
  ∧ (∀ player x y isHit, game_over "0xA11ce" ≠ shot_result player x y isHit)
  ∧ processEvent (ext := echoExternals)
      (processEvent (ext := echoExternals) firingState (game_over "0xA11ce"))
      (game_over "0xA11ce")
    = processEvent (ext := echoExternals) firingState (game_over "0xA11ce").
Proof.
  assert (∀ player x y, game_over "0xA11ce" ≠ shot_fired player x y) as Hfired
    by discriminate.
  assert (∀ player x y isHit, game_over "0xA11ce" ≠ shot_result player x y isHit)
    as Hresult by discriminate.
  split; [exact Hfired|]. split; [exact Hresult|].
  exact (proj1 (processEvent_delivered_again (ext := echoExternals) firingState)
           (game_over "0xA11ce") Hfired Hresult).
Defined.

(** * Board views *)

Lemma wfView_emptyView : wfView emptyView.
Proof. split; [done|]. by apply Forall_replicate. Qed.

Lemma viewAt_emptyView c : inGrid c → viewAt emptyView c = Some (Some EMPTY).
Proof.
  intros [Hx Hy]. unfold BOARD_SIZE, viewAt, js_index, emptyView in *.
  destruct (Z.ltb_spec c.2 0); [lia|].
  rewrite (lookup_replicate_2 10 _ (Z.to_nat c.2)) by lia. cbn [mbind option_bind].
  destruct (Z.ltb_spec c.1 0); [lia|].
  by rewrite (lookup_replicate_2 10 _ (Z.to_nat c.1)) by lia.
Qed.

(** Writing a cell of the grid into a ten by ten view. *)
Lemma view_set_inGrid v x y state :
  wfView v → inGrid (x, y) →
  ∃ v', view_set v x y state = Ok v' ∧ wfView v'
        ∧ ∀ c, viewAt v' c = if decide (c = (x, y)) then Some (Some state) else viewAt v c.
Proof.
  intros [Hlen Hrows] [Hx Hy]. unfold BOARD_SIZE in *. simpl in Hx, Hy.
  destruct (lookup_lt_is_Some_2 v (Z.to_nat y)) as [row Hrow]; [lia|].
  pose proof (Forall_lookup_1 _ _ _ _ Hrows Hrow) as Hrowlen. simpl in Hrowlen.
  assert (js_set row x state = <[Z.to_nat x := Some state]> row) as Hset.
  { unfold js_set. destruct (Z.ltb_spec x 0); [lia|].
    destruct (Z.leb_spec 4294967295 x); [lia|]. cbn [orb].
    by rewrite decide_True by lia. }
  unfold view_set, js_index. destruct (Z.ltb_spec y 0); [lia|]. rewrite Hrow, Hset.
  eexists. split; [done|]. split.
  - split; [by rewrite length_insert|]. apply Forall_insert; [done|].
    by rewrite length_insert.
  - intros [cx cy]. unfold viewAt, js_index. cbn [fst snd].
    destruct (decide ((cx, cy) = (x, y))) as [[= -> ->]|Hne].
    + destruct (Z.ltb_spec y 0); [lia|]. rewrite list_lookup_insert_eq by lia. simpl.
      destruct (Z.ltb_spec x 0); [lia|]. by rewrite list_lookup_insert_eq by lia.
    + destruct (Z.ltb_spec cy 0); [done|].
      destruct (decide (Z.to_nat cy = Z.to_nat y)) as [Heq|Hney].
      * rewrite Heq, list_lookup_insert_eq, Hrow by lia. simpl.
        destruct (Z.ltb_spec cx 0); [done|].
        rewrite list_lookup_insert_ne; [done|]. intros Hxx. apply Hne. f_equal; lia.
      * by rewrite list_lookup_insert_ne.
Qed.

(** A loop that paints some cells of the grid, each with a state of its
    own. *)
Lemma paintCells (f : Z * Z → option CellState) cs : ∀ v,
  wfView v → Forall inGrid cs →
  ∃ v', foldM (λ v c, match f c with
                      | Some state => view_set v c.1 c.2 state
                      | None => Ok v
                      end) cs v = Ok v'
        ∧ wfView v'
        ∧ ∀ c, viewAt v' c
               = match f c with
                 | Some state => if decide (c ∈ cs) then Some (Some state) else viewAt v c
                 | None => viewAt v c
                 end.
Proof.
  induction cs as [|c0 cs IH]; intros v Hwf Hin.
  - exists v. split; [done|]. split; [done|]. intros c. destruct (f c); [|done].
    rewrite decide_False; [done|]. by intros ?%elem_of_nil.
  - apply Forall_cons in Hin as [Hc0 Hin]. cbn [foldM].
    destruct (f c0) as [state0|] eqn:Hf0.
    + destruct (view_set_inGrid v c0.1 c0.2 state0 Hwf) as (v1 & -> & Hwf1 & Hget1);
        [by destruct c0|].
      cbn [bind]. destruct (IH v1 Hwf1 Hin) as (v' & -> & Hwf' & Hget').
      exists v'. split; [done|]. split; [done|]. intros c. rewrite Hget', Hget1.
      destruct (f c) as [state|] eqn:Hf.
      * destruct (decide (c ∈ cs)) as [Hmem|Hmem].
        -- by rewrite decide_True by (by right).
        -- destruct (decide (c = (c0.1, c0.2))) as [->|Hne].
           ++ rewrite decide_True by (destruct c0; left).
              destruct c0; simpl in *. congruence.
           ++ rewrite decide_False; [done|]. intros [->|?]%elem_of_cons; [|done].
              by destruct c0.
      * rewrite decide_False; [done|]. intros ->. destruct c0; simpl in *. congruence.
    + cbn [bind]. destruct (IH v Hwf Hin) as (v' & -> & Hwf' & Hget').
      exists v'. split; [done|]. split; [done|]. intros c. rewrite Hget'.
      destruct (f c) as [state|] eqn:Hf; [|done].
      destruct (decide (c ∈ cs)) as [Hmem|Hmem].
      * by rewrite decide_True by (by right).
      * rewrite decide_False; [done|]. intros [->|?]%elem_of_cons; [|done]. congruence.
Qed.

Lemma foldM_ext_in {A B} (f g : B → A → result B) l :
  (∀ b a, a ∈ l → f b a = g b a) → ∀ b, foldM f l b = foldM g l b.
Proof.
  induction l as [|a l IH]; intros Hfg b; [done|]. cbn [foldM].
  rewrite Hfg by left. destruct (g b a); [|done]. cbn [bind].
  apply IH. intros b' a' Ha'. apply Hfg. by right.
Qed.

Lemma markShots_inGrid state shots v :
  wfView v → Forall inGrid shots →
  ∃ v', markShots state shots v = Ok v' ∧ wfView v'
        ∧ ∀ c, viewAt v' c = if decide (c ∈ shots) then Some (Some state) else viewAt v c.
Proof.
  intros Hwf Hin.
  destruct (paintCells (λ _, Some state) shots v Hwf Hin) as (v' & Hrun & Hwf' & Hget).
  exists v'. done.
Qed.


(** * Position keys *)

Lemma commaFree_pretty_N_go x : ∀ s, commaFree s → commaFree (pretty_N_go x s).
Proof.
  induction (N.lt_wf_0 x) as [x _ IH]; intros s Hs.
  assert (x = 0 ∨ 0 < x)%N as [->|Hx] by lia.
  - by rewrite pretty_N_go_0.
  - rewrite pretty_N_go_step by done. apply IH; [by apply N.div_lt|].
    split; [|done]. unfold pretty_N_char. by repeat case_match.
Qed.

Lemma commaFree_pretty_N (x : N) : commaFree (pretty x).
Proof.
  unfold pretty, pretty_N. case_decide; [by split|].
  by apply commaFree_pretty_N_go.
Qed.

Lemma commaFree_pretty_Z (z : Z) : commaFree (pretty z).
Proof.
  destruct z as [|p|p]; unfold pretty, pretty_Z.
  - by split.
  - apply commaFree_pretty_N.
  - rewrite append_cons. split; [done|]. apply commaFree_pretty_N.
Qed.

Lemma split_at_comma s1 : ∀ s2 t1 t2,
  commaFree s1 → commaFree s2 →
  s1 +:+ "," +:+ t1 = s2 +:+ "," +:+ t2 → s1 = s2 ∧ t1 = t2.
Proof.
  induction s1 as [|a s1 IH]; intros [|a' s2] t1 t2 H1 H2 Heq.
  - change (String "," t1 = String "," t2) in Heq. by injection Heq as ->.
  - change (String "," t1 = String a' (s2 +:+ "," +:+ t2)) in Heq.
    injection Heq as <- _. by destruct H2 as [[] _].
  - change (String a (s1 +:+ "," +:+ t1) = String "," t2) in Heq.
    injection Heq as -> _. by destruct H1 as [[] _].
  - rewrite !append_cons in Heq. injection Heq as -> Heq.
    destruct H1 as [_ H1], H2 as [_ H2].
    destruct (IH s2 t1 t2 H1 H2 Heq) as [-> ->]. done.
Qed.

(** Different positions have different keys. *)
Lemma posKey_inj x y x' y' : posKey x y = posKey x' y' → x = x' ∧ y = y'.
Proof.
  unfold posKey. intros Heq.
  apply split_at_comma in Heq as [Hx Hy]; auto using commaFree_pretty_Z.
  split; by apply (inj pretty).
Qed.

Lemma posKey_elem_of c (shots : list (Z * Z)) :
  posKey c.1 c.2 ∈ (λ shot, posKey shot.1 shot.2) <$> shots ↔ c ∈ shots.
Proof.
  rewrite list_elem_of_fmap. destruct c as [cx cy]. split.
  - intros ([x y] & [Hx Hy]%posKey_inj & Hmem). simpl in Hx, Hy. by subst.
  - intros Hmem. by exists (cx, cy).
Qed.

(** [positions.has(posKey)] *)
Lemma posKey_has x y (shots : list (Z * Z)) :
  bool_decide (posKey x y ∈ (λ shot, posKey shot.1 shot.2) <$> shots)
  = bool_decide ((x, y) ∈ shots).
Proof. apply bool_decide_ext, (posKey_elem_of (x, y)). Qed.

(** * Sunk ships in the view *)

Lemma allCellsHit_true m s :
  allCellsHit m s = true ↔ ∀ c, c ∈ footprint s → c ∈ hits m.
Proof.
  unfold allCellsHit. rewrite forallb_forall. split.
  - intros Hall c Hc%list_elem_of_In. apply Hall in Hc.
    apply existsb_exists in Hc as ([hx hy] & Hin%list_elem_of_In & Heq).
    apply andb_true_iff in Heq as [Hx%Z.eqb_eq Hy%Z.eqb_eq]. simpl in Hx, Hy.
    destruct c; simpl in *. by subst.
  - intros Hall c Hc%list_elem_of_In. apply existsb_exists. exists c.
    split; [by apply list_elem_of_In, Hall|]. by rewrite !Z.eqb_refl.
Qed.

Lemma elem_of_sunkCells b m c :
  c ∈ sunkCells (Some b) m
  ↔ ∃ s, s ∈ ships b ∧ c ∈ footprint s ∧ ∀ c', c' ∈ footprint s → c' ∈ hits m.
Proof.
  unfold sunkCells. rewrite list_elem_of_bind. split.
  - intros (s & Hc & [Hsunk Hs]%list_elem_of_filter). exists s.
    by rewrite <-allCellsHit_true.
  - intros (s & Hs & Hc & Hall). exists s. split; [done|].
    apply list_elem_of_filter. by rewrite allCellsHit_true.
Qed.

Lemma markSunkShips_spec b m v :
  wfView v → Forall inGrid (hits m) →
  ∃ v', markSunkShips b m v = Ok v' ∧ wfView v'
        ∧ ∀ c, viewAt v' c
               = if decide (c ∈ sunkCells (Some b) m) then Some (Some SUNK)
                 else viewAt v c.
Proof.
  intros Hwf Hhits. unfold markSunkShips, sunkCells. revert v Hwf.
  induction (ships b) as [|s ss IH]; intros v Hwf.
  - exists v. split; [done|]. split; [done|]. intros c.
    rewrite decide_False; [done|]. by intros ?%elem_of_nil.
  - cbn [foldM]. rewrite filter_cons.
    destruct (allCellsHit m s) eqn:Hsunk.
    + rewrite decide_True by done.
      assert (Forall inGrid (footprint s)) as Hin.
      { apply Forall_forall. intros c Hc.
        eapply Forall_forall; [exact Hhits|]. by apply (allCellsHit_true m s). }
      destruct (paintCells (λ _, Some SUNK) (footprint s) v Hwf Hin)
        as (v1 & -> & Hwf1 & Hget1).
      cbn [bind]. destruct (IH v1 Hwf1) as (v' & -> & Hwf' & Hget').
      exists v'. split; [done|]. split; [done|]. intros c.
      rewrite Hget', Hget1, bind_cons.
      destruct (decide (c ∈ filter _ ss ≫= footprint)) as [Hmem|Hmem].
      * by rewrite decide_True by (apply elem_of_app; by right).
      * destruct (decide (c ∈ footprint s)) as [Hc|Hc].
        -- by rewrite decide_True by (apply elem_of_app; by left).
        -- by rewrite decide_False by (by intros [?|?]%elem_of_app).
    + rewrite decide_False by done. cbn [bind]. apply IH, Hwf.
Qed.

(** * The three views *)

Lemma grid_get_wf g x y :
  wfGrid g → inGrid (x, y) → grid_get g x y = Ok (cellAt g (x, y)).
Proof.
  intros Hwf Hin.
  destruct (wfGrid_cellAt _ _ Hwf Hin) as [v (row & Hrow & _)%cellAt_Some].
  simpl in Hrow. by rewrite (grid_get_cellAt _ _ _ _ Hrow).
Qed.

Lemma foldM_fmap {A A' B} (h : A → A') (g : B → A' → result B) l :
  ∀ b, foldM g (h <$> l) b = foldM (λ b a, g b (h a)) l b.
Proof.
  induction l as [|a l IH]; intros b; [done|]. rewrite fmap_cons. cbn [foldM].
  destruct (g b (h a)); [|done]. cbn [bind]. apply IH.
Qed.

(** The state the loops of the own view write at a cell, if any. *)
Lemma ownView_spec b m v :
  wfGrid (grid b) → wfView v →
  ∃ v', ownView b ((λ hit, posKey hit.1 hit.2) <$> hits m)
          ((λ miss, posKey miss.1 miss.2) <$> misses m) v = Ok v'
        ∧ wfView v'
        ∧ ∀ c, inGrid c →
            viewAt v' c
            = if decide (cellAt (grid b) c = Some 1)
              then Some (Some (if decide (c ∈ hits m) then HIT else SHIP))
              else if decide (c ∈ misses m) then Some (Some MISS) else viewAt v c.
Proof.
  intros Hgrid Hwf. unfold ownView.
  set (paint := λ c : Z * Z,
         if decide (cellAt (grid b) c = Some 1)
         then Some (if decide (c ∈ hits m) then HIT else SHIP)
         else if decide (c ∈ misses m) then Some MISS else None).
  set (cells := (λ yx : Z * Z, (yx.2, yx.1)) <$> (seqZ 0 10 ≫= λ y, pair y <$> seqZ 0 10)).
  assert (∀ c, c ∈ cells ↔ inGrid c) as Hcells.
  { intros c. unfold cells. rewrite list_elem_of_fmap. split.
    - intros (yx & -> & Hyx%grid_pairs_inGrid). done.
    - intros Hc. exists (c.2, c.1). split; [by destruct c|].
      apply grid_pairs_inGrid. by destruct c. }
  destruct (paintCells paint cells v Hwf) as (v' & Hrun & Hwf' & Hget).
  { apply Forall_forall. intros c. apply Hcells. }
  exists v'. split; [|split; [done|]].
  - rewrite (foldM_nested (λ v y x,
               cell ←! grid_get (grid b) x y;
               if bool_decide (cell = Some 1)
               then if bool_decide (posKey x y ∈ (λ hit, posKey hit.1 hit.2) <$> hits m)
                    then view_set v x y HIT else view_set v x y SHIP
               else if bool_decide (posKey x y ∈ (λ miss, posKey miss.1 miss.2) <$> misses m)
                    then view_set v x y MISS else Ok v)).
    rewrite <-Hrun. unfold cells. rewrite foldM_fmap. apply foldM_ext_in.
    intros v0 [y x] Hyx%grid_pairs_inGrid. cbn [fst snd] in *.
    rewrite (grid_get_wf _ _ _ Hgrid Hyx). cbn [bind]. unfold paint.
    rewrite !posKey_has.
    destruct (decide (cellAt (grid b) (x, y) = Some 1)) as [Hship|Hship].
    + rewrite bool_decide_eq_true_2 by done.
      destruct (decide ((x, y) ∈ hits m)).
      * by rewrite bool_decide_eq_true_2.
      * by rewrite bool_decide_eq_false_2.
    + rewrite bool_decide_eq_false_2 by done.
      destruct (decide ((x, y) ∈ misses m)).
      * by rewrite bool_decide_eq_true_2.
      * by rewrite bool_decide_eq_false_2.
  - intros c Hc. rewrite Hget. unfold paint.
    destruct (decide (cellAt (grid b) c = Some 1)).
    + by rewrite decide_True by (by apply Hcells).
    + destruct (decide (c ∈ misses m)); [|done].
      by rewrite decide_True by (by apply Hcells).
Qed.


Lemma viewAt_inGrid v c state : wfView v → viewAt v c = Some state → inGrid c.
Proof.
  intros [Hlen Hrows]. unfold viewAt, js_index, inGrid, BOARD_SIZE.
  destruct (Z.ltb_spec c.2 0); [done|].
  destruct (v !! Z.to_nat c.2) as [row|] eqn:Hrow; [|done]. cbn [mbind option_bind].
  destruct (Z.ltb_spec c.1 0); [done|]. intros Hcell.
  pose proof (Forall_lookup_1 _ _ _ _ Hrows Hrow) as Hrowlen. simpl in Hrowlen.
  apply lookup_lt_Some in Hrow, Hcell. lia.
Qed.

(** The views that are made of the shots alone. *)
Lemma createBoardView_shots_spec board m isOpponentView :
  board = None ∨ isOpponentView = true →
  Forall inGrid (hits m) → Forall inGrid (misses m) →
  ∃ v, createBoardView board m isOpponentView = Ok v ∧ wfView v
       ∧ ∀ c, inGrid c → viewAt v c = Some (Some (shotState board m c)).
Proof.
  intros Hcase Hhits Hmisses.
  destruct (markShots_inGrid HIT (hits m) emptyView wfView_emptyView Hhits)
    as (v1 & Hrun1 & Hwf1 & Hget1).
  destruct (markShots_inGrid MISS (misses m) v1 Hwf1 Hmisses)
    as (v2 & Hrun2 & Hwf2 & Hget2).
  assert (∀ c, inGrid c →
            viewAt v2 c = Some (Some (if decide (c ∈ misses m) then MISS
                                      else if decide (c ∈ hits m) then HIT else EMPTY)))
    as Hshots.
  { intros c Hc. rewrite Hget2, Hget1. destruct (decide (c ∈ misses m)); [done|].
    destruct (decide (c ∈ hits m)); [done|]. by apply viewAt_emptyView. }
  destruct board as [b|].
  - destruct Hcase as [Hnone| ->]; [done|].
    destruct (markSunkShips_spec b m v2 Hwf2 Hhits) as (v3 & Hrun3 & Hwf3 & Hget3).
    exists v3. split; [|split; [done|]].
    + unfold createBoardView. cbn [negb]. rewrite Hrun1. cbn [bind].
      rewrite Hrun2. cbn [bind]. done.
    + intros c Hc. rewrite Hget3. unfold shotState.
      destruct (decide (c ∈ sunkCells (Some b) m)); [done|]. by apply Hshots.
  - exists v2. split; [|split; [done|]].
    + unfold createBoardView. rewrite Hrun1. cbn [bind]. done.
    + intros c Hc. rewrite Hshots by done. unfold shotState.
      rewrite (decide_False (P := c ∈ sunkCells None m)); [done|].
      by intros ?%elem_of_nil.
Qed.

(** Extra X20.  Without a board, or in the opponent's view, when all
    recorded shots are cells of the grid: [createBoardView] returns ten
    rows of ten cells; a cell shows SUNK when it belongs to a ship of the
    board all of whose cells are among the hits, otherwise MISS when it is
    among the misses, otherwise HIT when it is among the hits, otherwise
    EMPTY; no cell shows SHIP. *)
Theorem createBoardView_without_ships board m isOpponentView :
  board = None ∨ isOpponentView = true →
  Forall inGrid (hits m) → Forall inGrid (misses m) →
  ∃ v, createBoardView board m isOpponentView = Ok v ∧ wfView v
       ∧ (∀ c, inGrid c → viewAt v c = Some (Some (shotState board m c)))
       ∧ (∀ c, viewAt v c ≠ Some (Some SHIP)).
Proof.
  intros Hcase Hhits Hmisses.
  destruct (createBoardView_shots_spec board m isOpponentView Hcase Hhits Hmisses)
    as (v & Hrun & Hwf & Hget).
  exists v. split; [done|]. split; [done|]. split; [done|].
  intros c Hc. pose proof (viewAt_inGrid _ _ _ Hwf Hc) as Hin.
  rewrite (Hget c Hin) in Hc. unfold shotState in Hc. by repeat case_decide.
Qed.

Lemma createBoardView_without_ships_witness :
  (Some spacedBoard = None ∨ true = true)
  ∧ Forall inGrid (hits sunkWithOneMiss) ∧ Forall inGrid (misses sunkWithOneMiss)
  ∧ ∃ v, createBoardView (Some spacedBoard) sunkWithOneMiss true = Ok v ∧ wfView v
       ∧ (∀ c, inGrid c
               → viewAt v c = Some (Some (shotState (Some spacedBoard) sunkWithOneMiss c)))
       ∧ (∀ c, viewAt v c ≠ Some (Some SHIP)).
Proof.
  assert (Forall inGrid (hits sunkWithOneMiss)) as Hhits
    by (apply (bool_decide_unpack _); vm_compute; exact I).
  assert (Forall inGrid (misses sunkWithOneMiss)) as Hmisses
    by (apply (bool_decide_unpack _); vm_compute; exact I).
  split; [by right|]. split; [exact Hhits|]. split; [exact Hmisses|].
  exact (createBoardView_without_ships (Some spacedBoard) sunkWithOneMiss true
           (or_intror eq_refl) Hhits Hmisses).
Defined.

(** Extra X21.  The player's own view of a board with a ten by ten grid,
    when the recorded hits are cells of the grid: a cell shows SUNK when
    it belongs to a ship of the list all of whose cells are among the
    hits; otherwise a cell that is 1 in the grid shows HIT when it is
    among the hits and SHIP when it is not; a cell that is not 1 shows
    MISS when it is among the misses and EMPTY otherwise, also when a hit
    is recorded there. *)
Theorem createBoardView_own b m :
  wfGrid (grid b) → Forall inGrid (hits m) →
  ∃ v, createBoardView (Some b) m false = Ok v ∧ wfView v
       ∧ ∀ c, inGrid c → viewAt v c = Some (Some (ownState b m c)).
Proof.
  intros Hgrid Hhits.
  destruct (ownView_spec b m emptyView Hgrid wfView_emptyView) as (v1 & Hrun1 & Hwf1 & Hget1).
  destruct (markSunkShips_spec b m v1 Hwf1 Hhits) as (v2 & Hrun2 & Hwf2 & Hget2).
  exists v2. split; [|split; [done|]].
  - unfold createBoardView. cbn [negb]. rewrite Hrun1. cbn [bind]. done.
  - intros c Hc. rewrite Hget2, (Hget1 c Hc). unfold ownState.
    destruct (decide (c ∈ sunkCells (Some b) m)); [done|].
    destruct (decide (cellAt (grid b) c = Some 1)); [done|].
    destruct (decide (c ∈ misses m)); [done|]. by apply viewAt_emptyView.
Qed.

Lemma createBoardView_own_witness :
  wfGrid (grid spacedBoard) ∧ Forall inGrid (hits sunkWithOneMiss)
  ∧ ∃ v, createBoardView (Some spacedBoard) sunkWithOneMiss false = Ok v ∧ wfView v
       ∧ ∀ c, inGrid c → viewAt v c = Some (Some (ownState spacedBoard sunkWithOneMiss c)).
Proof.
  assert (wfGrid (grid spacedBoard)) as Hwf
    by (apply (bool_decide_unpack _); vm_compute; exact I).
  assert (Forall inGrid (hits sunkWithOneMiss)) as Hhits
    by (apply (bool_decide_unpack _); vm_compute; exact I).
  split; [exact Hwf|]. split; [exact Hhits|].
  exact (createBoardView_own spacedBoard sunkWithOneMiss Hwf Hhits).
Defined.

(** * Shots outside the rows *)

Lemma view_set_length v x y state v' :
  view_set v x y state = Ok v' → length v' = length v.
Proof.
  unfold view_set. destruct (js_index v y); [|done]. intros [= <-].
  by rewrite length_insert.
Qed.

Lemma markShots_row_outside state shots : ∀ v c,
  length v = 10%nat → c ∈ shots → ¬ (0 ≤ c.2 < BOARD_SIZE) →
  markShots state shots v = Throw TypeError.
Proof.
  unfold markShots.
  induction shots as [|c0 shots IH]; intros v c Hlen Hc Hrow; [by apply elem_of_nil in Hc|].
  cbn [foldM]. destruct (view_set v c0.1 c0.2 state) as [v1|e] eqn:Hset.
  - cbn [bind]. apply elem_of_cons in Hc as [->|Hc].
    + exfalso. unfold view_set, js_index in Hset. unfold BOARD_SIZE in Hrow.
      destruct (Z.ltb_spec c0.2 0); [done|].
      rewrite lookup_ge_None_2 in Hset by lia. done.
    + apply (IH v1 c); try done. by rewrite (view_set_length _ _ _ _ _ Hset).
  - unfold view_set in Hset. by destruct (js_index v c0.2); simplify_eq.
Qed.

Lemma markShots_length state shots : ∀ v v',
  markShots state shots v = Ok v' → length v' = length v.
Proof.
  unfold markShots. induction shots as [|c0 shots IH]; intros v v'; cbn [foldM].
  - by intros [= <-].
  - destruct (view_set v c0.1 c0.2 state) as [v1|e] eqn:Hset; [|done]. cbn [bind].
    intros Hrun. rewrite (IH _ _ Hrun). by eapply view_set_length.
Qed.

(** Extra X22.  Without a board, or in the opponent's view, one recorded
    shot whose row is not a row of the grid makes [createBoardView] throw
    a TypeError, whatever else is recorded. *)
Theorem createBoardView_row_outside board m isOpponentView c :
  board = None ∨ isOpponentView = true →
  c ∈ hits m ++ misses m → ¬ (0 ≤ c.2 < BOARD_SIZE) →
  createBoardView board m isOpponentView = Throw TypeError.
Proof.
  intros Hcase Hc Hrow.
  assert ((v ←! markShots HIT (hits m) emptyView; markShots MISS (misses m) v)
          = Throw TypeError) as Hshots.
  { apply elem_of_app in Hc as [Hc|Hc].
    - by rewrite (markShots_row_outside HIT (hits m) emptyView c).
    - destruct (markShots HIT (hits m) emptyView) as [v1|e] eqn:Hrun1.
      + cbn [bind]. apply (markShots_row_outside MISS (misses m) v1 c); try done.
        by rewrite (markShots_length _ _ _ _ Hrun1).
      + destruct (hits m) as [|c0 hs]; [done|].
        assert (∀ shots v e', markShots HIT shots v = Throw e' → e' = TypeError) as Herr.
        { unfold markShots. induction shots as [|c1 shots IH]; intros v e'; [done|].
          cbn [foldM]. destruct (view_set v c1.1 c1.2 HIT) as [v1|e1] eqn:Hset.
          - cbn [bind]. apply IH.
          - unfold view_set in Hset. destruct (js_index v c1.2); [done|].
            cbn [bind]. by intros [= <-]; simplify_eq. }
        by rewrite (Herr _ _ _ Hrun1). }
  unfold createBoardView. destruct board as [b|].
  - destruct Hcase as [Hnone| ->]; [done|]. cbn [negb]. by rewrite Hshots.
  - done.
Qed.

Lemma createBoardView_row_outside_witness :
  ((None : option Board) = None ∨ true = true)
  ∧ (0, 10) ∈ hits shotBelowGrid ++ misses shotBelowGrid
  ∧ ¬ (0 ≤ (0, 10).2 < BOARD_SIZE)
  ∧ createBoardView None shotBelowGrid true = Throw TypeError.
Proof.
  assert ((0, 10) ∈ hits shotBelowGrid ++ misses shotBelowGrid) as Hc by left.
  assert (¬ (0 ≤ (0, 10).2 < BOARD_SIZE)) as Hrow by (unfold BOARD_SIZE; simpl; lia).
  split; [by left|]. split; [exact Hc|]. split; [exact Hrow|].
  exact (createBoardView_row_outside None shotBelowGrid true (0, 10)
           (or_introl eq_refl) Hc Hrow).
Defined.

(** * Clicking the opponent's board *)

(** Extra X23.  On the opponent's board as the page shows it (no board,
    the shots at the opponent, all of them cells of the grid), in the
    player's turn and not disabled, a click on a cell of the grid is
    handed to [onCellClick] exactly when the cell is not among the
    recorded hits or misses. *)
Theorem handleCellClick_fresh_cell m v c :
  Forall inGrid (hits m) → Forall inGrid (misses m) →
  createBoardView None m true = Ok v → inGrid c →
  handleCellClick true true false v (Some c)
  = Ok (if decide (c ∈ hits m ∨ c ∈ misses m) then None else Some c).
Proof.
  intros Hhits Hmisses Hview Hc.
  destruct (createBoardView_shots_spec None m true (or_introl eq_refl) Hhits Hmisses)
    as (v' & Hrun & Hwf & Hget).
  rewrite Hview in Hrun. injection Hrun as <-.
  specialize (Hget c Hc). unfold handleCellClick. cbn [negb orb]. destruct c as [x y].
  unfold viewAt in Hget. cbn [fst snd] in Hget.
  destruct (js_index v y) as [row|]; [|done]. cbn [mbind option_bind] in Hget.
  rewrite Hget. cbn [mbind option_bind id]. unfold shotState.
  rewrite (decide_False (P := (x, y) ∈ sunkCells None m)) by (by intros ?%elem_of_nil).
  destruct (decide ((x, y) ∈ misses m)) as [Hm|Hm].
  - rewrite decide_True by (by right). done.
  - destruct (decide ((x, y) ∈ hits m)) as [Hh|Hh].
    + rewrite decide_True by (by left). done.
    + rewrite decide_False by (by intros [?|?]). done.
Qed.

Lemma handleCellClick_fresh_cell_witness :
  Forall inGrid (hits sunkWithOneMiss) ∧ Forall inGrid (misses sunkWithOneMiss)
  ∧ createBoardView None sunkWithOneMiss true = Ok shotsView
  ∧ inGrid (9, 9)
  ∧ handleCellClick true true false shotsView (Some (9, 9))
    = Ok (if decide ((9, 9) ∈ hits sunkWithOneMiss ∨ (9, 9) ∈ misses sunkWithOneMiss)
          then None else Some (9, 9)).
Proof.
  assert (Forall inGrid (hits sunkWithOneMiss)) as Hhits
    by (apply (bool_decide_unpack _); vm_compute; exact I).
  assert (Forall inGrid (misses sunkWithOneMiss)) as Hmisses
    by (apply (bool_decide_unpack _); vm_compute; exact I).
  assert (inGrid (9, 9)) as Hc by (apply (bool_decide_unpack _); vm_compute; exact I).
  split; [exact Hhits|]. split; [exact Hmisses|]. split; [reflexivity|].
  split; [exact Hc|].
  exact (handleCellClick_fresh_cell sunkWithOneMiss shotsView (9, 9)
           Hhits Hmisses eq_refl Hc).
Defined.

(** * The salt as an encoding *)

Lemma hexDigit_inj n m : (n < 16)%N → (m < 16)%N → hexDigit n = hexDigit m → n = m.
Proof.
  intros Hn Hm.
  assert (Forall (λ n, Forall (λ m, hexDigit n = hexDigit m → n = m)
                        (N.of_nat <$> seq 0 16)) (N.of_nat <$> seq 0 16)) as Hall
    by (apply (bool_decide_unpack _); vm_compute; exact I).
  assert (∀ k, (k < 16)%N → k ∈ N.of_nat <$> seq 0 16) as Hmem.
  { intros k Hk. apply list_elem_of_fmap. exists (N.to_nat k).
    split; [lia|]. apply elem_of_seq. lia. }
  eapply Forall_forall in Hall; [|exact (Hmem n Hn)].
  eapply Forall_forall in Hall; [|exact (Hmem m Hm)]. done.
Qed.

Lemma hexByte_inj b b' rest rest' :
  hexByte b rest = hexByte b' rest' → b = b' ∧ rest = rest'.
Proof.
  unfold hexByte. intros [= Hhigh Hlow ->]. split; [|done].
  pose proof (N_ascii_bounded b) as Hb. pose proof (N_ascii_bounded b') as Hb'.
  apply hexDigit_inj in Hhigh;
    [|apply N.Div0.div_lt_upper_bound; lia|apply N.Div0.div_lt_upper_bound; lia].
  apply hexDigit_inj in Hlow; [|apply N.mod_lt; lia|apply N.mod_lt; lia].
  rewrite <-(ascii_N_embedding b), <-(ascii_N_embedding b'). f_equal.
  rewrite (N.div_mod (N_of_ascii b) 16), (N.div_mod (N_of_ascii b') 16) by lia.
  by rewrite Hhigh, Hlow.
Qed.

(** Extra X25.  [generateSalt] writes two characters for each random
    byte and loses nothing: different bytes give different salts. *)
Theorem generateSalt_encoding bytes bytes' :
  String.length (generateSalt bytes) = (2 * length bytes)%nat
  ∧ (generateSalt bytes = generateSalt bytes' ↔ bytes = bytes').
Proof.
  split; [apply generateSalt_length|]. split; [|by intros ->].
  unfold generateSalt. revert bytes'.
  induction bytes as [|b bytes IH]; intros [|b' bytes']; try done.
  cbn [foldr]. intros [-> Hrest]%hexByte_inj. f_equal. by apply IH.
Qed.

(** * The serialization as an encoding *)

Lemma joinDigits_bit cell cells :
  cell = 0 ∨ cell = 1 →
  joinDigits (cell :: cells)
  = String (if decide (cell = 1) then "1" else "0")%char (joinDigits cells).
Proof. by intros [-> | ->]. Qed.

Lemma joinDigits_bits_inj cells : ∀ cells',
  Forall (λ cell, cell = 0 ∨ cell = 1) cells →
  Forall (λ cell, cell = 0 ∨ cell = 1) cells' →
  joinDigits cells = joinDigits cells' → cells = cells'.
Proof.
  induction cells as [|c cells IH]; intros [|c' cells'] Hbits Hbits' Heq.
  - done.
  - apply Forall_cons in Hbits' as [Hc' _]. rewrite (joinDigits_bit c') in Heq by done.
    done.
  - apply Forall_cons in Hbits as [Hc _]. rewrite (joinDigits_bit c) in Heq by done.
    done.
  - apply Forall_cons in Hbits as [Hc Hbits], Hbits' as [Hc' Hbits'].
    rewrite (joinDigits_bit c), (joinDigits_bit c') in Heq by done.
    injection Heq as Hchar Hrest. f_equal; [|by apply IH].
    destruct Hc as [-> | ->], Hc' as [-> | ->]; done.
Qed.

Lemma concat_wf_inj (g g' : list (list Z)) :
  wfGrid g → wfGrid g' → concat g = concat g' → g = g'.
Proof.
  intros Hwf Hwf' Heq. apply grid_ext; try done. intros [x y] Hc.
  by rewrite <-!concat_lookup_cell, Heq.
Qed.

(** Extra X26.  On boards made by [createBoard] the serialization that
    goes into the commitment determines the grid and nothing more: two
    boards have the same serialization exactly when they have the same
    grid, which they have exactly when their ships cover the same cells,
    whatever the ships are. *)
Theorem serializeBoard_determines_grid ss ss' b b' :
  createBoard ss = Ok b → createBoard ss' = Ok b' →
  (serializeBoard b = serializeBoard b' ↔ grid b = grid b')
  ∧ (grid b = grid b' ↔ ∀ c, c ∈ ss ≫= footprint ↔ c ∈ ss' ≫= footprint).
Proof.
  intros Hb Hb'.
  pose proof (createBoard_bits _ _ Hb) as Hbits.
  pose proof (createBoard_bits _ _ Hb') as Hbits'.
  destruct (createBoard_Ok_inv _ _ Hb) as (_ & Hwf & _ & Hin & Hcells & _).
  destruct (createBoard_Ok_inv _ _ Hb') as (_ & Hwf' & _ & Hin' & Hcells' & _).
  split; split.
  - unfold serializeBoard. intros Heq%joinDigits_bits_inj; [|done..].
    by apply concat_wf_inj.
  - unfold serializeBoard. by intros ->.
  - intros Hgrid c. split.
    + intros Hc. assert (inGrid c) as Hg by (by eapply Forall_forall in Hin).
      pose proof (Hcells c Hg) as H1. rewrite Hgrid, (Hcells' c Hg) in H1.
      rewrite (decide_True (P := c ∈ ss ≫= footprint)) in H1 by done. by case_decide.
    + intros Hc. assert (inGrid c) as Hg by (by eapply Forall_forall in Hin').
      pose proof (Hcells' c Hg) as H1. rewrite <-Hgrid, (Hcells c Hg) in H1.
      rewrite (decide_True (P := c ∈ ss' ≫= footprint)) in H1 by done. by case_decide.
  - intros Hsame. apply grid_ext; try done. intros c Hc.
    rewrite (Hcells c Hc), (Hcells' c Hc). f_equal.
    destruct (decide (c ∈ ss ≫= footprint)) as [H1|H1].
    + by rewrite decide_True by (by apply Hsame).
    + by rewrite decide_False by (by rewrite <-Hsame).
Qed.

Lemma serializeBoard_determines_grid_witness :
  createBoard spacedFleet = Ok spacedBoard
  ∧ createBoard (reverse spacedFleet) = Ok (mkBoard (reverse spacedFleet) (grid spacedBoard))
  ∧ (serializeBoard spacedBoard
     = serializeBoard (mkBoard (reverse spacedFleet) (grid spacedBoard))
     ↔ grid spacedBoard = grid (mkBoard (reverse spacedFleet) (grid spacedBoard)))
  ∧ (grid spacedBoard = grid (mkBoard (reverse spacedFleet) (grid spacedBoard))
     ↔ ∀ c, c ∈ spacedFleet ≫= footprint ↔ c ∈ reverse spacedFleet ≫= footprint).
Proof.
  assert (createBoard (reverse spacedFleet)
          = Ok (mkBoard (reverse spacedFleet) (grid spacedBoard))) as Hrev
    by (vm_compute; reflexivity).
  split; [reflexivity|]. split; [exact Hrev|].
  exact (serializeBoard_determines_grid spacedFleet (reverse spacedFleet) spacedBoard
           (mkBoard (reverse spacedFleet) (grid spacedBoard)) eq_refl Hrev).
Defined.
